(** * TierForge catalog scripts: contrast assignment, combo merge, batch fetch

    A shallow embedding of the three maintenance scripts of the repository
    ([scripts/apply_combo_schools.py], [scripts/scrape_all_spells.py],
    [scripts/batch_fetch_infoboxes.py]) and the properties of the
    reconciliation engine that the specification states about them,
    followed by further properties of these scripts and of
    [scripts/create_preset.py], which reads the catalog they write.

    Conventions.
    - A Python [dict] is a [gmap]: equality of two [gmap]s is equality of
      Python dicts ([==] ignores insertion order).  Where the source relies
      on the order of a dict (the school table scanned by [next(...)]) an
      association list is used instead.
    - A JSON scalar is a [jval]; Python's [None] is [JNull], so
      [d.get(k)] is [py_get d k].
    - A Python exception that escapes [main] is the outcome [Crash]; an
      [IndexError] inside an expression is [None] in the [option] monad.
    - [print] is modelled by a list of structured lines. *)

From Stdlib Require Import Ascii String.
From stdpp Require Import base strings gmap list fin_maps.

Open Scope string_scope.
Open Scope list_scope.
Open Scope nat_scope.

(** ** JSON values and Python helpers *)

Inductive jval : Type :=
  | JNull
  | JBool (b : bool)
  | JNum (n : Z)
  | JStr (s : string).

#[global] Instance jval_eq_dec : EqDecision jval.
Proof. solve_decision. Defined.

(** A spell record is a JSON object with scalar fields. *)
Abbreviation spell := (gmap string jval).

(** [d.get(k)]: the value, or [None] when the key is missing. *)
Definition py_get (d : spell) (k : string) : jval := default JNull (d !! k).

(** [d.get(k, dflt)]. *)
Definition py_get_default (d : spell) (k : string) (dflt : jval) : jval :=
  default dflt (d !! k).

(** Python truthiness of a scalar: [None], [False], [0] and [""] are falsy. *)
Definition truthy (v : jval) : bool :=
  match v with
  | JNull => false
  | JBool b => b
  | JNum n => negb (Z.eqb n 0)
  | JStr s => negb (String.eqb s "")
  end.

(** A [for] loop over the items of a dict whose body may raise and whose
    iterations only touch their own item: the loop raises when one of the
    iterations does, and otherwise every item is replaced by its result. *)
Definition map_try {A B : Type} (f : string → A → option B)
    (m : gmap string A) : option (gmap string B) :=
  if decide (map_Forall (λ k a, is_Some (f k a)) m)
  then Some (map_imap f m)
  else None.

(** A counter incremented inside such a loop. *)
Definition map_sum {A : Type} (f : A → nat) (m : gmap string A) : nat :=
  map_fold (λ _ a n, f a + n) 0 m.

(** ** The persisted catalog ([data/spells.json]) *)

(** One entry of ["schools"]: its scalar attributes (["en_name"],
    ["ru_url"]) and its ["spells"] object.  A missing ["spells"] key is read
    by the scripts as an empty object. *)
Record school_data : Type := SchoolData {
  sd_attrs : gmap string jval;
  sd_spells : gmap string spell
}.

Record catalog : Type := Catalog {
  meta : gmap string jval;
  schools : gmap string school_data
}.

#[global] Instance school_data_eq_dec : EqDecision school_data.
Proof. solve_decision. Defined.

#[global] Instance catalog_eq_dec : EqDecision catalog.
Proof. solve_decision. Defined.

(** What a script finds at the path of [spells.json]: no file, a file that
    [json.load] rejects, or a catalog.  A file of JSON is taken to hold a
    catalog: an object of schools, each an object of records whose fields
    are scalars. *)
Inductive spells_file : Type :=
  | Absent
  | NotJson
  | Holds (data : catalog).

(** No spell key occurs in the ["spells"] object of two different schools. *)
Definition unique_membership (ss : gmap string school_data) : Prop :=
  ∀ s1 s2 sd1 sd2 k,
    ss !! s1 = Some sd1 → ss !! s2 = Some sd2 →
    is_Some (sd_spells sd1 !! k) → is_Some (sd_spells sd2 !! k) →
    s1 = s2.

(** ** [scripts/apply_combo_schools.py] *)

Module ApplyCombo.

Definition AERO : string := "Аэротеургия".
Definition GEO : string := "Геомантия".
Definition HYDRO : string := "Гидрософистика".
Definition PYRO : string := "Пирокинетика".
Definition NECRO : string := "Некромантия".
Definition POLY : string := "Превращение".
Definition HUNT : string := "Мастерство охоты".
Definition SCOUNDREL : string := "Искусство убийства".
Definition SUMMON : string := "Призывание".
Definition WARFARE : string := "Военное дело".

(** The curated pair table, in source order. *)
Definition DUAL_MAP : list (string * list string) := [
  ("Breathing Bubble", [AERO; WARFARE]);
  ("Mass Breathing Bubbles", [AERO; WARFARE]);
  ("Erratic Wisp", [AERO; HUNT]);
  ("Evasive Aura", [AERO; HUNT]);
  ("Smoke Cover", [AERO; SCOUNDREL]);
  ("Blessed Smoke Cloud", [AERO; SCOUNDREL]);
  ("Vaporize", [AERO; POLY]);
  ("Jellyfish Skin", [AERO; POLY]);
  ("Electric Infusion", [AERO; SUMMON]);
  ("Cursed Electric Infusion", [AERO; SUMMON]);
  ("Vacuum Touch", [AERO; NECRO]);
  ("Vacuum Aura", [AERO; NECRO]);
  ("Oily Carapace", [GEO; WARFARE]);
  ("Mass Oily Carapace", [GEO; WARFARE]);
  ("Throw Dust", [GEO; HUNT]);
  ("Dust Blast", [GEO; HUNT]);
  ("Venom Coating", [GEO; SCOUNDREL]);
  ("Venomous Aura", [GEO; SCOUNDREL]);
  ("Turn to Oil", [GEO; POLY]);
  ("Poisonous Skin", [GEO; POLY]);
  ("Poison Infusion", [GEO; SUMMON]);
  ("Acid Infusion", [GEO; SUMMON]);
  ("Corrosive Touch", [GEO; NECRO]);
  ("Corrosive Spray", [GEO; NECRO]);
  ("Cleanse Wounds", [HYDRO; WARFARE]);
  ("Mass Cleanse Wounds", [HYDRO; WARFARE]);
  ("Cryotherapy", [HYDRO; HUNT]);
  ("Mass Cryotherapy", [HYDRO; HUNT]);
  ("Vampiric Hunger", [HYDRO; SCOUNDREL]);
  ("Vampiric Hunger Aura", [HYDRO; SCOUNDREL]);
  ("Healing Tears", [HYDRO; POLY]);
  ("Icy Skin", [HYDRO; POLY]);
  ("Water Infusion", [HYDRO; SUMMON]);
  ("Ice Infusion", [HYDRO; SUMMON]);
  ("Raining Blood", [HYDRO; NECRO]);
  ("Blood Storm", [HYDRO; NECRO]);
  ("Sparking Swings", [PYRO; WARFARE]);
  ("Master of Sparks", [PYRO; WARFARE]);
  ("Throw Explosive Trap", [PYRO; HUNT]);
  ("Deploy Mass Traps", [PYRO; HUNT]);
  ("Sabotage", [PYRO; SCOUNDREL]);
  ("Mass Sabotage", [PYRO; SCOUNDREL]);
  ("Bleed Fire", [PYRO; POLY]);
  ("Flaming Skin", [PYRO; POLY]);
  ("Fire Infusion", [PYRO; SUMMON]);
  ("Necrofire Infusion", [PYRO; SUMMON]);
  ("Corpse Explosion", [PYRO; NECRO]);
  ("Mass Corpse Explosion", [PYRO; NECRO])
].

(** What the script prints. *)
Inductive line : Type :=
  | NotFound
  | Fixed (en_name : string) (current_primary : jval) (target_secondary : string)
  | Saved (fixed_count : nat).

#[global] Instance line_eq_dec : EqDecision line.
Proof. solve_decision. Defined.

(** [DUAL_MAP[en_name]] for a key that is in the table. *)
Fixpoint table_get (table : list (string * list string)) (name : string)
    : option (list string) :=
  match table with
  | [] => None
  | (k, v) :: rest => if String.eqb k name then Some v else table_get rest name
  end.

(** [en_name in DUAL_MAP], with [DUAL_MAP[en_name]] when it holds.  Only a
    string can be a key of the table. *)
Definition table_find (table : list (string * list string)) (en_name : jval)
    : option (list string) :=
  match en_name with
  | JStr n => table_get table n
  | _ => None
  end.

(** [current_primary in components]. *)
Definition in_components (current_primary : jval) (components : list string)
    : bool :=
  bool_decide (current_primary ∈ JStr <$> components).

(** Lines 98-112: the target secondary.  [None] is the [IndexError] of
    [[...][0]] on an empty comprehension or of [components[1]] on a short
    list. *)
Definition target_secondary (components : list string) (current_primary : jval)
    : option string :=
  if in_components current_primary components
  then head (filter (λ c, JStr c ≠ current_primary) components)
  else components !! 1.

(** Lines 88-118: the body of the inner loop for one spell.  The result is
    the spell after the iteration, what was printed, and the increment of
    [fixed_count]. *)
Definition fix_spell (table : list (string * list string))
    (key : string) (sp : spell) : option (spell * list line * nat) :=
  let en_name := py_get_default sp "en_name" (JStr key) in
  match table_find table en_name with
  | Some components =>
      let current_primary := py_get sp "primary_school" in
      target ← target_secondary components current_primary;
      if decide (py_get sp "secondary_school" ≠ JStr target)
      then Some (<["is_combo" := JBool true]>
                   (<["secondary_school" := JStr target]> sp),
                 [Fixed (match en_name with JStr n => n | _ => key end)
                        current_primary target],
                 1)
      else Some (sp, [], 0)
  | None => Some (sp, [], 0)
  end.

(** Lines 86-118 for one school. *)
Definition fix_school (table : list (string * list string))
    (sd : school_data) : option (school_data * nat) :=
  rs ← map_try (fix_spell table) (sd_spells sd);
  Some ({| sd_attrs := sd_attrs sd; sd_spells := (λ r, r.1.1) <$> rs |},
        map_sum (λ r, r.2) rs).

(** Lines 83-118: both loops. *)
Definition fix_catalog (table : list (string * list string))
    (data : catalog) : option (catalog * nat) :=
  rs ← map_try (λ _, fix_school table) (schools data);
  Some ({| meta := meta data; schools := fst <$> rs |}, map_sum snd rs).

(** How a run of [main] ends. *)
Inductive outcome : Type :=
  | NoFile                                   (* line 78-80 *)
  | Crash                                    (* an exception escaped *)
  | Done (data : catalog) (fixed_count : nat). (* file written, line 122 *)

#[global] Instance outcome_eq_dec : EqDecision outcome.
Proof. solve_decision. Defined.

(** [main], on the content of [data/spells.json] if the file exists; a
    file that [json.loads] rejects is the case [NotJson] of [run_with]. *)
Definition main_with (table : list (string * list string))
    (file : option catalog) : outcome :=
  match file with
  | None => NoFile
  | Some data =>
      match fix_catalog table data with
      | Some (data', fixed_count) => Done data' fixed_count
      | None => Crash
      end
  end.

Definition main : option catalog → outcome := main_with DUAL_MAP.

(** The script on what it finds at [data/spells.json]: line 78 tests that
    the file exists, and line 82 raises when it is not JSON. *)
Definition run_with (table : list (string * list string)) (f : spells_file)
    : outcome :=
  match f with
  | Absent => main_with table None
  | NotJson => Crash
  | Holds data => main_with table (Some data)
  end.

Definition run : spells_file → outcome := run_with DUAL_MAP.

(** The script ends with [main()], not [sys.exit(main())]: the status is 0
    unless an exception escaped. *)
Definition exit_code (o : outcome) : Z :=
  match o with
  | Crash => 1
  | _ => 0
  end.

(** A pair table whose entries all list two different members. *)
Definition pair_table (table : list (string * list string)) : Prop :=
  Forall (λ e, ∃ a b, e.2 = [a; b] ∧ a ≠ b) table.

End ApplyCombo.

(** ** [scripts/scrape_all_spells.py] *)

Module Scrape.

(** Library functions the scraper calls and the state it reads at import
    time.  The HTML layer (requests, BeautifulSoup) is outside the engine:
    a page is given by the candidate fields the selectors extract from it. *)
Class Env : Type := {
  (** [urllib.parse.urljoin] *)
  urljoin : string → string → string;
  (** [urllib.parse.quote] *)
  quote : string → string;
  (** [text.replace("°", "").replace("[DE]", "").strip()] (line 122) *)
  listing_name : string → string;
  (** [re.sub(r"\s*\(навык\)", "", text.replace("°", "").strip())]
      (lines 279-280) *)
  combo_name : string → string;
  (** The module global [EXISTING_MAPPINGS] (line 63) *)
  EXISTING_MAPPINGS : gmap string string
}.


Definition BASE_URL : string := "https://divinity.fandom.com/ru/wiki/".
Definition FEXTRALIFE : string := "https://divinityoriginalsin2.wiki.fextralife.com/".
Definition SPECIAL_SCHOOL : string := "Особые навыки".
Definition COMBO_SCHOOL : string := "Комбинированные навыки".
Definition COMBO_MARKER : string := "Комбинированный навык".
Definition COMBO_TIER : string := "Комбинированные".
Definition UNKNOWN_TIER : string := "Неизвестно".

Definition SCHOOL_NAME_MAP : list (string * string) := [
  ("Aerotheurge", "Аэротеургия");
  ("Warfare", "Военное дело");
  ("Geomancer", "Геомантия");
  ("Hydrosophist", "Гидрософистика");
  ("Scoundrel", "Искусство убийства");
  ("Huntsman", "Мастерство охоты");
  ("Necromancer", "Некромантия");
  ("Pyrokinetic", "Пирокинетика");
  ("Polymorph", "Превращение");
  ("Summoning", "Призывание")
].

(** [{v: k for k, v in SCHOOL_NAME_MAP.items()}], in insertion order. *)
Definition RU_TO_EN_SCHOOL : list (string * string) :=
  (λ kv, (kv.2, kv.1)) <$> SCHOOL_NAME_MAP.

(** [len(s)] of a Python [str] held as UTF-8: the bytes that do not
    continue a code point. *)
Definition is_continuation (a : ascii) : bool :=
  match a with
  | Ascii _ _ _ _ _ _ b6 b7 => b7 && negb b6
  end.

Fixpoint py_len (s : string) : nat :=
  match s with
  | EmptyString => 0
  | String a rest => (if is_continuation a then 0 else 1) + py_len rest
  end.

(** [needle in hay] on strings. *)
Fixpoint is_substring (needle hay : string) : bool :=
  String.prefix needle hay ||
  match hay with
  | EmptyString => false
  | String _ rest => is_substring needle rest
  end.

(** Truthiness of a [str]. *)
Definition nonempty (s : string) : bool := negb (String.eqb s "").

(** Rows of a skill table, as the selectors of lines 93-119 see them. *)
Inductive row : Type :=
  | TierRow (text : string)
      (* a [th] with [colspan]; [text] is its stripped text *)
  | SkillRow (text href : string) (page_en : option string)
      (* a name link was found; [page_en] is what fetching the skill page
         and [extract_english_name] give when the page is asked for *)
  | OtherRow.
      (* fewer than two cells, or no name link *)

Section WithEnv.
Context `{Env}.

(** Lines 132-146: the canonical identifier of a skill. *)
Definition resolve_en_name (ru_name : string) (page_en : option string)
    : string :=
  let en_name := default "" (EXISTING_MAPPINGS !! ru_name) in
  let en_name := if nonempty en_name then en_name else default "" page_en in
  if nonempty en_name then en_name else ru_name.

(** Lines 149 and 305. *)
Definition fextralife_url (en_name ru_name : string) : string :=
  if decide (en_name ≠ ru_name) then FEXTRALIFE +:+ quote en_name else "".

(** The dict literal of lines 151-158. *)
Definition listing_record (ru_name ru_url en_name en_url tier school : string)
    : spell :=
  <["ru_name" := JStr ru_name]> (
  <["ru_url" := JStr ru_url]> (
  <["en_name" := JStr en_name]> (
  <["en_url" := JStr en_url]> (
  <["tier" := JStr tier]> (
  <["primary_school" := JStr school]> ∅))))).

(** Lines 92-159: one iteration of the loop over the rows; the state is
    [spells] and [current_tier]. *)
Definition parse_row (default_school : string)
    (st : gmap string spell * string) (r : row) : gmap string spell * string :=
  match r with
  | TierRow text =>
      if nonempty text && bool_decide (3 < py_len text)
      then (st.1, text) else st
  | OtherRow => st
  | SkillRow text href page_en =>
      let ru_name := listing_name text in
      if negb (nonempty ru_name) || bool_decide (py_len ru_name < 2) then st
      else
        let ru_url := urljoin BASE_URL href in
        let en_name := resolve_en_name ru_name page_en in
        let en_url := fextralife_url en_name ru_name in
        (<[en_name := listing_record ru_name ru_url en_name en_url
                        st.2 default_school]> st.1,
         st.2)
  end.

Definition parse_skill_table (table : list row) (default_school : string)
    : gmap string spell :=
  (foldl (parse_row default_school) (∅, UNKNOWN_TIER) table).1.

(** Lines 208-215: the tables of one page, each merged with
    [dict.update]. *)
Definition parse_tables (tables : list (list row)) (school : string)
    : gmap string spell :=
  foldl (λ acc table, parse_skill_table table school ∪ acc) ∅ tables.

(** A link of the navigation box with the page behind it ([None] when
    [get_soup] fails). *)
Record school_link : Type := SchoolLink {
  link_text : string;
  link_href : string;
  school_page : option (list (list row))
}.

(** Lines 179-186. *)
Definition find_school (ru_school_name : string) : option string :=
  if bool_decide (ru_school_name ∈ RU_TO_EN_SCHOOL.*1)
  then Some ru_school_name
  else find (λ ru, is_substring ru ru_school_name) (RU_TO_EN_SCHOOL.*1).

(** [RU_TO_EN_SCHOOL[target_school]]. *)
Definition en_school_name (target_school : string) : string :=
  default "" (snd <$> find (λ kv, String.eqb kv.1 target_school) RU_TO_EN_SCHOOL).

(** Lines 175-217: one iteration of the loop over the links; the state is
    [schools] and [processed_urls]. *)
Definition scrape_link (st : gmap string school_data * gset string)
    (l : school_link) : gmap string school_data * gset string :=
  match find_school (link_text l) with
  | None => st
  | Some target_school =>
      let school_url := urljoin BASE_URL (link_href l) in
      if decide (school_url ∈ st.2) then st
      else
        (<[target_school :=
             {| sd_attrs := <["ru_url" := JStr school_url]> (
                            <["en_name" := JStr (en_school_name target_school)]> ∅);
                sd_spells := match school_page l with
                             | Some tables => parse_tables tables target_school
                             | None => ∅
                             end |}]> st.1,
         {[school_url]} ∪ st.2)
  end.

(** [scrape_schools]; the argument is the list of links of the main page,
    [None] when the page cannot be fetched. *)
Definition scrape_schools (main_page : option (list school_link))
    : gmap string school_data :=
  match main_page with
  | None => ∅
  | Some links => (foldl scrape_link (∅, ∅) links).1
  end.

(** [scrape_special_skills]. *)
Definition scrape_special_skills (special_page : option (list (list row)))
    : gmap string school_data :=
  match special_page with
  | None => ∅
  | Some tables =>
      {[ SPECIAL_SCHOOL :=
           {| sd_attrs := {[ "en_name" := JStr "Special" ]};
              sd_spells := parse_tables tables SPECIAL_SCHOOL |} ]}
  end.

(** Rows of a recipe table (lines 255-284). *)
Inductive combo_row : Type :=
  | ComboSkill (text href : string) (page_en : option string)
      (school1 school2 : string)
  | ComboOther.
      (* fewer than three cells, or no anchor in the first one *)

Record combo_table : Type := ComboTable {
  table_text : string;            (* [table.get_text()] *)
  combo_rows : list combo_row
}.

(** Lines 287-288. *)
Definition clean_school (school : string) : string :=
  default school (find (λ k, is_substring k school) (RU_TO_EN_SCHOOL.*1)).

(** The dict literal of lines 307-316. *)
Definition combo_record (ru_name ru_url en_name en_url s1 s2 : string) : spell :=
  <["ru_name" := JStr ru_name]> (
  <["ru_url" := JStr ru_url]> (
  <["en_name" := JStr en_name]> (
  <["en_url" := JStr en_url]> (
  <["tier" := JStr COMBO_TIER]> (
  <["primary_school" := JStr s1]> (
  <["secondary_school" := JStr s2]> (
  <["is_combo" := JBool true]> ∅))))))).

(** Lines 255-322: one iteration over the rows of a recipe table. *)
Definition parse_combo_row (all_spells : gmap string spell) (r : combo_row)
    : gmap string spell :=
  match r with
  | ComboOther => all_spells
  | ComboSkill text href page_en school1 school2 =>
      let ru_name := combo_name text in
      let ru_url := urljoin BASE_URL href in
      let en_name := resolve_en_name ru_name page_en in
      let en_url := fextralife_url en_name ru_name in
      <[en_name := combo_record ru_name ru_url en_name en_url
                     (clean_school school1) (clean_school school2)]> all_spells
  end.

(** Lines 248-325: one iteration over the tables of the recipe page. *)
Definition parse_combo_table (all_spells : gmap string spell) (t : combo_table)
    : gmap string spell :=
  if is_substring COMBO_MARKER (table_text t)
  then foldl parse_combo_row all_spells (combo_rows t)
  else all_spells.

(** [scrape_combo_skills]: the ["spells"] of the single entry of the dict
    it returns, [None] for the empty dict returned when the page cannot be
    fetched. *)
Definition scrape_combo_skills (combo_page : option (list combo_table))
    : option (gmap string spell) :=
  foldl parse_combo_table ∅ <$> combo_page.

(** Lines 354-360: the schools, the orphan bucket excepted, that list
    [name]. *)
Definition spell_lookup (ss : gmap string school_data) (name : string)
    : gset string :=
  dom (filter (λ kv, kv.1 ≠ COMBO_SCHOOL ∧ is_Some (sd_spells kv.2 !! name)) ss).

(** Lines 381-386: the update of an entry that already exists.  Every
    record of the recipe pass has the key ["secondary_school"]. *)
Definition merge_entry (spell_data current_entry : spell) : spell :=
  let e := <["secondary_school" := py_get spell_data "secondary_school"]> (
           <["is_combo" := JBool true]> current_entry) in
  if negb (truthy (py_get e "en_url")) && truthy (py_get spell_data "en_url")
  then <["en_url" := py_get spell_data "en_url"]> e
  else e.

(** [data["schools"][school]["spells"][name] = spell_data]. *)
Definition add_spell (school name : string) (spell_data : spell)
    (ss : gmap string school_data) : gmap string school_data :=
  alter (λ sd, {| sd_attrs := sd_attrs sd;
                  sd_spells := <[name := spell_data]> (sd_spells sd) |})
        school ss.

(** Lines 371-397: one iteration of the merge loop.  [lookup] is
    [spell_lookup], built before the loop; the iterations for the schools of
    [found_schools] touch one entry each. *)
Definition merge_combo (lookup : string → gset string)
    (name : string) (spell_data : spell)
    (ss : gmap string school_data) : gmap string school_data :=
  let found_schools := lookup name in
  if decide (found_schools ≠ ∅) then
    map_imap (λ school_key sd,
      Some (if decide (school_key ∈ found_schools)
            then {| sd_attrs := sd_attrs sd;
                    sd_spells := alter (merge_entry spell_data) name (sd_spells sd) |}
            else sd)) ss
  else
    match py_get spell_data "primary_school" with
    | JStr primary =>
        if nonempty primary && bool_decide (is_Some (ss !! primary))
        then add_spell primary name spell_data ss
        else
          add_spell COMBO_SCHOOL name spell_data
            (if decide (is_Some (ss !! COMBO_SCHOOL)) then ss
             else <[COMBO_SCHOOL :=
                      {| sd_attrs := {[ "en_name" := JStr "Crafted" ]};
                         sd_spells := ∅ |}]> ss)
    | _ =>
        add_spell COMBO_SCHOOL name spell_data
          (if decide (is_Some (ss !! COMBO_SCHOOL)) then ss
           else <[COMBO_SCHOOL :=
                    {| sd_attrs := {[ "en_name" := JStr "Crafted" ]};
                       sd_spells := ∅ |}]> ss)
    end.

(** What the three fetches of a run return. *)
Record pages : Type := Pages {
  main_page : option (list school_link);
  special_page : option (list (list row));
  combo_page : option (list combo_table)
}.

(** Lines 347-350: [data["schools"]] after the two listing passes. *)
Definition listing_schools (w : pages) : gmap string school_data :=
  scrape_special_skills (special_page w) ∪ scrape_schools (main_page w).

(** Lines 363-397: the merge of the recipe pass. *)
Definition merge_combo_pass (ss : gmap string school_data)
    (combo_spells : gmap string spell) : gmap string school_data :=
  map_fold (merge_combo (spell_lookup ss)) ss combo_spells.

(** Line 12. *)
Definition MAIN_SKILLS_URL : string :=
  urljoin BASE_URL
    "%D0%9D%D0%B0%D0%B2%D1%8B%D0%BA%D0%B8_%D0%B2_Original_Sin_2".

(** [main]: the catalog written to [data/spells.json]. *)
Definition main (w : pages) : catalog :=
  let ss := listing_schools w in
  {| meta := <["source" := JStr MAIN_SKILLS_URL]> (
             <["note" := JStr "Automatically scraped from Divinity Fandom Wiki (ru)"]> ∅);
     schools := match scrape_combo_skills (combo_page w) with
                | Some combo_spells => merge_combo_pass ss combo_spells
                | None => ss
                end |}.

End WithEnv.

End Scrape.

(** ** [scripts/batch_fetch_infoboxes.py] *)

Module BatchFetch.

Definition BASE_URL : string := "https://divinityoriginalsin2.wiki.fextralife.com/".
Definition SUFFIX : string := " (Original Sin 2)".
Definition PREFER_RU : list string := ["Каннибализм"].

(** What [fetch_infobox] finds at a URL. *)
Inductive infobox_page : Type :=
  | RequestFailed                 (* [requests.RequestException] *)
  | NoInfobox                     (* no selector matches *)
  | Infobox (final_url infobox_html : string) (icon : option string).

(** What [fetch_ru_icon] finds at a URL. *)
Inductive ru_page : Type :=
  | RuRequestFailed
  | RuPage (icon : option string).  (* [extract_fandom_icon] *)

(** Library functions and the two wikis. *)
Class Web : Type := {
  (** [urllib.parse.urljoin] *)
  urljoin : string → string → string;
  (** [urllib.parse.quote_plus] *)
  quote_plus : string → string;
  (** [s.lstrip("/")] *)
  lstrip_slash : string → string;
  (** [urlparse(url).path.split('/')[-1]] *)
  last_segment : string → string;
  fextralife : string → infobox_page;
  fandom : string → ru_page
}.

(** One element of the list built by [load_spells]. *)
Record spell_ref : Type := SpellRef {
  name : string;
  en_url : jval;
  ru_url : jval
}.

(** The dict built for one spell (lines 140-144 and 225). *)
Record infobox : Type := InfoboxResult {
  url : string;
  infobox_html : string;
  icon : option string
}.

(** What the script prints. *)
Inductive line : Type :=
  | MissingFile
  | Found (count : nat) (school : option string)
  | Progress (i total : nat) (clean_name : string)
  | ErrorFetching (at_url : string)
  | NoInfoboxFound (at_url : string)
  | RuIcon (page : string)
  | ErrorRuIcon (at_url : string)
  | Ok (spell_name : string) (has_icon has_infobox : bool)
  | Failed (spell_name : string)
  | DoneSaved (count : nat)
  | Errors (count : nat).

#[global] Instance infobox_eq_dec : EqDecision infobox.
Proof. solve_decision. Defined.

#[global] Instance fetch_line_eq_dec : EqDecision line.
Proof. solve_decision. Defined.

(** [name.endswith(suffix)]. *)
Definition ends_with (suffix s : string) : bool :=
  bool_decide (String.length suffix ≤ String.length s) &&
  String.eqb
    (substring (String.length s - String.length suffix) (String.length suffix) s)
    suffix.

Definition clean_spell_name (name : string) : string :=
  if ends_with SUFFIX name
  then substring 0 (String.length name - String.length SUFFIX) name
  else name.

(** Truthiness of a [str | None]. *)
Definition some_nonempty (o : option string) : bool :=
  match o with
  | Some s => negb (String.eqb s "")
  | None => false
  end.

(** [load_spells]: every spell of the schools selected by the filter.  The
    catalog script writes records, so [isinstance(spell_data, dict)] holds.
    The list follows the keys of the catalog, the script the order of the
    file: the two differ in the order of the iterations only. *)
Definition load_spells (data : catalog) (target_school : option string)
    : list spell_ref :=
  '(school_name, school) ← map_to_list (schools data);
  if some_nonempty target_school && bool_decide (Some school_name ≠ target_school)
  then []
  else
    '(spell_name, spell_data) ← map_to_list (sd_spells school);
    [ {| name := spell_name;
         en_url := py_get spell_data "en_url";
         ru_url := py_get spell_data "ru_url" |} ].

(** [save_infoboxes]: the content of [infoboxes.json] after the call;
    [existing] is what the file held, [None] when it is absent or corrupt. *)
Definition save_infoboxes (existing : option (gmap string infobox))
    (new_data : gmap string infobox) : gmap string infobox :=
  new_data ∪ default ∅ existing.

Section WithWeb.
Context `{Web}.

(** [build_url]; [None] is the [AttributeError] of [startswith] on a truthy
    value that is not a string. *)
Definition build_url (spell_name : string) (en_url : jval) : option string :=
  if truthy en_url then
    match en_url with
    | JStr u =>
        if String.prefix "http://" u || String.prefix "https://" u
        then Some u
        else Some (urljoin BASE_URL (lstrip_slash u))
    | _ => None
    end
  else Some (urljoin BASE_URL (quote_plus spell_name)).

(** [fetch_infobox], with what it prints. *)
Definition fetch_infobox (at_url : string) : option infobox * list line :=
  match fextralife at_url with
  | RequestFailed => (None, [ErrorFetching at_url])
  | NoInfobox => (None, [NoInfoboxFound at_url])
  | Infobox final_url html icon_src =>
      (Some {| url := final_url; infobox_html := html; icon := icon_src |}, [])
  end.

(** [fetch_ru_icon], with what it prints. *)
Definition fetch_ru_icon (at_url : string) : option string * list line :=
  match fandom at_url with
  | RuRequestFailed =>
      (None, [RuIcon (last_segment at_url); ErrorRuIcon at_url])
  | RuPage icon_src => (icon_src, [RuIcon (last_segment at_url)])
  end.

(** The state of the loop of lines 212-244. *)
Record progress : Type := ProgressState {
  results : gmap string infobox;
  errors : nat;
  printed : list line
}.

(** Lines 229-235: the icon of the Russian wiki.  [None] is the exception
    raised by [urlparse] on a truthy value that is not a string. *)
Definition with_ru_icon (spell_name : string) (ru_url : jval) (result : infobox)
    : option (infobox * list line) :=
  if truthy ru_url then
    match ru_url with
    | JStr u =>
        let '(ru_icon, out) := fetch_ru_icon u in
        if some_nonempty ru_icon &&
           (bool_decide (spell_name ∈ PREFER_RU) || negb (some_nonempty (icon result)))
        then Some ({| url := url result;
                      infobox_html := infobox_html result;
                      icon := ru_icon |}, out)
        else Some (result, out)
    | _ => None
    end
  else Some (result, []).

(** Lines 213-242: one iteration; [i] and [total] are the counters of the
    progress line. *)
Definition process_spell (total : nat) (i : nat) (sp : spell_ref)
    (st : progress) : option progress :=
  at_url ← build_url (clean_spell_name (name sp)) (en_url sp);
  let '(fetched, out1) := fetch_infobox at_url in
  let result := default {| url := at_url; infobox_html := ""; icon := None |}
                        fetched in
  '(result, out2) ← with_ru_icon (name sp) (ru_url sp) result;
  let out := printed st ++ [Progress i total (clean_spell_name (name sp))]
                        ++ out1 ++ out2 in
  if negb (String.eqb (infobox_html result) "") || some_nonempty (icon result)
  then Some {| results := <[name sp := result]> (results st);
               errors := errors st;
               printed := out ++ [Ok (name sp) (some_nonempty (icon result))
                                    (negb (String.eqb (infobox_html result) ""))] |}
  else Some {| results := results st;
               errors := S (errors st);
               printed := out ++ [Failed (name sp)] |}.

(** The loop of line 212, [enumerate(spells, 1)]. *)
Fixpoint process_all (total : nat) (i : nat) (spells : list spell_ref)
    (st : progress) : option progress :=
  match spells with
  | [] => Some st
  | sp :: rest =>
      st' ← process_spell total i sp st;
      process_all total (S i) rest st'
  end.

(** How a run of [main] ends. *)
Inductive outcome : Type :=
  | NoCatalog                                    (* lines 198-200 *)
  | Crash                                        (* an exception escaped *)
  | Completed (saved : gmap string infobox) (st : progress).

#[global] Instance progress_eq_dec : EqDecision progress.
Proof. solve_decision. Defined.

#[global] Instance fetch_outcome_eq_dec : EqDecision outcome.
Proof. solve_decision. Defined.

(** [main]: [file] is the content of [spells.json] if it exists, [argv1]
    the optional school filter, [existing] the content of
    [infoboxes.json]; a file that [json.load] rejects is the case
    [NotJson] of [run]. *)
Definition main (file : option catalog) (argv1 : option string)
    (existing : option (gmap string infobox)) : outcome :=
  match file with
  | None => NoCatalog
  | Some data =>
      let spells := load_spells data argv1 in
      let st0 := {| results := ∅; errors := 0;
                    printed := [Found (length spells)
                                  (if some_nonempty argv1 then argv1 else None)] |} in
      match process_all (length spells) 1 spells st0 with
      | None => Crash
      | Some st =>
          Completed (save_infoboxes existing (results st))
            {| results := results st;
               errors := errors st;
               printed := printed st ++ [DoneSaved (size (results st));
                                         Errors (errors st)] |}
      end
  end.

(** The script on what it finds at the path of [spells.json]: line 198
    tests that the file exists, and line 163 raises when it is not JSON. *)
Definition run (f : spells_file) (argv1 : option string)
    (existing : option (gmap string infobox)) : outcome :=
  match f with
  | Absent => main None argv1 existing
  | NotJson => Crash
  | Holds data => main (Some data) argv1 existing
  end.

(** The value passed to [sys.exit]: the return value of [main], or the
    status 1 of an uncaught exception. *)
Definition exit_code (o : outcome) : Z :=
  match o with
  | NoCatalog => 1
  | Crash => 1
  | Completed _ st => if decide (errors st = 0) then 0 else 2
  end.

(** A record failed when neither wiki gave an infobox or an icon for it. *)
Definition failed (o : outcome) : nat :=
  match o with
  | Completed _ st => errors st
  | _ => 0
  end.

End WithWeb.

End BatchFetch.

(** ** Derived notions and sample inputs *)

(** The keys of the ["spells"] object of every school. *)
Definition membership (ss : gmap string school_data) : gmap string (gset string) :=
  (λ sd, dom (sd_spells sd)) <$> ss.

(** Modelled from the spec: the pair table carries no flag for the
    "elemental" member of a pair; the elemental schools are taken to be the
    four that head the sections of [DUAL_MAP] (Aerotheurge, Geomancer,
    Hydrosophist, Pyrokinetic). *)
Definition ELEMENTAL : list string :=
  [ApplyCombo.AERO; ApplyCombo.GEO; ApplyCombo.HYDRO; ApplyCombo.PYRO].

Module Samples.

Import ApplyCombo.

(** A stored record of "Corpse Explosion" with the given primary school
    and, when given, secondary school and combo flag. *)
Definition corpse_explosion (primary : string) (secondary : option string)
    (combo : option bool) : spell :=
  let sp : spell := <["en_name" := JStr "Corpse Explosion"]> (
                    <["tier" := JStr "Adept"]> (
                    <["primary_school" := JStr primary]> ∅)) in
  let sp : spell := match secondary with
                    | Some s => <["secondary_school" := JStr s]> sp
                    | None => sp
                    end in
  match combo with
  | Some c => <["is_combo" := JBool c]> sp
  | None => sp
  end.

(** A catalog with one school holding one spell. *)
Definition single (school key : string) (sp : spell) : catalog :=
  {| meta := ∅;
     schools := {[ school := {| sd_attrs := {[ "en_name" := JStr "Pyrokinetic" ]};
                                sd_spells := {[ key := sp ]} |} ]} |}.

Definition empty_catalog : catalog := {| meta := ∅; schools := ∅ |}.

End Samples.

(** [data["schools"][s]["spells"][k]], when both keys are there. *)
Definition entry (ss : gmap string school_data) (s k : string) : option spell :=
  ss !! s ≫= λ sd, sd_spells sd !! k.

(** The school that receives a record of the recipe pass whose name is in
    no school (lines 389-397): its primary school when the listing passes
    have a school of that name, the orphan bucket otherwise. *)
Definition combo_target (ss : gmap string school_data) (spell_data : spell)
    : string :=
  match py_get spell_data "primary_school" with
  | JStr primary =>
      if Scrape.nonempty primary && bool_decide (is_Some (ss !! primary))
      then primary else Scrape.COMBO_SCHOOL
  | _ => Scrape.COMBO_SCHOOL
  end.

(** What the merge of the recipe pass leaves at [s], [k]: a record of the
    listing passes is merged with the recipe record of its name, if there
    is one; a recipe record whose name no school lists is stored once, in
    its target school. *)
Definition merged_entry (ss : gmap string school_data)
    (combo_spells : gmap string spell) (s k : string) : option spell :=
  match entry ss s k with
  | Some sp =>
      Some (match combo_spells !! k with
            | Some spell_data => Scrape.merge_entry spell_data sp
            | None => sp
            end)
  | None =>
      match combo_spells !! k with
      | Some spell_data =>
          if decide (Scrape.spell_lookup ss k = ∅ ∧ s = combo_target ss spell_data)
          then Some spell_data else None
      | None => None
      end
  end.

Module ScrapeSamples.

Import Scrape.

(** [quote] on the names used below: a space becomes [%20]. *)
Fixpoint quote_spaces (s : string) : string :=
  match s with
  | EmptyString => EmptyString
  | String a rest =>
      if Ascii.eqb a " "%char then "%20" +:+ quote_spaces rest
      else String a (quote_spaces rest)
  end.

(** Stand-ins for the library functions on the sample pages: relative
    links are joined to the host, and the names used below contain nothing
    that the name clean-up removes. *)
Definition sample_env : Env := {|
  urljoin base href :=
    if String.prefix "/" href then "https://divinity.fandom.com" +:+ href
    else base +:+ href;
  quote := quote_spaces;
  listing_name s := s;
  combo_name s := s;
  EXISTING_MAPPINGS := ∅
|}.

Definition PYRO : string := "Пирокинетика".
Definition AERO : string := "Аэротеургия".
Definition NECRO : string := "Некромантия".

(** Two rows of a school page that resolve to the same identifier. *)
Definition fireball_row : row :=
  SkillRow "Огненный шар" "/ru/wiki/Огненный_шар" (Some "Fireball").
Definition fire_orb_row : row :=
  SkillRow "Шар огня" "/ru/wiki/Шар_огня" (Some "Fireball").
Definition haste_row : row :=
  SkillRow "Спешка" "/ru/wiki/Спешка" (Some "Haste").

(** A run whose main page links one school with the given tables, and
    whose other two pages are as given. *)
Definition one_school (school href : string) (tables : list (list row))
    (special : option (list (list row))) (combo : option (list combo_table))
    : pages :=
  {| main_page := Some [ {| link_text := school; link_href := href;
                            school_page := Some tables |} ];
     special_page := special;
     combo_page := combo |}.

(** The pages of two schools both list "Fireball". *)
Definition two_schools_same_skill : pages :=
  {| main_page := Some [
       {| link_text := PYRO; link_href := "/ru/wiki/Пирокинетика";
          school_page := Some [[TierRow "Новичок"; fireball_row]] |};
       {| link_text := AERO; link_href := "/ru/wiki/Аэротеургия";
          school_page := Some [[TierRow "Новичок"; fireball_row]] |} ];
     special_page := None;
     combo_page := None |}.

(** One school page with "Fireball" under two tier headings, in two
    tables. *)
Definition novice_table : list row := [TierRow "Новичок"; fireball_row].
Definition master_table : list row := [TierRow "Мастер"; fire_orb_row].

(** The recipe page with one recipe, for a skill the school pages do not
    list. *)
Definition corpse_explosion_recipe : list combo_table :=
  [ {| table_text := "Комбинированный навык Школа 1 Школа 2";
       combo_rows := [ComboSkill "Взрыв трупа" "/ru/wiki/Взрыв_трупа"
                        (Some "Corpse Explosion") PYRO NECRO] |} ].

(** The recipe page with a recipe for "Fireball". *)
Definition fireball_recipe : list combo_table :=
  [ {| table_text := "Комбинированный навык Школа 1 Школа 2";
       combo_rows := [ComboSkill "Огненный шар" "/ru/wiki/Огненный_шар"
                        (Some "Fireball") PYRO AERO] |} ].

(** Scenario 4 of the specification: the general listing has "Fireball"
    without an English page (so without [en_url]), the special listing has
    it with one. *)
Definition listing_without_url : pages :=
  one_school PYRO "/ru/wiki/Пирокинетика"
    [[SkillRow "Fireball" "/ru/wiki/Fireball" None]]
    (Some [[fireball_row]]) None.

(** The general listing has "Fireball" without an English page, the recipe
    page has a recipe for it with one. *)
Definition recipe_for_listed_skill : pages :=
  one_school PYRO "/ru/wiki/Пирокинетика"
    [[TierRow "Новичок"; SkillRow "Fireball" "/ru/wiki/Fireball" None]]
    None (Some fireball_recipe).

(** The record of "Fireball" that the general listing stores for
    [recipe_for_listed_skill]. *)
Definition listed_fireball : spell :=
  listing_record "Fireball" "https://divinity.fandom.com/ru/wiki/Fireball"
    "Fireball" "" "Новичок" PYRO.

(** The record of the recipe of [fireball_recipe]. *)
Definition recipe_fireball : spell :=
  combo_record "Огненный шар"
    "https://divinity.fandom.com/ru/wiki/Огненный_шар" "Fireball"
    "https://divinityoriginalsin2.wiki.fextralife.com/Fireball" PYRO AERO.

End ScrapeSamples.

(** A decidable form of [unique_membership]. *)
Definition unique_membership_check (ss : gmap string school_data) : bool :=
  bool_decide (map_Forall (λ s1 sd1,
    map_Forall (λ s2 sd2,
      s1 = s2 ∨
      (dom (sd_spells sd1) : gset string) ## (dom (sd_spells sd2) : gset string))
      ss) ss).

(** ** The records of a pass *)

Section PassRecords.
Import Scrape.
Context `{Env}.

(** The assignments [d[k] = v] of a list of pairs, in order. *)
Definition assign_all (d : gmap string spell) (records : list (string * spell))
    : gmap string spell :=
  foldl (λ d kv, <[kv.1 := kv.2]> d) d records.

(** The assignments [spells[en_name] = {...}] that [parse_skill_table]
    executes on the rows of a table, in order; [current_tier] is the tier
    heading in force at the first row. *)
Fixpoint table_records (default_school current_tier : string)
    (table : list row) : list (string * spell) :=
  match table with
  | [] => []
  | TierRow text :: rest =>
      table_records default_school
        (if nonempty text && bool_decide (3 < py_len text)
         then text else current_tier) rest
  | OtherRow :: rest => table_records default_school current_tier rest
  | SkillRow text href page_en :: rest =>
      let ru_name := listing_name text in
      if negb (nonempty ru_name) || bool_decide (py_len ru_name < 2)
      then table_records default_school current_tier rest
      else
        let en_name := resolve_en_name ru_name page_en in
        (en_name,
         listing_record ru_name (urljoin BASE_URL href) en_name
           (fextralife_url en_name ru_name) current_tier default_school)
        :: table_records default_school current_tier rest
  end.

(** The records of the tables of a listing page, in order. *)
Definition page_records (tables : list (list row)) (school : string)
    : list (string * spell) :=
  table ← tables; table_records school UNKNOWN_TIER table.

(** The assignment [all_spells[en_name] = {...}] of a row of a recipe
    table, if the row makes one. *)
Definition combo_row_records (r : combo_row) : list (string * spell) :=
  match r with
  | ComboOther => []
  | ComboSkill text href page_en school1 school2 =>
      let ru_name := combo_name text in
      let en_name := resolve_en_name ru_name page_en in
      [(en_name,
        combo_record ru_name (urljoin BASE_URL href) en_name
          (fextralife_url en_name ru_name)
          (clean_school school1) (clean_school school2))]
  end.

(** The records of the recipe page, in order. *)
Definition combo_page_records (tables : list combo_table)
    : list (string * spell) :=
  t ← tables;
  if is_substring COMBO_MARKER (table_text t)
  then r ← combo_rows t; combo_row_records r
  else [].

(** Two sequences of records with pairwise different identifiers that
    differ in order only. *)
Definition reordered (records records' : list (string * spell)) : Prop :=
  NoDup records.*1 ∧ records ≡ₚ records'.

End PassRecords.

(** Two sequences of records that are the same, or differ in order only
    and have pairwise different identifiers. *)
Definition same_records (records records' : list (string * spell)) : Prop :=
  records = records' ∨ reordered records records'.

(** Two listing pages, both fetched or both not, of two runs, with
    [same_records]; each run resolves the names of its page with the
    identifiers that it loaded. *)
Definition same_page_records (env env' : Scrape.Env)
    (p p' : option (list (list Scrape.row))) : Prop :=
  option_Forall2
    (λ tables tables',
       ∀ school, same_records (@page_records env tables school)
                              (@page_records env' tables' school)) p p'.

(** Two runs whose passes yield the same records: the same school links in
    the same order, and behind each link, on the special page and on the
    recipe page [same_records]. *)
Record same_passes (env env' : Scrape.Env) (w w' : Scrape.pages) : Prop :=
  SamePasses {
  same_general :
    option_Forall2
      (Forall2 (λ l l', Scrape.link_text l = Scrape.link_text l' ∧
                        Scrape.link_href l = Scrape.link_href l' ∧
                        same_page_records env env' (Scrape.school_page l)
                                          (Scrape.school_page l')))
      (Scrape.main_page w) (Scrape.main_page w');
  same_special :
    same_page_records env env' (Scrape.special_page w) (Scrape.special_page w');
  same_combo :
    option_Forall2
      (λ tables tables',
         same_records (@combo_page_records env tables)
                      (@combo_page_records env' tables'))
      (Scrape.combo_page w) (Scrape.combo_page w')
}.

(** ** The records of a batch fetch *)

Section FetchRecords.
Import BatchFetch.
Context `{Web}.

(** The dict that an iteration of the loop of [main] builds for a spell
    before it tests it (lines 213-235), with what the two fetches print;
    [None] when the iteration raises. *)
Definition record_outcome (sp : spell_ref) : option (infobox * list line) :=
  at_url ← build_url (clean_spell_name (name sp)) (en_url sp);
  let '(fetched, out1) := fetch_infobox at_url in
  '(result, out2) ← with_ru_icon (name sp) (ru_url sp)
                      (default {| url := at_url; infobox_html := ""; icon := None |}
                               fetched);
  Some (result, out1 ++ out2).

(** The test of line 237. *)
Definition has_data (result : infobox) : bool :=
  negb (String.eqb (infobox_html result) "") || some_nonempty (icon result).


(** A record fails when its iteration ends in the branch of line 241:
    neither wiki gave an infobox or an icon. *)
Definition record_failed (sp : spell_ref) : Prop :=
  ∃ result out, record_outcome sp = Some (result, out) ∧ has_data result = false.

#[global] Instance record_failed_dec sp : Decision (record_failed sp).
Proof.
  unfold record_failed. destruct (record_outcome sp) as [[result out]|].
  - destruct (has_data result) eqn:Hdata.
    + right. intros (r & o & [= <- <-] & Hr). congruence.
    + left. by exists result, out.
  - right. by intros (r & o & ? & _).
Defined.

(** What a run has printed when it ends. *)
Definition fetch_log (o : outcome) : list line :=
  match o with
  | NoCatalog => [MissingFile]
  | Crash => []
  | Completed _ st => printed st
  end.

End FetchRecords.

Module FetchSamples.

Import BatchFetch.

(** The text after the last slash, which is the last segment of the path
    of the URLs used below. *)
Fixpoint after_last_slash (segment s : string) : string :=
  match s with
  | EmptyString => segment
  | String c rest =>
      if Ascii.eqb c "/"%char then after_last_slash "" rest
      else after_last_slash (segment +:+ String c "") rest
  end.

(** The English wiki is down and the Russian wiki has an icon. *)
Definition english_wiki_down : Web := {|
  urljoin base href := base +:+ href;
  quote_plus s := s;
  lstrip_slash s := s;
  last_segment := after_last_slash "";
  fextralife _ := RequestFailed;
  fandom _ := RuPage (Some "https://static.wikia.nocookie.net/fireball.png")
|}.

(** Both wikis are down. *)
Definition both_wikis_down : Web := {|
  urljoin base href := base +:+ href;
  quote_plus s := s;
  lstrip_slash s := s;
  last_segment := after_last_slash "";
  fextralife _ := RequestFailed;
  fandom _ := RuRequestFailed
|}.

(** A catalog with the record of "Fireball" that the scraper stores. *)
Definition fireball_catalog : catalog :=
  {| meta := ∅;
     schools := {[ "Пирокинетика" :=
       {| sd_attrs := {[ "en_name" := JStr "Pyrokinetic" ]};
          sd_spells := {[ "Fireball" :=
            Scrape.listing_record "Огненный шар"
              "https://divinity.fandom.com/ru/wiki/Огненный_шар" "Fireball"
              "https://divinityoriginalsin2.wiki.fextralife.com/Fireball"
              "Новичок" "Пирокинетика" ]} |} ]} |}.

End FetchSamples.

(** ** Further sample inputs *)

Module MoreSamples.

Import Scrape ScrapeSamples.

(** The record of [listed_fireball] after the merge with
    [recipe_fireball]. *)
Definition merged_fireball : spell :=
  <["en_url" := JStr "https://divinityoriginalsin2.wiki.fextralife.com/Fireball"]>
    (<["secondary_school" := JStr AERO]>
       (<["is_combo" := JBool true]> listed_fireball)).

(** A run whose school page lists "Fireball" and whose recipe page has the
    recipe of "Corpse Explosion". *)
Definition listing_and_new_recipe : pages :=
  one_school PYRO "/ru/wiki/Пирокинетика" [novice_table] None
    (Some corpse_explosion_recipe).

(** The record of the recipe of [corpse_explosion_recipe]. *)
Definition recipe_corpse_explosion : spell :=
  combo_record "Взрыв трупа" "https://divinity.fandom.com/ru/wiki/Взрыв_трупа"
    "Corpse Explosion"
    "https://divinityoriginalsin2.wiki.fextralife.com/Corpse%20Explosion"
    PYRO NECRO.

End MoreSamples.

(** ** The merge loop, in any order *)

(** [merged_in_some_order ss m r]: the merge loop of lines 371-397, started
    on the schools [ss] of the listing passes, reaches [r] after visiting
    the records of [m], each once, in some order. *)
Inductive merged_in_some_order (ss : gmap string school_data)
    : gmap string spell → gmap string school_data → Prop :=
  | merged_none : merged_in_some_order ss ∅ ss
  | merged_next m r name spell_data :
      merged_in_some_order ss m r →
      m !! name = None →
      merged_in_some_order ss (<[name := spell_data]> m)
        (Scrape.merge_combo (Scrape.spell_lookup ss) name spell_data r).

(** The merge loop run over a list of records, first to last. *)
Definition merge_in_order (ss : gmap string school_data)
    (records : list (string * spell)) : gmap string school_data :=
  foldl (λ r kv, Scrape.merge_combo (Scrape.spell_lookup ss) kv.1 kv.2 r)
        ss records.

Module OrderSamples.

Import Scrape ScrapeSamples MoreSamples.

(** The recipe page with the recipes of "Fireball" and of "Corpse
    Explosion". *)
Definition two_recipes : pages :=
  one_school PYRO "/ru/wiki/Пирокинетика"
    [[TierRow "Новичок"; SkillRow "Fireball" "/ru/wiki/Fireball" None]]
    None (Some (fireball_recipe ++ corpse_explosion_recipe)).

End OrderSamples.

(** ** The identifiers of earlier runs *)

Module Mappings.

(** Lines 55-58 of [scrape_all_spells.py]: one record of the existing
    catalog.  A Russian name that is not a string is a key that no lookup
    by a name finds. *)
Definition add_mapping (mapping : gmap string string) (kv : string * spell)
    : gmap string string :=
  match py_get kv.2 "ru_name" with
  | JStr ru_name =>
      if Scrape.nonempty ru_name then <[ru_name := kv.1]> mapping else mapping
  | _ => mapping
  end.

(** [load_existing_mappings]: [file] is the list of the records of
    [spells.json], as the two loops of lines 53-54 visit them; [None] when
    the file is absent or cannot be read. *)
Definition load_existing_mappings (file : option (list (string * spell)))
    : gmap string string :=
  match file with
  | None => ∅
  | Some records => foldl add_mapping ∅ records
  end.

(** The records of a catalog, school by school. *)
Definition catalog_records (data : catalog) : list (string * spell) :=
  '(_, sd) ← map_to_list (schools data); map_to_list (sd_spells sd).

(** [records] lists the records of [data], in any order. *)
Definition visits (data : catalog) (records : list (string * spell)) : Prop :=
  records ⊆ catalog_records data ∧ catalog_records data ⊆ records.

(** No other record of [records] has the Russian name [ru_name]. *)
Definition only_key (records : list (string * spell)) (ru_name en_name : string)
    : Prop :=
  Forall (λ kv, py_get kv.2 "ru_name" = JStr ru_name → kv.1 = en_name) records.

End Mappings.

Module MappingSamples.

Import Scrape ScrapeSamples.

(** The record that a run stores for [fireball_row]. *)
Definition stored_fireball : spell :=
  listing_record "Огненный шар"
    "https://divinity.fandom.com/ru/wiki/Огненный_шар" "Fireball"
    "https://divinityoriginalsin2.wiki.fextralife.com/Fireball" "Новичок" PYRO.

(** The catalog of an earlier run: "Fireball" in its school. *)
Definition earlier_catalog : catalog :=
  {| meta := ∅;
     schools := {[ PYRO :=
       {| sd_attrs := {[ "en_name" := JStr "Pyrokinetic" ]};
          sd_spells := {[ "Fireball" := stored_fireball ]} |} ]} |}.

Definition earlier_records : list (string * spell) :=
  [("Fireball", stored_fireball)].

(** The scraper started with [spells.json] holding [earlier_catalog]. *)
Definition second_run_env : Env := {|
  urljoin := @urljoin sample_env;
  quote := @quote sample_env;
  listing_name := @listing_name sample_env;
  combo_name := @combo_name sample_env;
  EXISTING_MAPPINGS := Mappings.load_existing_mappings (Some earlier_records)
|}.

(** A school page on which the page of "Fireball" gives another English
    name than the earlier catalog. *)
Definition renamed_fireball : pages :=
  one_school PYRO "/ru/wiki/Пирокинетика"
    [[TierRow "Новичок";
      SkillRow "Огненный шар" "/ru/wiki/Огненный_шар" (Some "Fire Ball")]]
    None None.

End MappingSamples.

(** ** [scripts/create_preset.py] *)

Module CreatePreset.

(** The dict [name_map] of lines 31-35. *)
Definition NAME_MAP : gmap string string :=
  list_to_map [
    ("Favourable Winds", "Favourable Wind");
    ("Reactive Armor", "Reactive Armour");
    ("Mass Breathing Bubble", "Mass Breathing Bubbles") ].

Definition is_digit (c : ascii) : bool :=
  (48 <=? nat_of_ascii c) && (nat_of_ascii c <=? 57).
Definition is_upper (c : ascii) : bool :=
  (65 <=? nat_of_ascii c) && (nat_of_ascii c <=? 90).
Definition is_lower (c : ascii) : bool :=
  (97 <=? nat_of_ascii c) && (nat_of_ascii c <=? 122).

(** The class [[a-zA-Z0-9]]. *)
Definition is_alnum (c : ascii) : bool := is_digit c || is_upper c || is_lower c.

Definition underscore : ascii := "_"%char.

(** [str.lower] on an ASCII character. *)
Definition lower_char (c : ascii) : ascii :=
  if is_upper c then ascii_of_nat (nat_of_ascii c + 32) else c.

(** The UTF-8 bytes of U+0130 and of U+212A, the two characters outside
    ASCII whose lower case has an ASCII letter: [i] followed by U+0307,
    and [k]. *)
Definition DOTTED_I : list ascii := ["196"%char; "176"%char].
Definition KELVIN_SIGN : list ascii := ["226"%char; "132"%char; "170"%char].
Definition COMBINING_DOT : list ascii := ["204"%char; "135"%char].

Definition is_dotted_I (c1 c2 : ascii) : bool :=
  Ascii.eqb c1 "196"%char && Ascii.eqb c2 "176"%char.
Definition is_kelvin_sign (c1 c2 c3 : ascii) : bool :=
  Ascii.eqb c1 "226"%char && Ascii.eqb c2 "132"%char && Ascii.eqb c3 "170"%char.

(** [name.lower()] as the substitution of line 39 sees it, on a name given
    by its UTF-8 bytes: the letters A-Z, U+0130 and U+212A change as
    [str.lower] changes them.  Every other character outside ASCII is left
    as it is: what [str.lower] makes of it is outside ASCII again, and the
    substitution replaces the one like the other. *)
Fixpoint lower (s : list ascii) : list ascii :=
  match s with
  | [] => []
  | c1 :: rest =>
      match rest with
      | [] => [lower_char c1]
      | c2 :: rest2 =>
          if is_dotted_I c1 c2
          then "i"%char :: COMBINING_DOT ++ lower rest2
          else
            match rest2 with
            | [] => lower_char c1 :: lower rest
            | c3 :: rest3 =>
                if is_kelvin_sign c1 c2 c3 then "k"%char :: lower rest3
                else lower_char c1 :: lower rest
            end
      end
  end.

(** [re.sub(r'[^a-zA-Z0-9]+', '_', s)]: every maximal run of characters
    outside the class becomes one underscore; [in_run] tells that the
    character before is in the run being replaced. *)
Fixpoint sub_runs (in_run : bool) (s : list ascii) : list ascii :=
  match s with
  | [] => []
  | c :: rest =>
      if is_alnum c then c :: sub_runs false rest
      else if in_run then sub_runs true rest
      else underscore :: sub_runs true rest
  end.

Fixpoint lstrip (s : list ascii) : list ascii :=
  match s with
  | c :: rest => if Ascii.eqb c underscore then lstrip rest else s
  | [] => []
  end.

Fixpoint rstrip (s : list ascii) : list ascii :=
  match s with
  | [] => []
  | c :: rest =>
      match rstrip rest with
      | [] => if Ascii.eqb c underscore then [] else [c]
      | r => c :: r
      end
  end.

(** [s.strip('_')]. *)
Definition strip (s : list ascii) : list ascii := rstrip (lstrip s).

(** [name_to_id] (lines 28-40). *)
Definition name_to_id (name : string) : string :=
  let name := default name (NAME_MAP !! name) in
  string_of_list_ascii
    (strip (sub_runs false (lower (list_ascii_of_string name)))).

(** The characters of an identifier. *)
Definition id_char (c : ascii) : bool :=
  is_lower c || is_digit c || Ascii.eqb c underscore.

(** No two underscores in a row. *)
Definition no_double (s : list ascii) : Prop :=
  ∀ i, s !! i = Some underscore → s !! S i ≠ Some underscore.

(** Words of lower-case letters and digits, with one underscore between
    two words. *)
Definition canonical (s : list ascii) : Prop :=
  Forall (λ c, id_char c = true) s ∧
  head s ≠ Some underscore ∧ last s ≠ Some underscore ∧ no_double s.

(** A tier of [PRESET_DATA] and a tier of the written preset. *)
Record tier : Type := Tier {
  tier_name : string;
  tier_color : string;
  tier_skills : list string
}.

Record out_tier : Type := OutTier {
  out_name : string;
  out_color : string;
  out_items : list string
}.

#[global] Instance out_tier_eq_dec : EqDecision out_tier.
Proof. solve_decision. Defined.

(** [str.lower] on a whole string, a library function: the keys of the
    map of names need all of it, [name_to_id] no more than [lower]. *)
Class Lower : Type := {
  str_lower : string → string
}.

Section WithLower.
Context `{Lower}.

(** Lines 47-52: one record of the catalog; [None] is the
    [AttributeError] of [lower] on an English name that is not a string. *)
Definition add_skill (name_to_id_map : gmap string string)
    (kv : string * spell) : option (gmap string string) :=
  match py_get_default kv.2 "en_name" (JStr kv.1) with
  | JStr en_name =>
      let spell_id := name_to_id en_name in
      Some (<[str_lower en_name := spell_id]>
              (<[en_name := spell_id]> name_to_id_map))
  | _ => None
  end.

(** [build_skill_name_to_id_map]; [records] is the list of the records of
    [spells.json], as the two loops of lines 46-47 visit them. *)
Definition build_skill_name_to_id_map (records : list (string * spell))
    : option (gmap string string) :=
  foldl (λ acc kv, acc ≫= λ m, add_skill m kv) (Some ∅) records.

(** The dict [alt_names] of lines 81-87. *)
Definition ALT_NAMES : gmap string string :=
  list_to_map [
    ("Favourable Winds", "Favourable Wind");
    ("Reactive Armor", "Reactive Armour");
    ("Mass Breathing Bubble", "Mass Breathing Bubbles");
    ("Soulmate", "Soul Mate");
    ("Equalize", "Equalise") ].

(** Truthiness of the result of a [dict.get]. *)
Definition found (skill_id : option string) : bool :=
  match skill_id with
  | Some s => negb (String.eqb s "")
  | None => false
  end.

(** Lines 74-90: the three lookups of a skill name. *)
Definition find_skill (name_to_id_map : gmap string string)
    (skill_name : string) : option string :=
  let skill_id := name_to_id_map !! skill_name in
  let skill_id :=
    if found skill_id then skill_id
    else name_to_id_map !! str_lower skill_name in
  if found skill_id then skill_id
  else if found (ALT_NAMES !! skill_name)
       then name_to_id_map !! default "" (ALT_NAMES !! skill_name)
       else skill_id.

(** Lines 73-97: one skill of a tier; the state is [tier_items] and
    [missing_skills]. *)
Definition convert_skill (name_to_id_map : gmap string string)
    (st : list string * list string) (skill_name : string)
    : list string * list string :=
  let skill_id := find_skill name_to_id_map skill_name in
  if found skill_id then (st.1 ++ [default "" skill_id], st.2)
  else (st.1 ++ [name_to_id skill_name], st.2 ++ [skill_name]).

(** Lines 71-103: one tier; the state is [output_tiers] and
    [missing_skills]. *)
Definition convert_tier (name_to_id_map : gmap string string)
    (st : list out_tier * list string) (t : tier)
    : list out_tier * list string :=
  let '(tier_items, missing_skills) :=
    foldl (convert_skill name_to_id_map) ([], st.2) (tier_skills t) in
  (st.1 ++ [ {| out_name := tier_name t; out_color := tier_color t;
                out_items := tier_items |} ],
   missing_skills).

(** [main]: [file] is the list of the records of [spells.json], [None]
    when it cannot be opened; [preset] is the list of tiers of
    [PRESET_DATA].  The result is the list of tiers of the written preset
    with the skills reported as missing; [None] is an exception. *)
Definition main (file : option (list (string * spell))) (preset : list tier)
    : option (list out_tier * list string) :=
  records ← file;
  name_to_id_map ← build_skill_name_to_id_map records;
  Some (foldl (convert_tier name_to_id_map) ([], []) preset).

End WithLower.

(** The number printed on the last line. *)
Definition total_skills (tiers : list out_tier) : nat :=
  foldr (λ t n, length (out_items t) + n) 0 tiers.

End CreatePreset.

Module PresetSamples.

Import CreatePreset.

(** [str.lower] on the names used below. *)
Definition sample_lower : Lower := {|
  str_lower s := string_of_list_ascii (lower (list_ascii_of_string s))
|}.

(** Two tiers of [PRESET_DATA], the second cut to two skills. *)
Definition two_tiers : list tier :=
  [ {| tier_name := "SS"; tier_color := "#FF0000";
       tier_skills := ["Adrenaline"] |};
    {| tier_name := "F"; tier_color := "#4169E1";
       tier_skills := ["Reactive Armor"; "Tornado"] |} ].

(** A catalog with "Adrenaline" and "Reactive Armour". *)
Definition some_records : list (string * spell) :=
  [ ("Adrenaline", {[ "en_name" := JStr "Adrenaline" ]});
    ("Reactive Armour", {[ "ru_name" := JStr "Реактивная броня" ]}) ].

Definition written_tiers : list out_tier :=
  [ {| out_name := "SS"; out_color := "#FF0000"; out_items := ["adrenaline"] |};
    {| out_name := "F"; out_color := "#4169E1";
       out_items := ["reactive_armour"; "tornado"] |} ].

End PresetSamples.

(** ** Further runs of the batch fetch *)

Module MoreFetchSamples.

Import BatchFetch FetchSamples.

Definition fireball_url : string :=
  "https://divinityoriginalsin2.wiki.fextralife.com/Fireball".
Definition fextralife_icon : string :=
  "https://divinityoriginalsin2.wiki.fextralife.com/file/fireball.png".
Definition fandom_icon : string :=
  "https://static.wikia.nocookie.net/fireball.png".

(** Both wikis answer, each with an icon. *)
Definition both_wikis_up : Web := {|
  urljoin base href := base +:+ href;
  quote_plus s := s;
  lstrip_slash s := s;
  last_segment := after_last_slash "";
  fextralife u := Infobox u "<div id=infobox></div>" (Some fextralife_icon);
  fandom _ := RuPage (Some fandom_icon)
|}.

(** The element of [load_spells] for the record of [fireball_catalog]. *)
Definition fireball_ref : spell_ref :=
  {| name := "Fireball";
     en_url := JStr fireball_url;
     ru_url := JStr "https://divinity.fandom.com/ru/wiki/Огненный_шар" |}.

(** What a run over [fireball_catalog] saves when the English wiki is
    down. *)
Definition fireball_saved : gmap string infobox :=
  {[ "Fireball" := {| url := fireball_url; infobox_html := "";
                      icon := Some fandom_icon |} ]}.

(** The state in which that run ends; [school] is the filter. *)
Definition fireball_run (school : option string) : progress :=
  {| results := fireball_saved;
     errors := 0;
     printed := [Found 1 school; Progress 1 1 "Fireball";
                 ErrorFetching fireball_url; RuIcon "Огненный_шар";
                 Ok "Fireball" true false; DoneSaved 1; Errors 0] |}.

End MoreFetchSamples.

(** * Properties *)

(** ** Loops over dicts *)

Section Loops.
Context {A B : Type}.

Lemma map_try_Some (f : string → A → option B) (m : gmap string A) r :
  map_try f m = Some r ↔
  (∀ k a, m !! k = Some a → is_Some (f k a)) ∧ r = map_imap f m.
Proof.
  unfold map_try. case_decide as Hall.
  - split; [intros [= <-]; split; [exact Hall | done] | intros [_ ->]; done].
  - split; [done | intros [Hall' _]; destruct Hall; exact Hall'].
Qed.

Lemma map_try_lookup (f : string → A → option B) (m : gmap string A) r k :
  map_try f m = Some r → r !! k = m !! k ≫= f k.
Proof. intros [_ ->]%map_try_Some. apply map_lookup_imap. Qed.

Lemma map_try_total (f : string → A → option B) (m : gmap string A) :
  (∀ k a, m !! k = Some a → is_Some (f k a)) → is_Some (map_try f m).
Proof. intros Hall. exists (map_imap f m). by apply map_try_Some. Qed.

Lemma map_sum_zero (f : A → nat) (m : gmap string A) :
  (∀ k a, m !! k = Some a → f a = 0) → map_sum f m = 0.
Proof.
  unfold map_sum.
  induction m as [|k a m Hk Hfold IH] using map_first_key_ind.
  - by rewrite map_fold_empty.
  - intros Hall. rewrite map_fold_insert_first_key by done.
    rewrite (Hall k a) by apply lookup_insert_eq.
    rewrite IH; [done|]. intros k' a' Hk'. apply (Hall k').
    rewrite lookup_insert_ne; [done|]. intros ->. congruence.
Qed.

End Loops.

(** A loop whose body is idempotent is idempotent, and its second run
    counts nothing. *)
Lemma map_try_idempotent {A R : Type} (f : string → A → option R)
    (proj : R → A) (cnt : R → nat) (m : gmap string A) (rs : gmap string R) :
  (∀ k a r, f k a = Some r →
     ∃ r', f k (proj r) = Some r' ∧ proj r' = proj r ∧ cnt r' = 0) →
  map_try f m = Some rs →
  ∃ rs', map_try f (proj <$> rs) = Some rs' ∧
         proj <$> rs' = proj <$> rs ∧ map_sum cnt rs' = 0.
Proof.
  intros Hstep Hrun.
  assert (Hrs : ∀ k r, rs !! k = Some r → ∃ a, f k a = Some r).
  { intros k r Hk. rewrite (map_try_lookup _ _ _ _ Hrun) in Hk.
    destruct (m !! k) as [a|]; [by exists a | done]. }
  exists (map_imap f (proj <$> rs)). split; [|split].
  - apply map_try_Some. split; [|done].
    intros k a. rewrite lookup_fmap.
    destruct (rs !! k) as [r|] eqn:Hk; [|done]. intros [= <-].
    destruct (Hrs k r Hk) as [a Ha].
    destruct (Hstep k a r Ha) as (r' & -> & _). by eexists.
  - apply map_eq. intros k.
    rewrite lookup_fmap, map_lookup_imap, !lookup_fmap.
    destruct (rs !! k) as [r|] eqn:Hk; [|done]. simpl.
    destruct (Hrs k r Hk) as [a Ha].
    destruct (Hstep k a r Ha) as (r' & Hr' & Hp & _).
    rewrite Hr'. simpl. by rewrite Hp.
  - apply map_sum_zero. intros k r'.
    rewrite map_lookup_imap, lookup_fmap.
    destruct (rs !! k) as [r|] eqn:Hk; [|done]. simpl.
    destruct (Hrs k r Hk) as [a Ha].
    destruct (Hstep k a r Ha) as (r'' & Hr'' & _ & Hc).
    rewrite Hr''. by intros [= <-].
Qed.

(** ** Contrast assignment *)

Section Contrast.
Import ApplyCombo.

Lemma in_components_pair (a b : string) (p : jval) :
  in_components p [a; b] = bool_decide (p = JStr a ∨ p = JStr b).
Proof.
  unfold in_components. apply bool_decide_ext. simpl.
  rewrite !elem_of_cons, elem_of_nil. tauto.
Qed.

(** The target for a two-member list. *)
Lemma target_secondary_pair (a b : string) (p : jval) :
  a ≠ b →
  target_secondary [a; b] p =
    Some (if decide (p = JStr a) then b else if decide (p = JStr b) then a else b).
Proof.
  intros Hab. unfold target_secondary. rewrite in_components_pair.
  case_bool_decide as Hin.
  - destruct Hin as [-> | ->].
    + rewrite decide_True by done. simpl.
      rewrite filter_cons_False by (intros Hn; by apply Hn).
      rewrite filter_cons_True by congruence. done.
    + rewrite decide_False by congruence. rewrite decide_True by done.
      rewrite filter_cons_True by congruence. done.
  - rewrite !decide_False by tauto. done.
Qed.

Lemma fix_spell_unfold table key sp :
  fix_spell table key sp =
  match table_find table (py_get_default sp "en_name" (JStr key)) with
  | Some components =>
      target ← target_secondary components (py_get sp "primary_school");
      if decide (py_get sp "secondary_school" ≠ JStr target)
      then Some (<["is_combo" := JBool true]>
                   (<["secondary_school" := JStr target]> sp),
                 [Fixed (match py_get_default sp "en_name" (JStr key) with
                         | JStr n => n | _ => key end)
                        (py_get sp "primary_school") target],
                 1)
      else Some (sp, [], 0)
  | None => Some (sp, [], 0)
  end.
Proof. reflexivity. Qed.

Lemma py_get_fixed (sp : spell) (t : string) (k : string) :
  k ≠ "is_combo" → k ≠ "secondary_school" →
  (<["is_combo" := JBool true]> (<["secondary_school" := JStr t]> sp) : spell) !! k
  = sp !! k.
Proof. intros. by rewrite !lookup_insert_ne. Qed.

Lemma fix_spell_idempotent table key sp sp' out n :
  fix_spell table key sp = Some (sp', out, n) →
  fix_spell table key sp' = Some (sp', [], 0).
Proof.
  rewrite !fix_spell_unfold.
  destruct (table_find table (py_get_default sp "en_name" (JStr key)))
    as [components|] eqn:Hfind.
  - destruct (target_secondary components (py_get sp "primary_school"))
      as [target|] eqn:Htarget; simpl; [|done].
    case_decide as Hsec.
    + intros [= <- <- <-].
      unfold py_get_default, py_get in *.
      rewrite (py_get_fixed _ _ "en_name") by done.
      rewrite (py_get_fixed _ _ "primary_school") by done.
      rewrite Hfind, Htarget. simpl.
      rewrite lookup_insert_ne by done. rewrite lookup_insert_eq. simpl.
      rewrite decide_False; [done|]. intros Hn; by apply Hn.
    + intros [= <- <- <-]. rewrite Hfind, Htarget. simpl.
      by case_decide.
  - intros [= <- <- <-]. by rewrite Hfind.
Qed.


Lemma fix_school_idempotent table sd sd' n :
  fix_school table sd = Some (sd', n) →
  fix_school table sd' = Some (sd', 0).
Proof.
  unfold fix_school.
  destruct (map_try (fix_spell table) (sd_spells sd)) as [rs|] eqn:Hrun;
    simpl; [|done].
  intros [= <- <-]. cbn [sd_spells sd_attrs].
  destruct (map_try_idempotent (fix_spell table) (λ r, r.1.1) (λ r, r.2)
              (sd_spells sd) rs) as (rs' & Hrun' & Hproj & Hcnt); [|done|].
  - intros k a [[sp' out] c] Hstep. exists (sp', [], 0).
    split; [|done]. by eapply fix_spell_idempotent.
  - rewrite Hrun'. cbn [mbind option_bind]. by rewrite Hproj, Hcnt.
Qed.

Lemma fix_catalog_idempotent table data data' n :
  fix_catalog table data = Some (data', n) →
  fix_catalog table data' = Some (data', 0).
Proof.
  unfold fix_catalog.
  destruct (map_try (λ _, fix_school table) (schools data)) as [rs|] eqn:Hrun;
    simpl; [|done].
  intros [= <- <-]. cbn [schools meta].
  destruct (map_try_idempotent (λ _ : string, fix_school table) fst snd
              (schools data) rs) as (rs' & Hrun' & Hproj & Hcnt); [|done|].
  - intros _ sd [sd' c] Hstep. exists (sd', 0).
    split; [|done]. by eapply fix_school_idempotent.
  - rewrite Hrun'. cbn [mbind option_bind]. by rewrite Hproj, Hcnt.
Qed.

Lemma table_get_elem table n components :
  table_get table n = Some components → (n, components) ∈ table.
Proof.
  induction table as [|[k v] rest IH]; simpl; [done|].
  destruct (String.eqb k n) eqn:Hk.
  - apply String.eqb_eq in Hk as ->. intros [= ->]. apply list_elem_of_here.
  - intros Hget. apply list_elem_of_further. by apply IH.
Qed.

Lemma pair_table_find table en_name components :
  pair_table table → table_find table en_name = Some components →
  ∃ a b, components = [a; b] ∧ a ≠ b.
Proof.
  intros Hpair Hfind. destruct en_name as [| | |n]; try done.
  apply table_get_elem in Hfind.
  unfold pair_table in Hpair. rewrite Forall_forall in Hpair.
  exact (Hpair _ Hfind).
Qed.

Lemma fix_spell_total table key sp :
  pair_table table → is_Some (fix_spell table key sp).
Proof.
  intros Hpair. rewrite fix_spell_unfold.
  destruct (table_find _ _) as [components|] eqn:Hfind; [|by eexists].
  destruct (pair_table_find _ _ _ Hpair Hfind) as (a & b & -> & Hab).
  rewrite target_secondary_pair by done. simpl.
  case_decide; by eexists.
Qed.

Lemma fix_school_total table sd :
  pair_table table → is_Some (fix_school table sd).
Proof.
  intros Hpair. unfold fix_school.
  destruct (map_try_total (fix_spell table) (sd_spells sd)) as [rs ->].
  { intros k a _. by apply fix_spell_total. }
  by eexists.
Qed.

Lemma fix_catalog_total table data :
  pair_table table → is_Some (fix_catalog table data).
Proof.
  intros Hpair. unfold fix_catalog.
  destruct (map_try_total (λ _ : string, fix_school table) (schools data))
    as [rs ->].
  { intros k a _. by apply fix_school_total. }
  by eexists.
Qed.

(** A table is checked pair by pair with a boolean test. *)
Lemma pairs_checked (P : string → string → Prop) (test : string → string → bool)
    (table : list (string * list string)) :
  (∀ a b, test a b = true → P a b) →
  forallb (λ e, match e.2 with [a; b] => test a b | _ => false end) table = true →
  Forall (λ e, ∃ a b, e.2 = [a; b] ∧ P a b) table.
Proof.
  intros Htest. induction table as [|[k v] rest IH]; simpl.
  - intros _. apply Forall_nil_2.
  - intros [Hv Hrest]%andb_prop. apply Forall_cons. split; [|by apply IH].
    destruct v as [|a [|b [|c v]]]; try done. eauto.
Qed.

Lemma DUAL_MAP_pair_table : pair_table DUAL_MAP.
Proof.
  apply (pairs_checked (λ a b, a ≠ b) (λ a b, bool_decide (a ≠ b))).
  - intros a b. apply bool_decide_eq_true_1.
  - by vm_compute.
Qed.

Lemma main_with_Done table data data' n :
  main_with table (Some data) = Done data' n ↔
  fix_catalog table data = Some (data', n).
Proof.
  unfold main_with. destruct (fix_catalog table data) as [[d c]|].
  - split; intros [= -> ->]; done.
  - split; done.
Qed.

(** The contrast assignment never adds or removes a record: what it
    returns has the schools and the spell keys it was given. *)
Lemma fix_catalog_membership table data data' n :
  fix_catalog table data = Some (data', n) →
  membership (schools data') = membership (schools data).
Proof.
  unfold fix_catalog.
  destruct (map_try _ (schools data)) as [rs|] eqn:Hrun; simpl; [|done].
  intros [= <- <-]. cbn [schools]. apply map_eq. intros s.
  unfold membership. rewrite !lookup_fmap.
  rewrite (map_try_lookup _ _ _ s Hrun).
  destruct (schools data !! s) as [sd|] eqn:Hs; [|done]. simpl.
  apply map_try_Some in Hrun as [Hall _].
  destruct (Hall s sd Hs) as [[sd' c] Hsd]. rewrite Hsd. simpl.
  unfold fix_school in Hsd.
  destruct (map_try _ (sd_spells sd)) as [rs'|] eqn:Hrun'; simpl in Hsd; [|done].
  injection Hsd as <- <-. cbn [sd_spells].
  f_equal. apply set_eq. intros k.
  rewrite !elem_of_dom, lookup_fmap, (map_try_lookup _ _ _ k Hrun').
  destruct (sd_spells sd !! k) as [sp|] eqn:Hk; simpl.
  - apply map_try_Some in Hrun' as [Hall' _].
    destruct (Hall' k sp Hk) as [r ->]. simpl. split; by eexists.
  - split; intros [? ?]; done.
Qed.

(** C1. Idempotence of the contrast assignment.  For a table of pairs of
    two different schools, a run on any catalog ends by writing a catalog,
    and a second run on what was written writes the same catalog and
    reports zero fixes; the same holds spell by spell, where the second
    pass over a spell changes nothing, prints nothing and counts
    nothing. *)
Theorem contrast_assignment_idempotent
    (table : list (string * list string)) (data : catalog) :
  pair_table table →
  (∃ data' n,
     main_with table (Some data) = Done data' n ∧
     main_with table (Some data') = Done data' 0) ∧
  (∀ key sp, ∃ sp' out k,
     fix_spell table key sp = Some (sp', out, k) ∧
     fix_spell table key sp' = Some (sp', [], 0)).
Proof.
  intros Hpair. split.
  - destruct (fix_catalog_total table data Hpair) as [[data' n] Hrun].
    exists data', n. rewrite !main_with_Done. split; [done|].
    by eapply fix_catalog_idempotent.
  - intros key sp.
    destruct (fix_spell_total table key sp Hpair) as [[[sp' out] k] Hstep].
    exists sp', out, k. split; [done|]. by eapply fix_spell_idempotent.
Qed.

Lemma contrast_assignment_idempotent_witness :
  (∃ data' n,
     main (Some (Samples.single PYRO "Corpse Explosion"
                   (Samples.corpse_explosion PYRO None None))) = Done data' n ∧
     main (Some data') = Done data' 0) ∧
  (∀ key sp, ∃ sp' out k,
     fix_spell DUAL_MAP key sp = Some (sp', out, k) ∧
     fix_spell DUAL_MAP key sp' = Some (sp', [], 0)).
Proof.
  apply (contrast_assignment_idempotent DUAL_MAP
           (Samples.single PYRO "Corpse Explosion"
              (Samples.corpse_explosion PYRO None None))).
  unfold pair_table, DUAL_MAP.
  repeat (apply Forall_cons; split;
          [eexists _, _; split; [reflexivity | by vm_compute] |]).
  apply Forall_nil_2.
Defined.

(** Scenarios 1 and 2 of the specification, run on the shipped table. *)
Example scenario_first_run :
  main (Some (Samples.single PYRO "Corpse Explosion"
                (Samples.corpse_explosion PYRO None None)))
  = Done (Samples.single PYRO "Corpse Explosion"
            (Samples.corpse_explosion PYRO (Some NECRO) (Some true))) 1.
Proof. compute_done. Qed.

Example scenario_second_run :
  main (Some (Samples.single PYRO "Corpse Explosion"
                (Samples.corpse_explosion PYRO (Some NECRO) (Some true))))
  = Done (Samples.single PYRO "Corpse Explosion"
            (Samples.corpse_explosion PYRO (Some NECRO) (Some true))) 0.
Proof. compute_done. Qed.

Lemma py_get_str_lookup (sp : spell) k s :
  py_get sp k = JStr s → sp !! k = Some (JStr s).
Proof. unfold py_get. destruct (sp !! k); simpl; [by intros -> | done]. Qed.

(** C2. Contrast correctness.  For a spell whose pair is [{a, b}] with
    [a ≠ b], the contrast assignment succeeds and keeps the primary school;
    a primary [a] gives the secondary [b] and a primary [b] gives the
    secondary [a]; and whatever the primary is, member of the pair or not,
    the secondary school of the result differs from its primary school. *)
Theorem contrast_correct (table : list (string * list string))
    (key : string) (sp : spell) (a b : string) :
  a ≠ b →
  table_find table (py_get_default sp "en_name" (JStr key)) = Some [a; b] →
  ∃ sp' out n,
    fix_spell table key sp = Some (sp', out, n) ∧
    sp' !! "primary_school" = sp !! "primary_school" ∧
    (py_get sp "primary_school" = JStr a →
       sp' !! "secondary_school" = Some (JStr b)) ∧
    (py_get sp "primary_school" = JStr b →
       sp' !! "secondary_school" = Some (JStr a)) ∧
    py_get sp' "secondary_school" ≠ py_get sp' "primary_school".
Proof.
  intros Hab Hfind. rewrite fix_spell_unfold, Hfind.
  rewrite target_secondary_pair by done. cbn [mbind option_bind].
  set (p := py_get sp "primary_school").
  set (t := if decide (p = JStr a) then b
            else if decide (p = JStr b) then a else b).
  assert (Ht : JStr t ≠ p).
  { subst t. repeat case_decide; congruence. }
  assert (Ha : p = JStr a → t = b).
  { intros Hp. subst t. by rewrite decide_True. }
  assert (Hb : p = JStr b → t = a).
  { intros Hp. subst t. rewrite decide_False by congruence.
    by rewrite decide_True. }
  case_decide as Hsec.
  - eexists _, _, _. split; [done|].
    assert (Hsec' : (<["is_combo" := JBool true]>
                       (<["secondary_school" := JStr t]> sp) : spell)
                    !! "secondary_school" = Some (JStr t)).
    { rewrite lookup_insert_ne by done. apply lookup_insert_eq. }
    split; [by rewrite !lookup_insert_ne|].
    split; [intros Hp; by rewrite Hsec', (Ha Hp)|].
    split; [intros Hp; by rewrite Hsec', (Hb Hp)|].
    unfold py_get at 1 2. rewrite Hsec', !lookup_insert_ne by done. exact Ht.
  - apply py_get_str_lookup in Hsec as Hsec'.
    eexists _, _, _. split; [done|]. split; [done|].
    split; [intros Hp; by rewrite Hsec', (Ha Hp)|].
    split; [intros Hp; by rewrite Hsec', (Hb Hp)|].
    rewrite Hsec. exact Ht.
Qed.

Lemma contrast_correct_witness :
  ∃ sp' out n,
    fix_spell DUAL_MAP "Corpse Explosion"
      (Samples.corpse_explosion NECRO None None) = Some (sp', out, n) ∧
    sp' !! "primary_school" =
      Samples.corpse_explosion NECRO None None !! "primary_school" ∧
    (py_get (Samples.corpse_explosion NECRO None None) "primary_school" = JStr PYRO →
       sp' !! "secondary_school" = Some (JStr NECRO)) ∧
    (py_get (Samples.corpse_explosion NECRO None None) "primary_school" = JStr NECRO →
       sp' !! "secondary_school" = Some (JStr PYRO)) ∧
    py_get sp' "secondary_school" ≠ py_get sp' "primary_school".
Proof.
  apply (contrast_correct DUAL_MAP "Corpse Explosion"
           (Samples.corpse_explosion NECRO None None) PYRO NECRO).
  - by vm_compute.
  - reflexivity.
Defined.

(** C10. Frame property of the contrast assignment.  When the stored
    secondary school already is the computed target, the iteration returns
    the record as it was, prints nothing and counts nothing; in particular
    the ["is_combo"] entry, set or missing, is left as it was. *)
Theorem contrast_frame (table : list (string * list string))
    (key : string) (sp : spell) (components : list string) (target : string) :
  table_find table (py_get_default sp "en_name" (JStr key)) = Some components →
  target_secondary components (py_get sp "primary_school") = Some target →
  py_get sp "secondary_school" = JStr target →
  fix_spell table key sp = Some (sp, [], 0) ∧
  ∀ sp' out n, fix_spell table key sp = Some (sp', out, n) →
    sp' !! "is_combo" = sp !! "is_combo".
Proof.
  intros Hfind Htarget Hsec.
  assert (Hstep : fix_spell table key sp = Some (sp, [], 0)).
  { rewrite fix_spell_unfold, Hfind, Htarget. cbn [mbind option_bind].
    rewrite decide_False; [done|]. intros Hne. by apply Hne. }
  split; [done|]. intros sp' out n. rewrite Hstep. by intros [= <- <- <-].
Qed.

Lemma contrast_frame_witness :
  Samples.corpse_explosion PYRO (Some NECRO) (Some false) !! "is_combo"
    = Some (JBool false) ∧
  fix_spell DUAL_MAP "Corpse Explosion"
    (Samples.corpse_explosion PYRO (Some NECRO) (Some false))
  = Some (Samples.corpse_explosion PYRO (Some NECRO) (Some false), [], 0) ∧
  ∀ sp' out n,
    fix_spell DUAL_MAP "Corpse Explosion"
      (Samples.corpse_explosion PYRO (Some NECRO) (Some false))
    = Some (sp', out, n) →
    sp' !! "is_combo"
    = Samples.corpse_explosion PYRO (Some NECRO) (Some false) !! "is_combo".
Proof.
  split; [reflexivity|].
  apply (contrast_frame DUAL_MAP "Corpse Explosion"
           (Samples.corpse_explosion PYRO (Some NECRO) (Some false))
           [PYRO; NECRO] NECRO); reflexivity.
Defined.

(** The same on a record that has no ["is_combo"] entry at all. *)
Example contrast_frame_missing_flag :
  Samples.corpse_explosion PYRO (Some NECRO) None !! "is_combo" = None ∧
  main (Some (Samples.single PYRO "Corpse Explosion"
                (Samples.corpse_explosion PYRO (Some NECRO) None)))
  = Done (Samples.single PYRO "Corpse Explosion"
            (Samples.corpse_explosion PYRO (Some NECRO) None)) 0.
Proof. split; compute_done. Qed.

(** C3, as the specification states it, fails: a record whose primary
    school is outside its pair and whose secondary school already is the
    second member of the pair goes through the contrast assignment without a
    single line of output, so nothing flags it. *)
Lemma fallback_flags_record_counterexample :
  ¬ (∀ key sp components,
       table_find DUAL_MAP (py_get_default sp "en_name" (JStr key))
         = Some components →
       in_components (py_get sp "primary_school") components = false →
       ∃ sp' out n,
         fix_spell DUAL_MAP key sp = Some (sp', out, n) ∧ out ≠ []).
Proof.
  intros Hclaim.
  destruct (Hclaim "Corpse Explosion"
              (Samples.corpse_explosion HYDRO (Some NECRO) None)
              [PYRO; NECRO] eq_refl eq_refl)
    as (sp' & out & n & Hstep & Hout).
  assert (Hquiet : fix_spell DUAL_MAP "Corpse Explosion"
                     (Samples.corpse_explosion HYDRO (Some NECRO) None)
                   = Some (Samples.corpse_explosion HYDRO (Some NECRO) None, [], 0))
    by compute_done.
  rewrite Hquiet in Hstep. injection Hstep as _ Hnil _. by apply Hout.
Qed.

(** Every pair of the shipped table lists an elemental school first and a
    school that is not elemental second. *)
Lemma DUAL_MAP_element_first :
  Forall (λ e, ∃ a b, e.2 = [a; b] ∧ a ∈ ELEMENTAL ∧ b ∉ ELEMENTAL) DUAL_MAP.
Proof.
  apply (pairs_checked (λ a b, a ∈ ELEMENTAL ∧ b ∉ ELEMENTAL)
           (λ a b, bool_decide (a ∈ ELEMENTAL) && bool_decide (b ∉ ELEMENTAL))).
  - intros a b [Ha Hb]%andb_prop.
    split; [by apply bool_decide_eq_true_1 in Ha | by apply bool_decide_eq_true_1 in Hb].
  - compute_done.
Qed.

(** C3, amended.  When the stored primary school is not a member of the
    pair, the target is the member listed second, which in every pair of the
    shipped table is the school that is not elemental.  The iteration does
    not fail, and its only output is the ordinary line of a fix, printed
    exactly when the stored secondary school differs from that target. *)
Theorem fallback_second_member (table : list (string * list string))
    (key : string) (sp : spell) (components : list string) (second : string) :
  table_find table (py_get_default sp "en_name" (JStr key)) = Some components →
  in_components (py_get sp "primary_school") components = false →
  components !! 1 = Some second →
  target_secondary components (py_get sp "primary_school") = Some second ∧
  fix_spell table key sp =
    Some (if decide (py_get sp "secondary_school" ≠ JStr second)
          then (<["is_combo" := JBool true]>
                  (<["secondary_school" := JStr second]> sp),
                [Fixed (match py_get_default sp "en_name" (JStr key) with
                        | JStr n => n | _ => key end)
                       (py_get sp "primary_school") second],
                1)
          else (sp, [], 0)) ∧
  Forall (λ e, ∃ a b, e.2 = [a; b] ∧ a ∈ ELEMENTAL ∧ b ∉ ELEMENTAL) DUAL_MAP.
Proof.
  intros Hfind Hout Hsecond.
  assert (Htarget : target_secondary components (py_get sp "primary_school")
                    = Some second).
  { unfold target_secondary. by rewrite Hout. }
  split; [done|]. split; [|exact DUAL_MAP_element_first].
  rewrite fix_spell_unfold, Hfind, Htarget. cbn [mbind option_bind].
  by case_decide.
Qed.

Lemma fallback_second_member_witness :
  target_secondary [PYRO; NECRO]
    (py_get (Samples.corpse_explosion HYDRO None None) "primary_school")
  = Some NECRO ∧
  fix_spell DUAL_MAP "Corpse Explosion" (Samples.corpse_explosion HYDRO None None)
  = Some (if decide (py_get (Samples.corpse_explosion HYDRO None None)
                       "secondary_school" ≠ JStr NECRO)
          then (<["is_combo" := JBool true]>
                  (<["secondary_school" := JStr NECRO]>
                     (Samples.corpse_explosion HYDRO None None)),
                [Fixed (match py_get_default
                                (Samples.corpse_explosion HYDRO None None)
                                "en_name" (JStr "Corpse Explosion") with
                        | JStr n => n | _ => "Corpse Explosion" end)
                       (py_get (Samples.corpse_explosion HYDRO None None)
                          "primary_school") NECRO],
                1)
          else (Samples.corpse_explosion HYDRO None None, [], 0)) ∧
  Forall (λ e, ∃ a b, e.2 = [a; b] ∧ a ∈ ELEMENTAL ∧ b ∉ ELEMENTAL) DUAL_MAP.
Proof.
  apply (fallback_second_member DUAL_MAP "Corpse Explosion"
           (Samples.corpse_explosion HYDRO None None) [PYRO; NECRO] NECRO);
    reflexivity.
Defined.

(** Scenario 3 of the specification: the run goes on and ends with status
    0; the secondary school it stores is the school that is not
    elemental. *)
Example scenario_inconsistent_primary :
  main (Some (Samples.single HYDRO "Corpse Explosion"
                (Samples.corpse_explosion HYDRO None None)))
  = Done (Samples.single HYDRO "Corpse Explosion"
            (Samples.corpse_explosion HYDRO (Some NECRO) (Some true))) 1 ∧
  exit_code (main (Some (Samples.single HYDRO "Corpse Explosion"
                           (Samples.corpse_explosion HYDRO None None)))) = 0%Z.
Proof. split; compute_done. Qed.

(** C8, as the specification states it, fails: the script walks the
    catalog, not the pair table, so an entry of the table that has no record
    in the catalog is skipped and no record is created for it. *)
Lemma orphan_creation_counterexample :
  ("Corpse Explosion", [PYRO; NECRO]) ∈ DUAL_MAP ∧
  membership (schools Samples.empty_catalog) = ∅ ∧
  main (Some Samples.empty_catalog) = Done Samples.empty_catalog 0.
Proof.
  split; [|split].
  - apply (table_get_elem DUAL_MAP). reflexivity.
  - reflexivity.
  - compute_done.
Qed.

(** C8, amended.  The contrast assignment never creates a record: on every
    catalog the run ends by writing a catalog with the same schools and,
    school by school, the same spell keys; entries of the pair table without
    a record in the catalog are skipped. *)
Theorem contrast_creates_no_record (data : catalog) :
  ∃ data' n,
    main (Some data) = Done data' n ∧
    membership (schools data') = membership (schools data).
Proof.
  destruct (fix_catalog_total DUAL_MAP data DUAL_MAP_pair_table)
    as [[data' n] Hrun].
  exists data', n. split.
  - by apply main_with_Done.
  - by eapply fix_catalog_membership.
Qed.
End Contrast.
(** ** The merge of the recipe pass *)

Section Merge.
Import Scrape.
Context `{Env}.

Lemma unique_membership_entry ss :
  unique_membership ss ↔
  ∀ s1 s2 k, is_Some (entry ss s1 k) → is_Some (entry ss s2 k) → s1 = s2.
Proof.
  unfold unique_membership, entry. split.
  - intros Hu s1 s2 k H1 H2.
    destruct (ss !! s1) as [sd1|] eqn:E1; [|by destruct H1].
    destruct (ss !! s2) as [sd2|] eqn:E2; [|by destruct H2].
    by apply (Hu s1 s2 sd1 sd2 k).
  - intros Hu s1 s2 sd1 sd2 k H1 H2 Hk1 Hk2.
    apply (Hu s1 s2 k); [by rewrite H1 | by rewrite H2].
Qed.

Lemma spell_lookup_elem ss name s :
  s ∈ spell_lookup ss name ↔ s ≠ COMBO_SCHOOL ∧ is_Some (entry ss s name).
Proof.
  unfold spell_lookup, entry. rewrite elem_of_dom. split.
  - intros [sd Hsd]. apply map_lookup_filter_Some in Hsd as [Hsd [Hne Hk]].
    simpl in *. by rewrite Hsd.
  - intros [Hne Hk]. destruct (ss !! s) as [sd|] eqn:Hsd; [|by destruct Hk].
    exists sd. apply map_lookup_filter_Some. simpl in *. eauto.
Qed.

Lemma spell_lookup_empty ss name :
  ss !! COMBO_SCHOOL = None →
  spell_lookup ss name = ∅ ↔ ∀ s, entry ss s name = None.
Proof.
  intros Hno. split.
  - intros Hempty s. destruct (entry ss s name) as [sp|] eqn:Hs; [|done].
    assert (s ∈ spell_lookup ss name) as Hin.
    { apply spell_lookup_elem. split; [|by rewrite Hs].
      intros ->. unfold entry in Hs. by rewrite Hno in Hs. }
    rewrite Hempty in Hin. by apply not_elem_of_empty in Hin.
  - intros Hnone. apply set_eq. intros s. rewrite spell_lookup_elem, Hnone.
    split; [intros [_ []]; done | intros []%not_elem_of_empty].
Qed.

Lemma add_spell_lookup school name x ss s :
  add_spell school name x ss !! s =
  (λ sd, if decide (s = school)
         then {| sd_attrs := sd_attrs sd; sd_spells := <[name := x]> (sd_spells sd) |}
         else sd) <$> ss !! s.
Proof.
  unfold add_spell. destruct (decide (s = school)) as [->|Hne].
  - by rewrite lookup_alter_eq.
  - rewrite lookup_alter_ne by done. by destruct (ss !! s).
Qed.

Lemma add_spell_entry school name x ss s k :
  is_Some (ss !! school) →
  entry (add_spell school name x ss) s k =
  if decide (s = school ∧ k = name) then Some x else entry ss s k.
Proof.
  intros [sd0 Hschool]. unfold entry. rewrite add_spell_lookup.
  destruct (decide (s = school)) as [->|Hs].
  - rewrite Hschool. simpl. destruct (decide (k = name)) as [->|Hk].
    + rewrite decide_True by done. apply lookup_insert_eq.
    + rewrite decide_False by tauto. by rewrite lookup_insert_ne.
  - rewrite decide_False by tauto. by destruct (ss !! s).
Qed.

(** The orphan bucket, created on first use (lines 395-396). *)
Lemma bucket_entry (ss : gmap string school_data) attrs s k :
  ss !! COMBO_SCHOOL = None →
  entry (<[COMBO_SCHOOL := {| sd_attrs := attrs; sd_spells := ∅ |}]> ss) s k
  = entry ss s k.
Proof.
  intros Hno. unfold entry. destruct (decide (s = COMBO_SCHOOL)) as [->|Hs].
  - by rewrite lookup_insert_eq, Hno.
  - by rewrite lookup_insert_ne.
Qed.

(** An iteration of the merge loop for a name that some school lists. *)
Lemma merge_combo_found_entry lookup name x ss s k :
  lookup name ≠ ∅ →
  entry (merge_combo lookup name x ss) s k =
  if decide (s ∈ lookup name ∧ k = name)
  then merge_entry x <$> entry ss s k
  else entry ss s k.
Proof.
  intros Hfound. unfold merge_combo. rewrite decide_True by done.
  unfold entry. rewrite map_lookup_imap.
  destruct (ss !! s) as [sd|]; simpl; [|by case_decide].
  destruct (decide (s ∈ lookup name)) as [Hs|Hs]; simpl.
  - destruct (decide (k = name)) as [->|Hk].
    + rewrite decide_True by done. by rewrite lookup_alter_eq.
    + rewrite decide_False by tauto. by rewrite lookup_alter_ne.
  - by rewrite decide_False by tauto.
Qed.

Lemma merge_combo_found_dom lookup name x (ss : gmap string school_data) s :
  lookup name ≠ ∅ →
  is_Some (merge_combo lookup name x ss !! s) ↔ is_Some (ss !! s).
Proof.
  intros Hfound. unfold merge_combo. rewrite decide_True by done.
  rewrite map_lookup_imap. destruct (ss !! s); simpl; [|done].
  split; intros _; by eexists.
Qed.

(** An iteration of the merge loop for a name that no school lists; [ss0]
    is the catalog the lookup was built from, [ss] the catalog so far. *)
Lemma merge_combo_new lookup name x ss0 ss :
  lookup name = ∅ →
  ss0 !! COMBO_SCHOOL = None →
  (∀ s, s ≠ COMBO_SCHOOL → is_Some (ss !! s) ↔ is_Some (ss0 !! s)) →
  (∀ s k, entry (merge_combo lookup name x ss) s k =
          if decide (s = combo_target ss0 x ∧ k = name) then Some x
          else entry ss s k) ∧
  (∀ s, s ≠ COMBO_SCHOOL →
        is_Some (merge_combo lookup name x ss !! s) ↔ is_Some (ss0 !! s)).
Proof.
  intros Hnew Hno Hdom. unfold merge_combo. rewrite decide_False by tauto.
  assert (Hbucket :
    (∀ s k, entry (add_spell COMBO_SCHOOL name x
                    (if decide (is_Some (ss !! COMBO_SCHOOL)) then ss
                     else <[COMBO_SCHOOL :=
                              {| sd_attrs := {[ "en_name" := JStr "Crafted" ]};
                                 sd_spells := ∅ |}]> ss)) s k
            = if decide (s = COMBO_SCHOOL ∧ k = name) then Some x
              else entry ss s k) ∧
    (∀ s, s ≠ COMBO_SCHOOL →
          is_Some (add_spell COMBO_SCHOOL name x
                    (if decide (is_Some (ss !! COMBO_SCHOOL)) then ss
                     else <[COMBO_SCHOOL :=
                              {| sd_attrs := {[ "en_name" := JStr "Crafted" ]};
                                 sd_spells := ∅ |}]> ss) !! s)
          ↔ is_Some (ss0 !! s))).
  { case_decide as Hhas.
    - split.
      + intros s k. by apply add_spell_entry.
      + intros s Hs. rewrite add_spell_lookup, <- (Hdom s Hs).
        destruct (ss !! s); simpl; [split; intros _; by eexists | done].
    - assert (ss !! COMBO_SCHOOL = None) as Hnone.
      { destruct (ss !! COMBO_SCHOOL) eqn:E; [|done]. destruct Hhas. by eexists. }
      split.
      + intros s k. rewrite add_spell_entry by (rewrite lookup_insert_eq; by eexists).
        case_decide; [done|]. by apply bucket_entry.
      + intros s Hs. rewrite add_spell_lookup, lookup_insert_ne by done.
        rewrite <- (Hdom s Hs).
        destruct (ss !! s); simpl; [split; intros _; by eexists | done]. }
  unfold combo_target.
  destruct (py_get x "primary_school") as [| | |primary]; try exact Hbucket.
  destruct (nonempty primary) eqn:Hne; simpl; [|exact Hbucket].
  destruct (decide (primary = COMBO_SCHOOL)) as [->|Hp].
  - rewrite (bool_decide_eq_false_2 (is_Some (ss0 !! COMBO_SCHOOL)))
      by (rewrite Hno; by intros [? ?]).
    case_bool_decide as Hhas; [|exact Hbucket].
    destruct Hbucket as [Hb1 Hb2]. rewrite decide_True in Hb1, Hb2 by done.
    by split.
  - rewrite (bool_decide_ext _ _ (Hdom primary Hp)).
    case_bool_decide as Hhas; [|exact Hbucket].
    split.
    + intros s k. apply add_spell_entry. by apply Hdom.
    + intros s Hs. rewrite add_spell_lookup, <- (Hdom s Hs).
      destruct (ss !! s); simpl; [split; intros _; by eexists | done].
Qed.

(** The state of the merge loop after the names of [m] have been
    processed. *)
Lemma merge_combo_pass_entry ss combo_spells :
  ss !! COMBO_SCHOOL = None →
  (∀ s k, entry (merge_combo_pass ss combo_spells) s k
          = merged_entry ss combo_spells s k) ∧
  (∀ s, s ≠ COMBO_SCHOOL →
        is_Some (merge_combo_pass ss combo_spells !! s) ↔ is_Some (ss !! s)).
Proof.
  intros Hno. unfold merge_combo_pass.
  apply (map_fold_weak_ind
    (λ r m, (∀ s k, entry r s k = merged_entry ss m s k) ∧
            (∀ s, s ≠ COMBO_SCHOOL → is_Some (r !! s) ↔ is_Some (ss !! s)))).
  - split; [|done]. intros s k. unfold merged_entry.
    rewrite lookup_empty. by destruct (entry ss s k).
  - intros i x m r Hi [IH Hdom].
    destruct (decide (spell_lookup ss i = ∅)) as [Hnew|Hfound].
    + destruct (merge_combo_new (spell_lookup ss) i x ss r Hnew Hno Hdom)
        as [Hentry Hdom'].
      split; [|exact Hdom']. intros s k. rewrite Hentry.
      pose proof (proj1 (spell_lookup_empty ss i Hno) Hnew) as Hnone.
      unfold merged_entry. case_decide as Hsk.
      * destruct Hsk as [-> ->]. rewrite Hnone, lookup_insert_eq.
        by rewrite decide_True.
      * rewrite IH. unfold merged_entry.
        destruct (decide (k = i)) as [->|Hk].
        -- rewrite Hnone, Hi, lookup_insert_eq.
           rewrite decide_False; [done|]. intros [_ ->]. by apply Hsk.
        -- by rewrite lookup_insert_ne.
    + split.
      * intros s k. rewrite merge_combo_found_entry by done.
        rewrite !IH. unfold merged_entry. case_decide as Hsk.
        -- destruct Hsk as [Hs ->].
           apply spell_lookup_elem in Hs as [_ [sp Hsp]].
           by rewrite Hsp, Hi, lookup_insert_eq.
        -- destruct (decide (k = i)) as [->|Hk]; [|by rewrite lookup_insert_ne].
           rewrite Hi, lookup_insert_eq.
           destruct (entry ss s i) as [sp|] eqn:Hsp.
           ++ destruct Hsk. split; [|done]. apply spell_lookup_elem.
              split; [|by rewrite Hsp]. intros ->.
              unfold entry in Hsp. by rewrite Hno in Hsp.
           ++ by rewrite decide_False by tauto.
      * intros s Hs. rewrite merge_combo_found_dom by done. by apply Hdom.
Qed.

End Merge.

Section Listing.
Import Scrape.
Context `{Env}.

Lemma find_school_known text target :
  find_school text = Some target → target ∈ RU_TO_EN_SCHOOL.*1.
Proof.
  unfold find_school. case_bool_decide as Hin.
  - by intros [= <-].
  - intros Hfind. apply find_some in Hfind as [Hin' _].
    by apply list_elem_of_In.
Qed.

Lemma scrape_schools_keys main_page s :
  is_Some (scrape_schools main_page !! s) → s ∈ RU_TO_EN_SCHOOL.*1.
Proof.
  destruct main_page as [links|]; simpl; [|by intros [? ?]].
  assert (Hgen : ∀ st,
            (∀ s, is_Some (st.1 !! s) → s ∈ RU_TO_EN_SCHOOL.*1) →
            ∀ s, is_Some ((foldl scrape_link st links).1 !! s) →
                 s ∈ RU_TO_EN_SCHOOL.*1).
  { induction links as [|l links IH]; intros st Hst; [done|].
    simpl. apply IH. unfold scrape_link.
    destruct (find_school (link_text l)) as [target|] eqn:Hfind; [|done].
    case_decide; [done|]. simpl. intros s'.
    destruct (decide (s' = target)) as [->|Hne].
    - intros _. by eapply find_school_known.
    - rewrite lookup_insert_ne by done. apply Hst. }
  apply Hgen. simpl. intros s' [? Hs']. by rewrite lookup_empty in Hs'.
Qed.

Lemma listing_schools_keys w s :
  is_Some (listing_schools w !! s) →
  s ∈ RU_TO_EN_SCHOOL.*1 ∨ s = SPECIAL_SCHOOL.
Proof.
  unfold listing_schools. intros [sd Hsd].
  apply lookup_union_Some_raw in Hsd as [Hsd | [_ Hsd]].
  - right. unfold scrape_special_skills in Hsd.
    destruct (special_page w); [|done].
    by apply lookup_singleton_Some in Hsd as [<- _].
  - left. apply (scrape_schools_keys (main_page w)). by eexists.
Qed.

(** The listing passes never create the orphan bucket. *)
Lemma listing_schools_no_bucket w : listing_schools w !! COMBO_SCHOOL = None.
Proof.
  destruct (listing_schools w !! COMBO_SCHOOL) as [sd|] eqn:Hsd; [|done].
  assert (Hn1 : COMBO_SCHOOL ∉ RU_TO_EN_SCHOOL.*1)
    by (apply (bool_decide_eq_false_1 (COMBO_SCHOOL ∈ RU_TO_EN_SCHOOL.*1));
        by vm_compute).
  assert (Hn2 : COMBO_SCHOOL ≠ SPECIAL_SCHOOL)
    by (apply (bool_decide_eq_false_1 (COMBO_SCHOOL = SPECIAL_SCHOOL));
        by vm_compute).
  destruct (listing_schools_keys w COMBO_SCHOOL) as [Hin | Heq];
    [by eexists | done | done].
Qed.

(** The record at [s], [k] of the catalog that [main] writes. *)
Lemma main_entry w s k :
  entry (schools (main w)) s k =
  match scrape_combo_skills (combo_page w) with
  | Some combo_spells => merged_entry (listing_schools w) combo_spells s k
  | None => entry (listing_schools w) s k
  end.
Proof.
  unfold main. cbn [schools].
  destruct (scrape_combo_skills (combo_page w)) as [combo_spells|]; [|done].
  apply merge_combo_pass_entry, listing_schools_no_bucket.
Qed.

End Listing.

(** ** Membership *)

Lemma entry_membership ss s k :
  is_Some (entry ss s k) ↔ ∃ d, membership ss !! s = Some d ∧ k ∈ d.
Proof.
  unfold entry, membership. rewrite lookup_fmap.
  destruct (ss !! s) as [sd|]; simpl.
  - rewrite <- elem_of_dom. split; [by eauto | by intros (d & [= <-] & Hk)].
  - split; [by intros [? ?] | by intros (d & ? & _)].
Qed.

Lemma unique_membership_proper ss ss' :
  membership ss' = membership ss →
  unique_membership ss → unique_membership ss'.
Proof.
  rewrite !unique_membership_entry. intros Hm Hu s1 s2 k.
  rewrite !entry_membership, Hm, <- !entry_membership. apply Hu.
Qed.

Lemma unique_membership_checked ss :
  unique_membership_check ss = true → unique_membership ss.
Proof.
  unfold unique_membership_check. intros Hcheck%bool_decide_eq_true_1.
  intros s1 s2 sd1 sd2 k H1 H2 Hk1 Hk2.
  destruct (Hcheck s1 sd1 H1 s2 sd2 H2) as [Heq | Hdisj]; [done|].
  exfalso. apply (Hdisj k); by apply elem_of_dom.
Qed.

(** ** Records across the merge and the contrast fixes *)

Section Records.
Import Scrape.
Context `{Env}.

(** The merge of the recipe pass adds no second membership. *)
Lemma merged_entry_unique ss combo_spells :
  ss !! COMBO_SCHOOL = None →
  unique_membership ss →
  ∀ s1 s2 k,
    is_Some (merged_entry ss combo_spells s1 k) →
    is_Some (merged_entry ss combo_spells s2 k) → s1 = s2.
Proof.
  intros Hno Hu s1 s2 k. rewrite unique_membership_entry in Hu.
  unfold merged_entry.
  destruct (entry ss s1 k) as [sp1|] eqn:H1;
    destruct (entry ss s2 k) as [sp2|] eqn:H2.
  - intros _ _. apply (Hu s1 s2 k); [by rewrite H1 | by rewrite H2].
  - intros _. destruct (combo_spells !! k) as [x|]; [|by intros [? ?]].
    case_decide as Hnew; [|by intros [? ?]]. destruct Hnew as [Hnew _].
    rewrite (proj1 (spell_lookup_empty ss k Hno) Hnew s1) in H1. done.
  - destruct (combo_spells !! k) as [x|]; [|by intros [? ?]].
    case_decide as Hnew; [|by intros [? ?]]. destruct Hnew as [Hnew _].
    rewrite (proj1 (spell_lookup_empty ss k Hno) Hnew s2) in H2. done.
  - destruct (combo_spells !! k) as [x|]; [|by intros [? ?]].
    case_decide as Hs1; [|by intros [? ?]].
    case_decide as Hs2; [|by intros _ [? ?]].
    intros _ _. destruct Hs1 as [_ ->], Hs2 as [_ ->]. done.
Qed.

Lemma main_unique_membership w :
  unique_membership (listing_schools w) →
  unique_membership (schools (main w)).
Proof.
  intros Hu. apply unique_membership_entry. intros s1 s2 k.
  rewrite !main_entry.
  destruct (scrape_combo_skills (combo_page w)) as [combo_spells|].
  - by apply merged_entry_unique; [apply listing_schools_no_bucket|].
  - by apply unique_membership_entry.
Qed.

End Records.

(** C4, as the specification states it, fails: when the pages of two
    schools list the same skill, the general listing stores it in both, and
    nothing later removes the second membership. *)
Lemma membership_unique_counterexample :
  ¬ unique_membership
      (schools (@Scrape.main ScrapeSamples.sample_env
                  ScrapeSamples.two_schools_same_skill)).
Proof.
  intros Hu. rewrite unique_membership_entry in Hu.
  assert (ScrapeSamples.PYRO = ScrapeSamples.AERO) as Heq; [|done].
  apply (Hu _ _ "Fireball"); compute_done.
Qed.

(** C4, amended.  The combo-listing merge and the contrast fixes add no
    second membership: if no identifier is in the spells of two schools
    after the general and the special listing, none is in the catalog that
    [main] writes, nor in the catalog written by a contrast run on it. *)
Theorem merge_keeps_membership_unique `{Scrape.Env} (w : Scrape.pages) :
  unique_membership (Scrape.listing_schools w) →
  unique_membership (schools (Scrape.main w)) ∧
  ∃ data' n,
    ApplyCombo.main (Some (Scrape.main w)) = ApplyCombo.Done data' n ∧
    membership (schools data') = membership (schools (Scrape.main w)) ∧
    unique_membership (schools data').
Proof.
  intros Hu. pose proof (main_unique_membership w Hu) as Hmain.
  split; [done|].
  destruct (fix_catalog_total ApplyCombo.DUAL_MAP (Scrape.main w)
              DUAL_MAP_pair_table) as [[data' n] Hrun].
  pose proof (fix_catalog_membership _ _ _ _ Hrun) as Hm.
  exists data', n. split; [by apply main_with_Done|]. split; [done|].
  by apply (unique_membership_proper (schools (Scrape.main w))).
Qed.

Lemma merge_keeps_membership_unique_witness :
  unique_membership
    (schools (@Scrape.main ScrapeSamples.sample_env
       (ScrapeSamples.one_school ScrapeSamples.PYRO "/ru/wiki/Пирокинетика"
          [ScrapeSamples.novice_table] (Some [[ScrapeSamples.haste_row]])
          (Some ScrapeSamples.corpse_explosion_recipe)))) ∧
  ∃ data' n,
    ApplyCombo.main
      (Some (@Scrape.main ScrapeSamples.sample_env
         (ScrapeSamples.one_school ScrapeSamples.PYRO "/ru/wiki/Пирокинетика"
            [ScrapeSamples.novice_table] (Some [[ScrapeSamples.haste_row]])
            (Some ScrapeSamples.corpse_explosion_recipe))))
    = ApplyCombo.Done data' n ∧
    membership (schools data') =
    membership (schools (@Scrape.main ScrapeSamples.sample_env
       (ScrapeSamples.one_school ScrapeSamples.PYRO "/ru/wiki/Пирокинетика"
          [ScrapeSamples.novice_table] (Some [[ScrapeSamples.haste_row]])
          (Some ScrapeSamples.corpse_explosion_recipe)))) ∧
    unique_membership (schools data').
Proof.
  apply (@merge_keeps_membership_unique ScrapeSamples.sample_env).
  apply unique_membership_checked. by vm_compute.
Defined.

(** ** Fields of a record *)

Section Fields.
Import Scrape.

(** Lines 381-386, field by field. *)
Lemma merge_entry_en_url (spell_data current_entry : spell) :
  merge_entry spell_data current_entry !! "en_url" =
  if negb (truthy (py_get current_entry "en_url")) &&
     truthy (py_get spell_data "en_url")
  then Some (py_get spell_data "en_url")
  else current_entry !! "en_url".
Proof.
  unfold merge_entry.
  replace (py_get (<["secondary_school" := py_get spell_data "secondary_school"]>
                     (<["is_combo" := JBool true]> current_entry)) "en_url")
    with (py_get current_entry "en_url")
    by (unfold py_get; by rewrite !lookup_insert_ne).
  destruct (negb _ && _).
  - apply lookup_insert_eq.
  - by rewrite !lookup_insert_ne.
Qed.

Lemma merge_entry_is_combo (spell_data current_entry : spell) :
  merge_entry spell_data current_entry !! "is_combo" = Some (JBool true).
Proof.
  unfold merge_entry. destruct (negb _ && _).
  - rewrite !lookup_insert_ne by done. apply lookup_insert_eq.
  - rewrite !lookup_insert_ne by done. apply lookup_insert_eq.
Qed.

Lemma merge_entry_secondary (spell_data current_entry : spell) :
  merge_entry spell_data current_entry !! "secondary_school"
  = Some (py_get spell_data "secondary_school").
Proof.
  unfold merge_entry. destruct (negb _ && _).
  - rewrite lookup_insert_ne by done. apply lookup_insert_eq.
  - apply lookup_insert_eq.
Qed.

Lemma merge_entry_other (spell_data current_entry : spell) field :
  field ∉ ["is_combo"; "secondary_school"; "en_url"] →
  merge_entry spell_data current_entry !! field = current_entry !! field.
Proof.
  intros Hfield.
  assert (field ≠ "is_combo" ∧ field ≠ "secondary_school" ∧ field ≠ "en_url")
    as (H1 & H2 & H3).
  { repeat split; intros ->; apply Hfield; repeat constructor. }
  unfold merge_entry. destruct (negb _ && _); by rewrite !lookup_insert_ne.
Qed.

(** The contrast assignment writes two fields only. *)
Lemma fix_spell_other table key (sp sp' : spell) out n field :
  ApplyCombo.fix_spell table key sp = Some (sp', out, n) →
  field ∉ ["is_combo"; "secondary_school"] →
  sp' !! field = sp !! field.
Proof.
  intros Hstep Hfield.
  assert (field ≠ "is_combo" ∧ field ≠ "secondary_school") as (H1 & H2).
  { repeat split; intros ->; apply Hfield; repeat constructor. }
  rewrite fix_spell_unfold in Hstep.
  destruct (ApplyCombo.table_find _ _) as [components|]; [|by injection Hstep as <- _ _].
  destruct (ApplyCombo.target_secondary _ _) as [target|]; simpl in Hstep; [|done].
  case_decide.
  - injection Hstep as <- _ _. by rewrite !lookup_insert_ne.
  - by injection Hstep as <- _ _.
Qed.

(** The record at [s], [k] after a contrast run. *)
Lemma fix_catalog_entry table data data' n s k :
  ApplyCombo.fix_catalog table data = Some (data', n) →
  entry (schools data') s k =
  entry (schools data) s k ≫= λ sp, (λ r, r.1.1) <$> ApplyCombo.fix_spell table k sp.
Proof.
  unfold ApplyCombo.fix_catalog.
  destruct (map_try _ (schools data)) as [rs|] eqn:Hrun; simpl; [|done].
  intros [= <- <-]. cbn [schools]. unfold entry.
  rewrite lookup_fmap, (map_try_lookup _ _ _ s Hrun).
  destruct (schools data !! s) as [sd|] eqn:Hs; [|done]. simpl.
  apply map_try_Some in Hrun as [Hall _].
  destruct (Hall s sd Hs) as [[sd' c] Hsd]. rewrite Hsd. simpl.
  unfold ApplyCombo.fix_school in Hsd.
  destruct (map_try _ (sd_spells sd)) as [rs'|] eqn:Hrun'; simpl in Hsd; [|done].
  injection Hsd as <- <-. cbn [sd_spells].
  rewrite lookup_fmap, (map_try_lookup _ _ _ k Hrun').
  by destruct (sd_spells sd !! k).
Qed.

End Fields.

(** ** Fill-only fields *)

Section FillOnly.
Import Scrape.
Context `{Env}.

(** A later table of the same page replaces the records it lists. *)
Lemma parse_tables_snoc tables table school :
  parse_tables (tables ++ [table]) school
  = parse_skill_table table school ∪ parse_tables tables school.
Proof. unfold parse_tables. by rewrite foldl_snoc. Qed.

Lemma parse_tables_last tables table school k r :
  parse_skill_table table school !! k = Some r →
  parse_tables (tables ++ [table]) school !! k = Some r.
Proof.
  intros Hk. rewrite parse_tables_snoc. by apply lookup_union_Some_l.
Qed.

(** A record of the listing passes after the merge and after a contrast
    run on the merged catalog. *)
Lemma main_keeps_entry w s k sp :
  entry (listing_schools w) s k = Some sp →
  ∃ sp', entry (schools (main w)) s k = Some sp' ∧
         (sp' = sp ∨ ∃ spell_data, sp' = merge_entry spell_data sp).
Proof.
  intros Hsp. rewrite main_entry.
  destruct (scrape_combo_skills (combo_page w)) as [combo_spells|].
  - unfold merged_entry. rewrite Hsp.
    destruct (combo_spells !! k) as [x|]; eauto.
  - eauto.
Qed.

End FillOnly.

(** C5, as the specification states it, fails: a skill listed in two
    tables of one school page, under two tier headings and two Russian
    names, has after the first table the tier and name of the first and
    after the second those of the second. *)
Lemma fill_only_counterexample :
  let after_first :=
    @Scrape.parse_tables ScrapeSamples.sample_env
      [ScrapeSamples.novice_table] ScrapeSamples.PYRO in
  let after_second :=
    @Scrape.parse_tables ScrapeSamples.sample_env
      [ScrapeSamples.novice_table; ScrapeSamples.master_table] ScrapeSamples.PYRO in
  (after_first !! "Fireball" ≫= (.!! "tier") = Some (JStr "Новичок") ∧
   after_second !! "Fireball" ≫= (.!! "tier") = Some (JStr "Мастер")) ∧
  (after_first !! "Fireball" ≫= (.!! "ru_name") = Some (JStr "Огненный шар") ∧
   after_second !! "Fireball" ≫= (.!! "ru_name") = Some (JStr "Шар огня")).
Proof. repeat split; compute_done. Qed.

(** C5, amended.  The display names and the tier of a record that the
    listing passes stored are changed neither by the combo-listing merge nor
    by a contrast run on the merged catalog.  Inside a listing pass there is
    no field-level merge: a later table of the same page replaces the whole
    record of every identifier it lists. *)
Theorem merge_keeps_names_and_tier `{Scrape.Env} (w : Scrape.pages)
    (s k : string) (sp : spell) (field : string) :
  field ∈ ["ru_name"; "en_name"; "tier"] →
  entry (Scrape.listing_schools w) s k = Some sp →
  (∃ sp', entry (schools (Scrape.main w)) s k = Some sp' ∧
          sp' !! field = sp !! field) ∧
  (∃ data' n sp'',
     ApplyCombo.main (Some (Scrape.main w)) = ApplyCombo.Done data' n ∧
     entry (schools data') s k = Some sp'' ∧
     sp'' !! field = sp !! field) ∧
  (∀ tables table school k' r,
     Scrape.parse_skill_table table school !! k' = Some r →
     Scrape.parse_tables (tables ++ [table]) school !! k' = Some r).
Proof.
  intros Hfield Hsp.
  assert ((field ∉ ["is_combo"; "secondary_school"; "en_url"]) ∧
          (field ∉ ["is_combo"; "secondary_school"])) as [Hmerge Hfix].
  { rewrite !elem_of_cons, elem_of_nil in Hfield.
    destruct Hfield as [-> | [-> | [-> | []]]]; split; compute_done. }
  destruct (main_keeps_entry w s k sp Hsp) as (sp' & Hsp' & Hmerged).
  assert (sp' !! field = sp !! field) as Hkept.
  { destruct Hmerged as [-> | [x ->]]; [done|]. by apply merge_entry_other. }
  split; [by eauto|]. split; [|apply parse_tables_last].
  destruct (fix_catalog_total ApplyCombo.DUAL_MAP (Scrape.main w)
              DUAL_MAP_pair_table) as [[data' n] Hrun].
  pose proof (fix_catalog_entry _ _ _ _ s k Hrun) as Hentry.
  rewrite Hsp' in Hentry. simpl in Hentry.
  destruct (fix_spell_total ApplyCombo.DUAL_MAP k sp' DUAL_MAP_pair_table)
    as [[[sp'' out] c] Hstep].
  rewrite Hstep in Hentry. simpl in Hentry.
  exists data', n, sp''. split; [by apply main_with_Done|]. split; [done|].
  rewrite <- Hkept. by eapply fix_spell_other.
Qed.

Lemma merge_keeps_names_and_tier_witness :
  (∃ sp',
     entry (schools (@Scrape.main ScrapeSamples.sample_env
                       ScrapeSamples.recipe_for_listed_skill))
       ScrapeSamples.PYRO "Fireball" = Some sp' ∧
     sp' !! "tier" = ScrapeSamples.listed_fireball !! "tier") ∧
  (∃ data' n sp'',
     ApplyCombo.main (Some (@Scrape.main ScrapeSamples.sample_env
                              ScrapeSamples.recipe_for_listed_skill))
       = ApplyCombo.Done data' n ∧
     entry (schools data') ScrapeSamples.PYRO "Fireball" = Some sp'' ∧
     sp'' !! "tier" = ScrapeSamples.listed_fireball !! "tier") ∧
  (∀ tables table school k' r,
     @Scrape.parse_skill_table ScrapeSamples.sample_env table school !! k'
       = Some r →
     @Scrape.parse_tables ScrapeSamples.sample_env (tables ++ [table]) school
       !! k' = Some r).
Proof.
  apply (@merge_keeps_names_and_tier ScrapeSamples.sample_env
           ScrapeSamples.recipe_for_listed_skill ScrapeSamples.PYRO "Fireball"
           ScrapeSamples.listed_fireball "tier").
  - compute_done.
  - compute_done.
Defined.

(** ** Overridable fields *)

(** C7, as the specification states it, fails twice over.  Records of the
    same identifier from the general and the special listing are not merged
    at all: each stays in its school, the one without URL still without
    (scenario 4 of the specification).  And the merge of the recipe pass
    never takes [ru_url] from the incoming record. *)
Lemma url_override_counterexample :
  (entry (schools (@Scrape.main ScrapeSamples.sample_env
                     ScrapeSamples.listing_without_url))
     ScrapeSamples.PYRO "Fireball" ≫= (.!! "en_url") = Some (JStr "") ∧
   entry (schools (@Scrape.main ScrapeSamples.sample_env
                     ScrapeSamples.listing_without_url))
     Scrape.SPECIAL_SCHOOL "Fireball" ≫= (.!! "en_url")
   = Some (JStr "https://divinityoriginalsin2.wiki.fextralife.com/Fireball")) ∧
  (truthy (py_get (<["ru_url" := JStr ""]> ScrapeSamples.listed_fireball)
             "ru_url") = false ∧
   truthy (py_get ScrapeSamples.recipe_fireball "ru_url") = true ∧
   Scrape.merge_entry ScrapeSamples.recipe_fireball
     (<["ru_url" := JStr ""]> ScrapeSamples.listed_fireball) !! "ru_url"
   = Some (JStr "")).
Proof. repeat split; compute_done. Qed.

(** C7, amended.  Only the merge of the recipe pass updates a record that
    is already in the catalog, and only when the recipe page has a record of
    the same name.  Then [en_url] is filled in when the stored one is empty
    and the incoming one is not, and is kept otherwise; [is_combo] becomes
    true and [secondary_school] becomes the incoming one; every other
    field, [ru_url] included, is kept.  Without such a recipe record the
    record is kept as it is. *)
Theorem combo_merge_fields `{Scrape.Env} (w : Scrape.pages)
    (s k : string) (sp : spell) :
  entry (Scrape.listing_schools w) s k = Some sp →
  ∃ sp',
    entry (schools (Scrape.main w)) s k = Some sp' ∧
    match Scrape.scrape_combo_skills (Scrape.combo_page w) ≫= (.!! k) with
    | Some incoming =>
        sp' !! "en_url" =
          (if negb (truthy (py_get sp "en_url")) &&
              truthy (py_get incoming "en_url")
           then Some (py_get incoming "en_url")
           else sp !! "en_url") ∧
        sp' !! "is_combo" = Some (JBool true) ∧
        sp' !! "secondary_school" = Some (py_get incoming "secondary_school") ∧
        ∀ field, field ∉ ["is_combo"; "secondary_school"; "en_url"] →
                 sp' !! field = sp !! field
    | None => sp' = sp
    end.
Proof.
  intros Hsp. rewrite main_entry.
  destruct (Scrape.scrape_combo_skills (Scrape.combo_page w))
    as [combo_spells|]; simpl; [|by eauto].
  unfold merged_entry. rewrite Hsp.
  destruct (combo_spells !! k) as [incoming|]; [|by eauto].
  eexists. split; [done|].
  split; [apply merge_entry_en_url|].
  split; [apply merge_entry_is_combo|].
  split; [apply merge_entry_secondary|].
  intros field. apply merge_entry_other.
Qed.

Lemma combo_merge_fields_witness :
  ∃ sp',
    entry (schools (@Scrape.main ScrapeSamples.sample_env
                      ScrapeSamples.recipe_for_listed_skill))
      ScrapeSamples.PYRO "Fireball" = Some sp' ∧
    match @Scrape.scrape_combo_skills ScrapeSamples.sample_env
            (Scrape.combo_page ScrapeSamples.recipe_for_listed_skill)
          ≫= (.!! "Fireball") with
    | Some incoming =>
        sp' !! "en_url" =
          (if negb (truthy (py_get ScrapeSamples.listed_fireball "en_url")) &&
              truthy (py_get incoming "en_url")
           then Some (py_get incoming "en_url")
           else ScrapeSamples.listed_fireball !! "en_url") ∧
        sp' !! "is_combo" = Some (JBool true) ∧
        sp' !! "secondary_school" = Some (py_get incoming "secondary_school") ∧
        ∀ field, field ∉ ["is_combo"; "secondary_school"; "en_url"] →
                 sp' !! field = ScrapeSamples.listed_fireball !! field
    | None => sp' = ScrapeSamples.listed_fireball
    end.
Proof.
  apply (@combo_merge_fields ScrapeSamples.sample_env
           ScrapeSamples.recipe_for_listed_skill ScrapeSamples.PYRO "Fireball"
           ScrapeSamples.listed_fireball).
  compute_done.
Defined.

(** On that run the URL of the recipe record is filled in, and the tier of
    the listing is kept. *)
Example scenario_combo_fills_en_url :
  @Scrape.scrape_combo_skills ScrapeSamples.sample_env
     (Scrape.combo_page ScrapeSamples.recipe_for_listed_skill)
   ≫= (.!! "Fireball") = Some ScrapeSamples.recipe_fireball ∧
  entry (schools (@Scrape.main ScrapeSamples.sample_env
                    ScrapeSamples.recipe_for_listed_skill))
    ScrapeSamples.PYRO "Fireball"
  = Some (<["en_url" :=
              JStr "https://divinityoriginalsin2.wiki.fextralife.com/Fireball"]>
          (<["secondary_school" := JStr ScrapeSamples.AERO]>
          (<["is_combo" := JBool true]> ScrapeSamples.listed_fireball))).
Proof. split; compute_done. Qed.

(** ** Order inside a pass *)

Section Order.
Import Scrape.
Context `{Env}.

Lemma assign_all_cons d k v l :
  assign_all d ((k, v) :: l) = assign_all (<[k := v]> d) l.
Proof. done. Qed.

Lemma assign_all_app d l1 l2 :
  assign_all d (l1 ++ l2) = assign_all (assign_all d l1) l2.
Proof. apply foldl_app. Qed.

(** Assigning into [d] is updating [d] with the assignments. *)
Lemma assign_all_union d l : assign_all d l = assign_all ∅ l ∪ d.
Proof.
  revert d. induction l as [|[k v] l IH]; intros d.
  - change (d = ∅ ∪ d). by rewrite (left_id_L ∅ (∪)).
  - rewrite !assign_all_cons, IH, (IH (<[k:=v]> ∅)).
    rewrite <- (assoc_L (∪)). f_equal.
    by rewrite insert_empty, <- insert_union_singleton_l.
Qed.

(** With pairwise different keys the order of the assignments is
    immaterial. *)
Lemma assign_all_nodup d l :
  NoDup l.*1 → assign_all d l = list_to_map l ∪ d.
Proof.
  revert d. induction l as [|[k v] l IH]; intros d Hnd.
  - change (d = ∅ ∪ d). by rewrite (left_id_L ∅ (∪)).
  - apply NoDup_cons in Hnd as [Hk Hnd]. simpl in Hk.
    rewrite assign_all_cons, IH by done. simpl.
    rewrite <- insert_union_l. symmetry. apply insert_union_r.
    by apply not_elem_of_list_to_map_1.
Qed.

Lemma assign_all_reordered d l l' :
  reordered l l' → assign_all d l = assign_all d l'.
Proof.
  intros [Hnd Hperm]. rewrite !assign_all_nodup; [|by rewrite <- Hperm|done].
  f_equal. by apply list_to_map_proper.
Qed.

(** The rows of a table, as assignments. *)
Lemma parse_rows_records school st table :
  (foldl (parse_row school) st table).1
  = assign_all st.1 (table_records school st.2 table).
Proof.
  revert st. induction table as [|r rest IH]; intros st; [done|].
  cbn [foldl]. rewrite IH.
  destruct r as [text|text href page_en|]; cbn [parse_row table_records].
  - by destruct (nonempty text && _).
  - by destruct (negb _ || _).
  - done.
Qed.

Lemma parse_skill_table_records table school :
  parse_skill_table table school
  = assign_all ∅ (table_records school UNKNOWN_TIER table).
Proof. apply (parse_rows_records school (∅, UNKNOWN_TIER)). Qed.

Lemma parse_tables_records tables school :
  parse_tables tables school = assign_all ∅ (page_records tables school).
Proof.
  unfold parse_tables, page_records.
  induction tables as [|table tables IH] using rev_ind; [done|].
  rewrite foldl_snoc, IH, bind_app, assign_all_app. simpl.
  rewrite (right_id_L [] (++)), parse_skill_table_records.
  symmetry. apply assign_all_union.
Qed.

Lemma parse_combo_rows_records d rows :
  foldl parse_combo_row d rows = assign_all d (rows ≫= combo_row_records).
Proof.
  revert d. induction rows as [|r rows IH]; intros d; [done|].
  cbn [foldl]. rewrite IH, bind_cons, assign_all_app. f_equal. by destruct r.
Qed.

Lemma parse_combo_tables_records d tables :
  foldl parse_combo_table d tables
  = assign_all d (combo_page_records tables).
Proof.
  revert d. induction tables as [|t tables IH]; intros d; [done|].
  unfold combo_page_records in *. cbn [foldl].
  rewrite IH, bind_cons, assign_all_app. f_equal. unfold parse_combo_table.
  destruct (is_substring _ _); [apply parse_combo_rows_records | done].
Qed.

End Order.

(** ** The passes of two runs *)

Lemma assign_all_same_records d l l' :
  same_records l l' → assign_all d l = assign_all d l'.
Proof. intros [-> | Hre]; [done | by apply assign_all_reordered]. Qed.

Lemma same_page_records_tables env env' p p' school :
  same_page_records env env' p p' →
  (λ tables, @Scrape.parse_tables env tables school) <$> p
  = (λ tables, @Scrape.parse_tables env' tables school) <$> p'.
Proof.
  destruct 1 as [tables tables' Hrec|]; [|done]. simpl. f_equal.
  rewrite !parse_tables_records. apply assign_all_same_records, Hrec.
Qed.

Lemma same_passes_special env env' w w' :
  same_passes env env' w w' →
  @Scrape.scrape_special_skills env (Scrape.special_page w)
  = @Scrape.scrape_special_skills env' (Scrape.special_page w').
Proof.
  intros [_ Hspecial _]. unfold Scrape.scrape_special_skills.
  pose proof (same_page_records_tables _ _ _ _ Scrape.SPECIAL_SCHOOL Hspecial)
    as Heq.
  destruct (Scrape.special_page w), (Scrape.special_page w'); try done.
  by injection Heq as ->.
Qed.

Lemma same_passes_combo env env' w w' :
  same_passes env env' w w' →
  @Scrape.scrape_combo_skills env (Scrape.combo_page w)
  = @Scrape.scrape_combo_skills env' (Scrape.combo_page w').
Proof.
  intros [_ _ Hcombo]. unfold Scrape.scrape_combo_skills.
  destruct Hcombo as [tables tables' Hrec|]; [|done]. simpl. f_equal.
  rewrite !parse_combo_tables_records. by apply assign_all_same_records.
Qed.

Lemma same_passes_general env env' w w' :
  @Scrape.urljoin env = @Scrape.urljoin env' →
  same_passes env env' w w' →
  @Scrape.scrape_schools env (Scrape.main_page w)
  = @Scrape.scrape_schools env' (Scrape.main_page w').
Proof.
  intros Hurl [Hgeneral _ _]. unfold Scrape.scrape_schools.
  destruct Hgeneral as [links links' Hlinks|]; [|done]. f_equal.
  generalize (∅ : gmap string school_data, ∅ : gset string).
  induction Hlinks as [|l l' links links' (Htext & Hhref & Hpage) _ IH];
    intros st; [done|].
  simpl. rewrite <- IH. f_equal. unfold Scrape.scrape_link.
  rewrite <- Htext, <- Hhref, <- Hurl.
  destruct (Scrape.find_school (Scrape.link_text l)) as [target|]; [|done].
  case_decide; [done|]. do 3 f_equal.
  pose proof (same_page_records_tables _ _ _ _ target Hpage) as Heq.
  destruct (Scrape.school_page l), (Scrape.school_page l'); try done.
  by injection Heq as ->.
Qed.

(** C6, as the specification states it, fails: two rows of one table that
    resolve to the same identifier are stored last-writer-wins, so
    exchanging them changes the catalog. *)
Lemma row_order_counterexample :
  [ScrapeSamples.fireball_row; ScrapeSamples.fire_orb_row]
    ≡ₚ [ScrapeSamples.fire_orb_row; ScrapeSamples.fireball_row] ∧
  @Scrape.main ScrapeSamples.sample_env
    (ScrapeSamples.one_school ScrapeSamples.PYRO "/ru/wiki/Пирокинетика"
       [[ScrapeSamples.fireball_row; ScrapeSamples.fire_orb_row]] None None)
  ≠ @Scrape.main ScrapeSamples.sample_env
    (ScrapeSamples.one_school ScrapeSamples.PYRO "/ru/wiki/Пирокинетика"
       [[ScrapeSamples.fire_orb_row; ScrapeSamples.fireball_row]] None None).
Proof. split; [apply perm_swap | compute_done]. Qed.

(** C6, amended.  The catalog that [main] writes is a function of the
    records that the three passes yield, merged in the fixed order general,
    special, recipe listing: two runs, each with the identifiers that it
    loaded from the [spells.json] of its start, whose passes yield the same
    school links and behind each link, on the special page and on the
    recipe page the same records in the same order, write the same catalog.
    The order of the records inside a pass does not matter as long as the
    records of that pass have pairwise different identifiers.  Records of
    one pass that share an identifier are resolved last-writer-wins. *)
Theorem pass_order_immaterial (env env' : Scrape.Env) (w w' : Scrape.pages) :
  @Scrape.urljoin env = @Scrape.urljoin env' →
  same_passes env env' w w' →
  @Scrape.main env w = @Scrape.main env' w'.
Proof.
  intros Hurl Hsame.
  unfold Scrape.main, Scrape.listing_schools, Scrape.MAIN_SKILLS_URL.
  by rewrite (same_passes_general env env' w w'),
    (same_passes_special env env' w w'), (same_passes_combo env env' w w'),
    Hurl.
Qed.

Lemma pass_order_immaterial_witness :
  @Scrape.main ScrapeSamples.sample_env
    (ScrapeSamples.one_school ScrapeSamples.PYRO "/ru/wiki/Пирокинетика"
       [[Scrape.TierRow "Новичок"; ScrapeSamples.fireball_row;
         ScrapeSamples.haste_row]]
       None (Some ScrapeSamples.corpse_explosion_recipe))
  = @Scrape.main MappingSamples.second_run_env
    (ScrapeSamples.one_school ScrapeSamples.PYRO "/ru/wiki/Пирокинетика"
       [[Scrape.TierRow "Новичок"; ScrapeSamples.haste_row;
         ScrapeSamples.fireball_row]]
       None (Some ScrapeSamples.corpse_explosion_recipe)).
Proof.
  apply (pass_order_immaterial ScrapeSamples.sample_env
           MappingSamples.second_run_env).
  - reflexivity.
  - constructor.
    + constructor. constructor; [|constructor].
      split; [reflexivity|]. split; [reflexivity|].
      constructor. intros school. right. split.
      * compute_done.
      * vm_compute. apply perm_swap.
    + constructor.
    + constructor. by left.
Defined.

(** The records of a pass are not a function of the fetched pages alone:
    a name that the [spells.json] of the start already maps keeps the
    identifier of that file, so the same pages give another catalog. *)
Example same_pages_other_identifiers :
  @Scrape.main ScrapeSamples.sample_env MappingSamples.renamed_fireball
  ≠ @Scrape.main MappingSamples.second_run_env MappingSamples.renamed_fireball.
Proof. compute_done. Qed.

(** ** Batch fetch *)

Section Fetch.
Import BatchFetch.
Context `{Web}.

(** An iteration of the loop, by the outcome of its record. *)
Lemma process_spell_outcome total i sp st :
  process_spell total i sp st =
  match record_outcome sp with
  | None => None
  | Some (result, out) =>
      Some (if has_data result
            then {| results := <[name sp := result]> (results st);
                    errors := errors st;
                    printed := (printed st
                                ++ [Progress i total (clean_spell_name (name sp))]
                                ++ out)
                               ++ [Ok (name sp) (some_nonempty (icon result))
                                     (negb (String.eqb (infobox_html result) ""))] |}
            else {| results := results st;
                    errors := S (errors st);
                    printed := (printed st
                                ++ [Progress i total (clean_spell_name (name sp))]
                                ++ out)
                               ++ [Failed (name sp)] |})
  end.
Proof.
  unfold process_spell, record_outcome, has_data.
  destruct (build_url _ _) as [at_url|]; simpl; [|done].
  destruct (fetch_infobox at_url) as [fetched out1].
  destruct (with_ru_icon _ _ _) as [[result out2]|]; simpl; [|done].
  by destruct (negb _ || _).
Qed.






End Fetch.





(** A fetch error is printed for the English wiki, the icon of the Russian
    wiki saves the record, and the status is 0. *)
Example diagnostics_do_not_fail :
  fetch_log (@BatchFetch.main FetchSamples.english_wiki_down
               (Some FetchSamples.fireball_catalog) None None)
  = [BatchFetch.Found 1 None;
     BatchFetch.Progress 1 1 "Fireball";
     BatchFetch.ErrorFetching
       "https://divinityoriginalsin2.wiki.fextralife.com/Fireball";
     BatchFetch.RuIcon "Огненный_шар";
     BatchFetch.Ok "Fireball" true false;
     BatchFetch.DoneSaved 1;
     BatchFetch.Errors 0] ∧
  BatchFetch.exit_code
    (@BatchFetch.main FetchSamples.english_wiki_down
       (Some FetchSamples.fireball_catalog) None None) = 0%Z.
Proof. split; compute_done. Qed.

(** With both wikis down the record fails and the status is 2; without a
    catalog file the status is 1. *)
Example failed_record_status :
  BatchFetch.exit_code
    (@BatchFetch.main FetchSamples.both_wikis_down
       (Some FetchSamples.fireball_catalog) None None) = 2%Z ∧
  BatchFetch.failed
    (@BatchFetch.main FetchSamples.both_wikis_down
       (Some FetchSamples.fireball_catalog) None None) = 1 ∧
  BatchFetch.exit_code
    (@BatchFetch.main FetchSamples.both_wikis_down None None None) = 1%Z.
Proof. repeat split; compute_done. Qed.

(** ** More on the contrast run *)

Lemma map_sum_zero_inv {A : Type} (f : A → nat) (m : gmap string A) :
  map_sum f m = 0 → ∀ k a, m !! k = Some a → f a = 0.
Proof.
  unfold map_sum.
  induction m as [|k a m Hk Hfirst IH] using map_first_key_ind; [done|].
  rewrite map_fold_insert_first_key by done. intros Hsum k' a'.
  destruct (decide (k' = k)) as [->|Hne].
  - rewrite lookup_insert_eq. intros [= <-]. lia.
  - rewrite lookup_insert_ne by done. apply IH. lia.
Qed.

(** A loop counts nothing exactly when it changes nothing, if that holds
    for its body. *)
Lemma map_try_count_zero {A R : Type} (f : string → A → option R)
    (proj : R → A) (cnt : R → nat) (m : gmap string A) (rs : gmap string R) :
  (∀ k a r, f k a = Some r → (cnt r = 0 ↔ proj r = a)) →
  map_try f m = Some rs →
  (map_sum cnt rs = 0 ↔ proj <$> rs = m).
Proof.
  intros Hstep Hrun.
  assert (Hrs : ∀ k, rs !! k = m !! k ≫= f k)
    by (intros k; by apply map_try_lookup).
  apply map_try_Some in Hrun as [Hall _]. split.
  - intros Hzero. apply map_eq. intros k. rewrite lookup_fmap, Hrs.
    destruct (m !! k) as [a|] eqn:Hk; [|done]. simpl.
    destruct (Hall k a Hk) as [r Hr]. rewrite Hr. simpl. f_equal.
    apply (Hstep k a r Hr). apply (map_sum_zero_inv cnt rs Hzero k).
    by rewrite Hrs, Hk.
  - intros Heq. apply map_sum_zero. intros k r Hr.
    pose proof Hr as Hr'. rewrite Hrs in Hr'.
    destruct (m !! k) as [a|] eqn:Hk; [|done]. simpl in Hr'.
    apply (Hstep k a r Hr'). 
    assert ((proj <$> rs) !! k = Some a) as Hp by (by rewrite Heq).
    rewrite lookup_fmap, Hr in Hp. by injection Hp.
Qed.

Section Count.
Import ApplyCombo.

Lemma fix_spell_count table key sp sp' out n :
  fix_spell table key sp = Some (sp', out, n) → (n = 0 ↔ sp' = sp).
Proof.
  rewrite fix_spell_unfold.
  destruct (table_find _ _) as [components|]; [|by intros [= <- <- <-]].
  destruct (target_secondary _ _) as [target|]; simpl; [|done].
  case_decide as Hsec; [|by intros [= <- <- <-]].
  intros [= <- <- <-]. split; [done|]. intros Heq. exfalso. apply Hsec.
  unfold py_get. rewrite <- Heq.
  rewrite lookup_insert_ne by done. by rewrite lookup_insert_eq.
Qed.

Lemma fix_school_count table sd sd' n :
  fix_school table sd = Some (sd', n) → (n = 0 ↔ sd' = sd).
Proof.
  unfold fix_school.
  destruct (map_try _ (sd_spells sd)) as [rs|] eqn:Hrun; simpl; [|done].
  intros [= <- <-].
  rewrite (map_try_count_zero (fix_spell table) (λ r, r.1.1) (λ r, r.2)
             (sd_spells sd) rs); [| |done].
  - destruct sd as [attrs spells]. simpl. split; [by intros -> | by intros [= ->]].
  - intros k a [[sp' out] c] Hstep. simpl. by eapply fix_spell_count.
Qed.

(** The number of fixes that a contrast run reports is 0 exactly when the
    catalog it writes is the catalog it read. *)
Theorem fixed_count_zero_iff_unchanged table data data' n :
  main_with table (Some data) = Done data' n → (n = 0 ↔ data' = data).
Proof.
  rewrite main_with_Done. unfold fix_catalog.
  destruct (map_try _ (schools data)) as [rs|] eqn:Hrun; simpl; [|done].
  intros [= <- <-].
  rewrite (map_try_count_zero (λ _ : string, fix_school table) fst snd
             (schools data) rs); [| |done].
  - destruct data as [m ss]. simpl. split; [by intros -> | by intros [= ->]].
  - intros _ sd [sd' c] Hstep. simpl. by eapply fix_school_count.
Qed.

Lemma fixed_count_zero_iff_unchanged_witness :
  1 = 0 ↔
  Samples.single PYRO "Corpse Explosion"
    (Samples.corpse_explosion PYRO (Some NECRO) (Some true))
  = Samples.single PYRO "Corpse Explosion"
      (Samples.corpse_explosion PYRO None None).
Proof.
  apply (fixed_count_zero_iff_unchanged DUAL_MAP
           (Samples.single PYRO "Corpse Explosion"
              (Samples.corpse_explosion PYRO None None))).
  compute_done.
Defined.

(** A contrast run leaves the header of the catalog and the attributes of
    its schools alone; in a record it writes at most ["is_combo"] and
    ["secondary_school"], and a record whose name is not in the pair table
    is written back as it was. *)
Theorem contrast_run_frame table data data' n :
  main_with table (Some data) = Done data' n →
  meta data' = meta data ∧
  (∀ s, sd_attrs <$> schools data' !! s = sd_attrs <$> schools data !! s) ∧
  ∀ s k sp, entry (schools data) s k = Some sp →
    ∃ sp', entry (schools data') s k = Some sp' ∧
      (∀ field, field ∉ ["is_combo"; "secondary_school"] →
                sp' !! field = sp !! field) ∧
      (table_find table (py_get_default sp "en_name" (JStr k)) = None →
       sp' = sp).
Proof.
  rewrite main_with_Done. intros Hrun. split; [|split].
  - unfold fix_catalog in Hrun.
    destruct (map_try _ _) as [rs|]; simpl in Hrun; [|done].
    by injection Hrun as <- _.
  - intros s. unfold fix_catalog in Hrun.
    destruct (map_try _ (schools data)) as [rs|] eqn:Hloop; simpl in Hrun; [|done].
    injection Hrun as <- _. cbn [schools].
    rewrite lookup_fmap, (map_try_lookup _ _ _ s Hloop).
    destruct (schools data !! s) as [sd|] eqn:Hs; [|done]. simpl.
    apply map_try_Some in Hloop as [Hall _].
    destruct (Hall s sd Hs) as [[sd' c] Hsd]. rewrite Hsd. simpl.
    unfold fix_school in Hsd.
    destruct (map_try _ (sd_spells sd)); simpl in Hsd; [|done].
    by injection Hsd as <- _.
  - intros s k sp Hsp.
    pose proof (fix_catalog_entry _ _ _ _ s k Hrun) as Hentry.
    rewrite Hsp in Hentry. simpl in Hentry.
    destruct (fix_spell table k sp) as [[[sp' out] c]|] eqn:Hstep.
    + exists sp'. split; [done|]. split.
      * intros field Hfield. by eapply fix_spell_other.
      * intros Hnot. rewrite fix_spell_unfold, Hnot in Hstep.
        by injection Hstep as <- _ _.
    + exfalso. unfold fix_catalog in Hrun.
      destruct (map_try _ (schools data)) as [rs|] eqn:Hloop; simpl in Hrun; [|done].
      apply map_try_Some in Hloop as [Hall _].
      unfold entry in Hsp.
      destruct (schools data !! s) as [sd|] eqn:Hs; [|done]. simpl in Hsp.
      destruct (Hall s sd Hs) as [[sd' c] Hsd]. unfold fix_school in Hsd.
      destruct (map_try _ (sd_spells sd)) as [rs'|] eqn:Hloop'; simpl in Hsd; [|done].
      apply map_try_Some in Hloop' as [Hall' _].
      destruct (Hall' k sp Hsp) as [r Hr]. congruence.
Qed.

Lemma contrast_run_frame_witness :
  meta (Samples.single PYRO "Corpse Explosion"
          (Samples.corpse_explosion PYRO (Some NECRO) (Some true)))
  = meta (Samples.single PYRO "Corpse Explosion"
            (Samples.corpse_explosion PYRO None None)) ∧
  (∀ s, sd_attrs <$> schools (Samples.single PYRO "Corpse Explosion"
            (Samples.corpse_explosion PYRO (Some NECRO) (Some true))) !! s
        = sd_attrs <$> schools (Samples.single PYRO "Corpse Explosion"
            (Samples.corpse_explosion PYRO None None)) !! s) ∧
  ∀ s k sp,
    entry (schools (Samples.single PYRO "Corpse Explosion"
                      (Samples.corpse_explosion PYRO None None))) s k = Some sp →
    ∃ sp', entry (schools (Samples.single PYRO "Corpse Explosion"
                     (Samples.corpse_explosion PYRO (Some NECRO) (Some true))))
             s k = Some sp' ∧
      (∀ field, field ∉ ["is_combo"; "secondary_school"] →
                sp' !! field = sp !! field) ∧
      (table_find DUAL_MAP (py_get_default sp "en_name" (JStr k)) = None →
       sp' = sp).
Proof.
  apply (contrast_run_frame DUAL_MAP
           (Samples.single PYRO "Corpse Explosion"
              (Samples.corpse_explosion PYRO None None)) _ 1).
  compute_done.
Defined.




(** A pair that lists one school twice makes the run raise on a record of
    that school. *)
Example degenerate_pair_raises :
  main_with [("Corpse Explosion", [PYRO; PYRO])]
    (Some (Samples.single PYRO "Corpse Explosion"
             (Samples.corpse_explosion PYRO None None))) = Crash ∧
  exit_code Crash = 1%Z.
Proof. split; compute_done. Qed.

End Count.

(** ** The shape of the records that the scraper writes *)

Section Shape.
Import Scrape.
Context `{Env}.

Lemma assign_all_lookup_Some d l k v :
  assign_all d l !! k = Some v → (k, v) ∈ l ∨ d !! k = Some v.
Proof.
  revert d. induction l as [|[k' v'] l IH]; intros d; [by right|].
  rewrite assign_all_cons. intros [Hin | Hd]%IH.
  - left. by apply list_elem_of_further.
  - destruct (decide (k' = k)) as [->|Hne].
    + rewrite lookup_insert_eq in Hd. injection Hd as ->.
      left. apply list_elem_of_here.
    + rewrite lookup_insert_ne in Hd by done. by right.
Qed.

Lemma table_records_shape school tier table k sp :
  (k, sp) ∈ table_records school tier table →
  k ≠ "" ∧
  ∃ ru_name ru_url en_url tier',
    sp = listing_record ru_name ru_url k en_url tier' school.
Proof.
  revert tier. induction table as [|r rest IH]; intros tier; simpl.
  - by intros ?%elem_of_nil.
  - destruct r as [text|text href page_en|]; [apply IH| |apply IH].
    destruct (negb (nonempty (listing_name text)) || _) eqn:Hskip; [apply IH|].
    intros [[= -> ->] | Hin]%elem_of_cons; [|by eapply IH].
    apply orb_false_elim in Hskip as [Hne _].
    apply negb_false_iff in Hne. split; [|by eauto].
    unfold resolve_en_name.
    destruct (nonempty (default "" (EXISTING_MAPPINGS !! listing_name text)))
      eqn:H1.
    + rewrite H1. intros Heq. rewrite Heq in H1. done.
    + destruct (nonempty (default "" page_en)) eqn:H2.
      * intros Heq. rewrite Heq in H2. done.
      * intros Heq. rewrite Heq in Hne. done.
Qed.

Lemma parse_tables_shape tables school k sp :
  parse_tables tables school !! k = Some sp →
  k ≠ "" ∧
  ∃ ru_name ru_url en_url tier,
    sp = listing_record ru_name ru_url k en_url tier school.
Proof.
  rewrite parse_tables_records.
  intros [Hin | Hempty]%assign_all_lookup_Some; [|by rewrite lookup_empty in Hempty].
  unfold page_records in Hin. apply list_elem_of_bind in Hin as (table & Hin & _).
  by eapply table_records_shape.
Qed.

(** A record that the listing passes store in the school [s] under the
    key [k]. *)
Lemma listing_entry_shape w s k sp :
  entry (listing_schools w) s k = Some sp →
  k ≠ "" ∧
  ∃ ru_name ru_url en_url tier,
    sp = listing_record ru_name ru_url k en_url tier s.
Proof.
  unfold entry, listing_schools.
  destruct ((scrape_special_skills (special_page w)
             ∪ scrape_schools (main_page w)) !! s) as [sd|] eqn:Hs; [|done].
  simpl. apply lookup_union_Some_raw in Hs as [Hs | [_ Hs]].
  - unfold scrape_special_skills in Hs. destruct (special_page w); [|done].
    apply lookup_singleton_Some in Hs as [<- <-]. apply parse_tables_shape.
  - revert Hs. unfold scrape_schools.
    destruct (main_page w) as [links|]; [|done].
    assert (Hgen : ∀ st,
      (∀ s sd, st.1 !! s = Some sd → ∀ k sp, sd_spells sd !! k = Some sp →
         k ≠ "" ∧ ∃ ru_name ru_url en_url tier,
           sp = listing_record ru_name ru_url k en_url tier s) →
      ∀ s sd, (foldl scrape_link st links).1 !! s = Some sd →
        ∀ k sp, sd_spells sd !! k = Some sp →
         k ≠ "" ∧ ∃ ru_name ru_url en_url tier,
           sp = listing_record ru_name ru_url k en_url tier s).
    { induction links as [|l links IH]; intros st Hst; [done|].
      simpl. apply IH. unfold scrape_link.
      destruct (find_school (link_text l)) as [target|]; [|done].
      case_decide; [done|]. simpl. intros s' sd'.
      destruct (decide (s' = target)) as [->|Hne].
      - rewrite lookup_insert_eq. intros [= <-]. simpl.
        destruct (school_page l); [apply parse_tables_shape | done].
      - rewrite lookup_insert_ne by done. apply Hst. }
    intros Hs. apply (Hgen (∅, ∅)); [|done]. simpl. intros ? ?.
    by rewrite lookup_empty.
Qed.

(** A record of the recipe pass. *)
Lemma combo_entry_shape page combo_spells k x :
  scrape_combo_skills page = Some combo_spells →
  combo_spells !! k = Some x →
  ∃ ru_name ru_url en_url s1 s2,
    x = combo_record ru_name ru_url k en_url s1 s2.
Proof.
  destruct page as [tables|]; [|done]. simpl. intros [= <-].
  rewrite parse_combo_tables_records.
  intros [Hin | Hempty]%assign_all_lookup_Some; [|by rewrite lookup_empty in Hempty].
  unfold combo_page_records in Hin.
  apply list_elem_of_bind in Hin as (t & Hin & _).
  destruct (is_substring _ _); [|by apply elem_of_nil in Hin].
  apply list_elem_of_bind in Hin as (r & Hin & _).
  destruct r; simpl in Hin; [|by apply elem_of_nil in Hin].
  apply list_elem_of_singleton in Hin as [= -> ->]. by eauto 10.
Qed.

Lemma listing_record_fields ru_name ru_url en_name en_url tier school :
  let sp := listing_record ru_name ru_url en_name en_url tier school in
  sp !! "ru_name" = Some (JStr ru_name) ∧
  sp !! "ru_url" = Some (JStr ru_url) ∧
  sp !! "en_name" = Some (JStr en_name) ∧
  sp !! "en_url" = Some (JStr en_url) ∧
  sp !! "tier" = Some (JStr tier) ∧
  sp !! "primary_school" = Some (JStr school) ∧
  sp !! "is_combo" = None ∧
  sp !! "secondary_school" = None.
Proof. unfold listing_record. repeat split; by simplify_map_eq. Qed.

Lemma combo_record_fields ru_name ru_url en_name en_url s1 s2 :
  let sp := combo_record ru_name ru_url en_name en_url s1 s2 in
  sp !! "ru_name" = Some (JStr ru_name) ∧
  sp !! "ru_url" = Some (JStr ru_url) ∧
  sp !! "en_name" = Some (JStr en_name) ∧
  sp !! "en_url" = Some (JStr en_url) ∧
  sp !! "tier" = Some (JStr COMBO_TIER) ∧
  sp !! "primary_school" = Some (JStr s1) ∧
  sp !! "is_combo" = Some (JBool true) ∧
  sp !! "secondary_school" = Some (JStr s2).
Proof. unfold combo_record. repeat split; by simplify_map_eq. Qed.

(** Every record of the catalog that [main] writes is stored under its
    English name; outside the orphan bucket its primary school is the
    school that holds it; and it has a secondary school exactly when it is
    flagged as a combo skill, the flag then being true. *)
Theorem written_record_shape w s k sp :
  entry (schools (main w)) s k = Some sp →
  sp !! "en_name" = Some (JStr k) ∧
  (s ≠ COMBO_SCHOOL → sp !! "primary_school" = Some (JStr s)) ∧
  ((sp !! "is_combo" = None ∧ sp !! "secondary_school" = None) ∨
   (sp !! "is_combo" = Some (JBool true) ∧
    ∃ s2, sp !! "secondary_school" = Some (JStr s2))).
Proof.
  rewrite main_entry.
  assert (Hlisting : ∀ sp0, entry (listing_schools w) s k = Some sp0 →
    sp0 !! "en_name" = Some (JStr k) ∧
    sp0 !! "primary_school" = Some (JStr s) ∧
    sp0 !! "is_combo" = None ∧ sp0 !! "secondary_school" = None).
  { intros sp0 (_ & ru & url & en_url & tier & ->)%listing_entry_shape.
    destruct (listing_record_fields ru url k en_url tier s)
      as (_ & _ & ? & _ & _ & ? & ? & ?). by repeat split. }
  destruct (scrape_combo_skills (combo_page w)) as [combo_spells|] eqn:Hcombo.
  - unfold merged_entry.
    destruct (entry (listing_schools w) s k) as [sp0|] eqn:Hsp0.
    + destruct (Hlisting sp0 eq_refl) as (Hen & Hprim & Hflag & Hsec).
      destruct (combo_spells !! k) as [x|] eqn:Hx.
      * intros [= <-].
        destruct (combo_entry_shape _ _ _ _ Hcombo Hx)
          as (ru & url & en_url & s1 & s2 & ->).
        pose proof (combo_record_fields ru url k en_url s1 s2)
          as (_ & _ & _ & _ & _ & _ & _ & Hs2).
        split; [by rewrite merge_entry_other by compute_done|].
        split; [intros _; by rewrite merge_entry_other by compute_done|].
        right. split; [apply merge_entry_is_combo|]. exists s2.
        rewrite merge_entry_secondary. unfold py_get. by rewrite Hs2.
      * intros [= <-]. split; [done|]. split; [done|]. by left.
    + destruct (combo_spells !! k) as [x|] eqn:Hx; [|done].
      case_decide as Hnew; [|done]. intros [= <-].
      destruct Hnew as [_ Htarget].
      destruct (combo_entry_shape _ _ _ _ Hcombo Hx)
        as (ru & url & en_url & s1 & s2 & ->).
      pose proof (combo_record_fields ru url k en_url s1 s2)
        as (_ & _ & Hen & _ & _ & Hprim & Hflag & Hs2).
      split; [done|]. split; [|right; by eauto].
      intros Hs. unfold combo_target, py_get in Htarget.
      rewrite Hprim in Htarget. simpl in Htarget.
      destruct (nonempty s1 && _); congruence.
  - intros Hsp0. destruct (Hlisting sp Hsp0) as (? & ? & ? & ?).
    split; [done|]. split; [done|]. by left.
Qed.

(** A record of the recipe pass whose name no school lists is stored
    once: in its primary school when the listing passes have a school of
    that name, in the orphan bucket otherwise. *)
Theorem new_recipe_record_placement w combo_spells k x :
  scrape_combo_skills (combo_page w) = Some combo_spells →
  combo_spells !! k = Some x →
  (∀ s, entry (listing_schools w) s k = None) →
  ∀ s, entry (schools (main w)) s k =
       if decide (s = combo_target (listing_schools w) x) then Some x else None.
Proof.
  intros Hcombo Hx Hnew s. rewrite main_entry, Hcombo.
  unfold merged_entry. rewrite Hnew, Hx.
  pose proof (proj2 (spell_lookup_empty (listing_schools w) k
                       (listing_schools_no_bucket w)) Hnew) as Hempty.
  destruct (decide (s = combo_target (listing_schools w) x)) as [Hs|Hs].
  - by rewrite decide_True.
  - by rewrite decide_False by tauto.
Qed.

(** The schools of the catalog that [main] writes are schools of the
    school table, the special school and the orphan bucket. *)
Theorem written_school_keys w s :
  is_Some (schools (main w) !! s) →
  s ∈ RU_TO_EN_SCHOOL.*1 ∨ s = SPECIAL_SCHOOL ∨ s = COMBO_SCHOOL.
Proof.
  destruct (decide (s = COMBO_SCHOOL)) as [->|Hs]; [by auto|].
  unfold main. cbn [schools].
  destruct (scrape_combo_skills (combo_page w)) as [combo_spells|].
  - intros Hin.
    apply (proj2 (merge_combo_pass_entry _ combo_spells
                    (listing_schools_no_bucket w)) s Hs) in Hin.
    apply listing_schools_keys in Hin. tauto.
  - intros Hin. apply listing_schools_keys in Hin. tauto.
Qed.

End Shape.

Lemma written_record_shape_witness :
  MoreSamples.merged_fireball !! "en_name" = Some (JStr "Fireball") ∧
  (ScrapeSamples.PYRO ≠ Scrape.COMBO_SCHOOL →
   MoreSamples.merged_fireball !! "primary_school"
   = Some (JStr ScrapeSamples.PYRO)) ∧
  ((MoreSamples.merged_fireball !! "is_combo" = None ∧
    MoreSamples.merged_fireball !! "secondary_school" = None) ∨
   (MoreSamples.merged_fireball !! "is_combo" = Some (JBool true) ∧
    ∃ s2, MoreSamples.merged_fireball !! "secondary_school" = Some (JStr s2))).
Proof.
  apply (@written_record_shape ScrapeSamples.sample_env
           ScrapeSamples.recipe_for_listed_skill ScrapeSamples.PYRO "Fireball").
  compute_done.
Defined.

Lemma new_recipe_record_placement_witness :
  entry (schools (@Scrape.main ScrapeSamples.sample_env
                    MoreSamples.listing_and_new_recipe))
        ScrapeSamples.PYRO "Corpse Explosion"
  = if decide (ScrapeSamples.PYRO
               = combo_target
                   (@Scrape.listing_schools ScrapeSamples.sample_env
                      MoreSamples.listing_and_new_recipe)
                   MoreSamples.recipe_corpse_explosion)
    then Some MoreSamples.recipe_corpse_explosion else None.
Proof.
  refine (@new_recipe_record_placement ScrapeSamples.sample_env
            MoreSamples.listing_and_new_recipe
            {[ "Corpse Explosion" := MoreSamples.recipe_corpse_explosion ]}
            "Corpse Explosion" MoreSamples.recipe_corpse_explosion
            _ _ _ ScrapeSamples.PYRO).
  - compute_done.
  - compute_done.
  - apply spell_lookup_empty.
    + apply (@listing_schools_no_bucket ScrapeSamples.sample_env).
    + compute_done.
Defined.

Lemma written_school_keys_witness :
  ScrapeSamples.PYRO ∈ Scrape.RU_TO_EN_SCHOOL.*1 ∨
  ScrapeSamples.PYRO = Scrape.SPECIAL_SCHOOL ∨
  ScrapeSamples.PYRO = Scrape.COMBO_SCHOOL.
Proof.
  apply (@written_school_keys ScrapeSamples.sample_env
           MoreSamples.listing_and_new_recipe).
  compute_done.
Defined.

(** ** The order of the merge loop *)

Section MergeOrder.
Import Scrape.
Context `{Env}.

Lemma add_spell_attrs school name x (ss : gmap string school_data) s :
  sd_attrs <$> add_spell school name x ss !! s = sd_attrs <$> ss !! s.
Proof. rewrite add_spell_lookup. destruct (ss !! s); simpl; [by case_decide|done]. Qed.

Lemma merge_combo_found_attrs lookup name x (ss : gmap string school_data) s :
  lookup name ≠ ∅ →
  sd_attrs <$> merge_combo lookup name x ss !! s = sd_attrs <$> ss !! s.
Proof.
  intros Hfound. unfold merge_combo. rewrite decide_True by done.
  rewrite map_lookup_imap. destruct (ss !! s); simpl; [by case_decide|done].
Qed.

(** The attributes of the schools after an iteration for a name that no
    school lists. *)
Lemma merge_combo_new_attrs lookup name x ss0 (ss : gmap string school_data) :
  lookup name = ∅ →
  ss0 !! COMBO_SCHOOL = None →
  (∀ s, s ≠ COMBO_SCHOOL → is_Some (ss !! s) ↔ is_Some (ss0 !! s)) →
  (∀ s, s ≠ COMBO_SCHOOL →
        sd_attrs <$> merge_combo lookup name x ss !! s = sd_attrs <$> ss !! s) ∧
  sd_attrs <$> merge_combo lookup name x ss !! COMBO_SCHOOL
  = if decide (combo_target ss0 x = COMBO_SCHOOL)
    then Some (default {[ "en_name" := JStr "Crafted" ]}
                       (sd_attrs <$> ss !! COMBO_SCHOOL))
    else sd_attrs <$> ss !! COMBO_SCHOOL.
Proof.
  intros Hnew Hno Hdom. unfold merge_combo. rewrite decide_False by tauto.
  assert (Hbucket :
    (∀ s, s ≠ COMBO_SCHOOL →
       sd_attrs <$> add_spell COMBO_SCHOOL name x
                    (if decide (is_Some (ss !! COMBO_SCHOOL)) then ss
                     else <[COMBO_SCHOOL :=
                              {| sd_attrs := {[ "en_name" := JStr "Crafted" ]};
                                 sd_spells := ∅ |}]> ss) !! s
       = sd_attrs <$> ss !! s) ∧
    sd_attrs <$> add_spell COMBO_SCHOOL name x
                    (if decide (is_Some (ss !! COMBO_SCHOOL)) then ss
                     else <[COMBO_SCHOOL :=
                              {| sd_attrs := {[ "en_name" := JStr "Crafted" ]};
                                 sd_spells := ∅ |}]> ss) !! COMBO_SCHOOL
    = Some (default {[ "en_name" := JStr "Crafted" ]}
                    (sd_attrs <$> ss !! COMBO_SCHOOL))).
  { split.
    - intros s Hs. rewrite add_spell_attrs.
      case_decide; [done|]. by rewrite lookup_insert_ne.
    - rewrite add_spell_attrs. case_decide as Hhas.
      + destruct Hhas as [sd ->]. done.
      + rewrite lookup_insert_eq.
        destruct (ss !! COMBO_SCHOOL) as [sd|] eqn:E; [|done].
        destruct Hhas. by eexists. }
  assert (Hself : ∀ (A : Type) (a b : A),
            (if decide (COMBO_SCHOOL = COMBO_SCHOOL) then a else b) = a)
    by (intros; by rewrite decide_True).
  unfold combo_target.
  destruct (py_get x "primary_school") as [| | |primary].
  1-3: rewrite Hself; exact Hbucket.
  destruct (nonempty primary) eqn:Hne; cbn [andb];
    [|rewrite Hself; exact Hbucket].
  destruct (decide (primary = COMBO_SCHOOL)) as [->|Hp].
  - rewrite (bool_decide_eq_false_2 (is_Some (ss0 !! COMBO_SCHOOL)))
      by (rewrite Hno; by intros [? ?]).
    rewrite Hself.
    case_bool_decide as Hhas; [|exact Hbucket].
    destruct Hbucket as [Hb1 Hb2].
    rewrite (decide_True (P := is_Some (ss !! COMBO_SCHOOL))) in Hb1, Hb2 by done.
    by split.
  - rewrite (bool_decide_ext _ _ (Hdom primary Hp)).
    case_bool_decide as Hhas.
    + rewrite (decide_False (P := primary = COMBO_SCHOOL)) by done.
      split; [intros s _|]; apply add_spell_attrs.
    + rewrite Hself. exact Hbucket.
Qed.

(** What every state that the loop can reach looks like: its records are
    those of [merged_entry], the attributes of the schools of the listing
    passes are kept, and the orphan bucket, when there, has the attributes
    it was created with and is not empty. *)
Lemma merged_in_some_order_state ss m r :
  ss !! COMBO_SCHOOL = None →
  merged_in_some_order ss m r →
  (∀ s k, entry r s k = merged_entry ss m s k) ∧
  (∀ s, s ≠ COMBO_SCHOOL → sd_attrs <$> r !! s = sd_attrs <$> ss !! s) ∧
  (∀ sd, r !! COMBO_SCHOOL = Some sd →
         sd_attrs sd = {[ "en_name" := JStr "Crafted" ]} ∧
         ∃ k, is_Some (entry r COMBO_SCHOOL k)).
Proof.
  intros Hno. induction 1 as [|m r i x Hreach (IHentry & IHattrs & IHbucket) Hi].
  - split; [|split; [done|]].
    + intros s k. unfold merged_entry. rewrite lookup_empty.
      by destruct (entry ss s k).
    + intros sd. by rewrite Hno.
  - assert (Hdom : ∀ s, s ≠ COMBO_SCHOOL → is_Some (r !! s) ↔ is_Some (ss !! s)).
    { intros s Hs. rewrite <- !(fmap_is_Some sd_attrs). by rewrite IHattrs. }
    assert (Hold : ∀ k, k ≠ i → ∀ s,
              merged_entry ss (<[i:=x]> m) s k = merged_entry ss m s k).
    { intros k Hk s. unfold merged_entry. by rewrite lookup_insert_ne. }
    destruct (decide (spell_lookup ss i = ∅)) as [Hnew|Hfound].
    + destruct (merge_combo_new (spell_lookup ss) i x ss r Hnew Hno Hdom)
        as [Hentry _].
      destruct (merge_combo_new_attrs (spell_lookup ss) i x ss r Hnew Hno Hdom)
        as [Hattrs Hbucket].
      pose proof (proj1 (spell_lookup_empty ss i Hno) Hnew) as Hnone.
      assert (Hnow : ∀ s, merged_entry ss (<[i:=x]> m) s i
                = if decide (s = combo_target ss x) then Some x else None).
      { intros s. unfold merged_entry. rewrite Hnone, lookup_insert_eq.
        destruct (decide (s = combo_target ss x)).
        - by rewrite decide_True.
        - by rewrite decide_False by tauto. }
      split; [|split].
      * intros s k. rewrite Hentry.
        destruct (decide (k = i)) as [->|Hk].
        -- rewrite Hnow. destruct (decide (s = combo_target ss x)).
           ++ by rewrite decide_True.
           ++ rewrite decide_False by tauto. rewrite IHentry.
              unfold merged_entry. by rewrite Hnone, Hi.
        -- rewrite decide_False by tauto. by rewrite IHentry, Hold.
      * intros s Hs. by rewrite Hattrs, IHattrs.
      * intros sd Hsd.
        assert (sd_attrs <$> merge_combo (spell_lookup ss) i x r !! COMBO_SCHOOL
                = Some (sd_attrs sd)) as Hsd' by (by rewrite Hsd).
        rewrite Hbucket in Hsd'.
        destruct (decide (combo_target ss x = COMBO_SCHOOL)) as [Ht|Ht].
        -- split.
           ++ destruct (r !! COMBO_SCHOOL) as [sd0|] eqn:Hsd0; simpl in Hsd'.
              ** destruct (IHbucket sd0 eq_refl) as [Hcrafted _]. congruence.
              ** congruence.
           ++ exists i. rewrite Hentry. by rewrite decide_True.
        -- destruct (r !! COMBO_SCHOOL) as [sd0|] eqn:Hsd0; [|done].
           destruct (IHbucket sd0 eq_refl) as [Hcrafted [k Hk]].
           simpl in Hsd'. split; [congruence|]. exists k. rewrite Hentry.
           rewrite decide_False; [done|]. intros [Heq _]. by apply Ht.
    + split; [|split].
      * intros s k. rewrite merge_combo_found_entry by done.
        rewrite IHentry. destruct (decide (k = i)) as [->|Hk].
        -- unfold merged_entry. rewrite Hi, lookup_insert_eq.
           destruct (entry ss s i) as [sp|] eqn:Hsp.
           ++ rewrite decide_True; [done|]. split; [|done].
              apply spell_lookup_elem. split; [|by rewrite Hsp].
              intros ->. unfold entry in Hsp. by rewrite Hno in Hsp.
           ++ rewrite (decide_False (P := spell_lookup ss i = ∅ ∧ _)) by tauto.
              by case_decide.
        -- rewrite decide_False by tauto. by rewrite Hold.
      * intros s Hs. by rewrite merge_combo_found_attrs, IHattrs.
      * intros sd Hsd.
        assert (sd_attrs <$> r !! COMBO_SCHOOL = Some (sd_attrs sd)) as Hsd'.
        { rewrite <- (merge_combo_found_attrs (spell_lookup ss) i x) by done.
          by rewrite Hsd. }
        destruct (r !! COMBO_SCHOOL) as [sd0|] eqn:Hsd0; [|done].
        destruct (IHbucket sd0 eq_refl) as [Hcrafted [k Hk]].
        simpl in Hsd'. split; [congruence|]. exists k.
        rewrite merge_combo_found_entry by done.
        rewrite decide_False; [done|]. intros [Hin _].
        by apply spell_lookup_elem in Hin as [? _].
Qed.

(** Two states reached from the same records, in whatever orders, are the
    same. *)
Lemma merged_in_some_order_unique ss m r1 r2 :
  ss !! COMBO_SCHOOL = None →
  merged_in_some_order ss m r1 → merged_in_some_order ss m r2 → r1 = r2.
Proof.
  intros Hno H1 H2.
  destruct (merged_in_some_order_state ss m r1 Hno H1) as (He1 & Ha1 & Hb1).
  destruct (merged_in_some_order_state ss m r2 Hno H2) as (He2 & Ha2 & Hb2).
  assert (Hsame : ∀ s sd1 sd2,
            r1 !! s = Some sd1 → r2 !! s = Some sd2 →
            sd_attrs sd1 = sd_attrs sd2 → sd1 = sd2).
  { intros s [a1 sp1] [a2 sp2] Hs1 Hs2 Hattrs. simpl in Hattrs. subst a2.
    f_equal. apply map_eq. intros k.
    pose proof (He1 s k) as E1. pose proof (He2 s k) as E2.
    unfold entry in E1, E2. rewrite Hs1 in E1. rewrite Hs2 in E2.
    simpl in E1, E2. congruence. }
  apply map_eq. intros s. destruct (decide (s = COMBO_SCHOOL)) as [->|Hs].
  - destruct (r1 !! COMBO_SCHOOL) as [sd1|] eqn:Hs1;
      destruct (r2 !! COMBO_SCHOOL) as [sd2|] eqn:Hs2; [| | |done].
    + f_equal. apply (Hsame COMBO_SCHOOL); [done..|].
      destruct (Hb1 sd1 eq_refl) as [-> _]. by destruct (Hb2 sd2 eq_refl) as [-> _].
    + destruct (Hb1 sd1 eq_refl) as [_ [k Hk]]. rewrite He1, <- He2 in Hk.
      unfold entry in Hk. rewrite Hs2 in Hk. by destruct Hk.
    + destruct (Hb2 sd2 eq_refl) as [_ [k Hk]]. rewrite He2, <- He1 in Hk.
      unfold entry in Hk. rewrite Hs1 in Hk. by destruct Hk.
  - pose proof (Ha1 s Hs) as A1. pose proof (Ha2 s Hs) as A2.
    rewrite <- A2 in A1.
    destruct (r1 !! s) as [sd1|] eqn:Hs1; destruct (r2 !! s) as [sd2|] eqn:Hs2;
      try done.
    f_equal. apply (Hsame s); [done..|]. by injection A1.
Qed.

(** The loop as [main] runs it, and the loop over a list of records. *)
Lemma merge_combo_pass_reached ss combo_spells :
  merged_in_some_order ss combo_spells (merge_combo_pass ss combo_spells).
Proof.
  unfold merge_combo_pass.
  apply (map_fold_weak_ind (λ r m, merged_in_some_order ss m r)).
  - constructor.
  - intros i x m r Hi Hreach. by constructor.
Qed.

Lemma merge_in_order_reached ss records :
  NoDup records.*1 →
  merged_in_some_order ss (list_to_map records) (merge_in_order ss records).
Proof.
  unfold merge_in_order.
  induction records as [|[k x] records IH] using rev_ind; intros Hnd.
  - constructor.
  - rewrite fmap_app in Hnd. apply NoDup_app in Hnd as (Hnd & Hk & _).
    rewrite foldl_snoc. simpl.
    assert (k ∉ records.*1) as Hfresh.
    { intros Hin. apply (Hk k Hin). simpl. apply list_elem_of_here. }
    rewrite list_to_map_snoc by done.
    constructor; [by apply IH|]. by apply not_elem_of_list_to_map_1.
Qed.

(** The catalog that [main] writes does not depend on the order in which
    the merge loop visits the records of the recipe pass: run over any
    list of these records without repetition, first to last, the loop ends
    in the schools of that catalog. *)
Theorem merge_order_immaterial w records :
  NoDup records.*1 →
  scrape_combo_skills (combo_page w) = Some (list_to_map records) →
  schools (main w) = merge_in_order (listing_schools w) records.
Proof.
  intros Hnd Hcombo. unfold main. cbn [schools]. rewrite Hcombo.
  apply (merged_in_some_order_unique (listing_schools w) (list_to_map records)).
  - apply listing_schools_no_bucket.
  - apply merge_combo_pass_reached.
  - by apply merge_in_order_reached.
Qed.

End MergeOrder.

Lemma merge_order_immaterial_witness :
  schools (@Scrape.main ScrapeSamples.sample_env OrderSamples.two_recipes)
  = merge_in_order
      (@Scrape.listing_schools ScrapeSamples.sample_env OrderSamples.two_recipes)
      [("Corpse Explosion", MoreSamples.recipe_corpse_explosion);
       ("Fireball", ScrapeSamples.recipe_fireball)].
Proof.
  apply (@merge_order_immaterial ScrapeSamples.sample_env).
  - compute_done.
  - compute_done.
Defined.

(** ** More on the batch fetch *)

Section FetchMore.
Import BatchFetch.
Context `{Web}.

(** The results of the loop: what was there before, and the records with
    data. *)
Lemma process_all_results total spells i st st' name r :
  process_all total i spells st = Some st' →
  results st' !! name = Some r →
  results st !! name = Some r ∨
  ∃ sp out, sp ∈ spells ∧ BatchFetch.name sp = name ∧
            record_outcome sp = Some (r, out) ∧ has_data r = true.
Proof.
  revert i st. induction spells as [|sp spells IH]; intros i st.
  - intros [= <-]. by left.
  - cbn [process_all]. rewrite process_spell_outcome.
    destruct (record_outcome sp) as [[result out]|] eqn:Hout; simpl; [|done].
    intros Hrest Hr. destruct (IH _ _ Hrest Hr) as [Hold | (sp' & out' & Hin & ?)].
    + destruct (has_data result) eqn:Hdata; simpl in Hold.
      * destruct (decide (BatchFetch.name sp = name)) as [Hname|Hname].
        -- rewrite Hname, lookup_insert_eq in Hold. injection Hold as ->.
           right. exists sp, out. split; [apply list_elem_of_here | done].
        -- rewrite lookup_insert_ne in Hold by done. by left.
      * by left.
    + right. exists sp', out'. split; [by apply list_elem_of_further | done].
Qed.

Lemma process_all_failed total spells i st st' name :
  process_all total i spells st = Some st' →
  (∀ sp, sp ∈ spells → BatchFetch.name sp = name → record_failed sp) →
  results st' !! name = results st !! name.
Proof.
  revert i st. induction spells as [|sp spells IH]; intros i st.
  - by intros [= <-].
  - cbn [process_all]. rewrite process_spell_outcome.
    destruct (record_outcome sp) as [[result out]|] eqn:Hout; simpl; [|done].
    intros Hrest Hfailed. rewrite (IH _ _ Hrest).
    + destruct (has_data result) eqn:Hdata; simpl; [|done].
      destruct (decide (BatchFetch.name sp = name)) as [Hname|Hname].
      * destruct (Hfailed sp (list_elem_of_here _ _) Hname)
          as (r & o & Hr & Hd). congruence.
      * by rewrite lookup_insert_ne.
    + intros sp' Hin. apply Hfailed. by apply list_elem_of_further.
Qed.

(** The results of a completed run come from the records of the batch. *)
Lemma main_results data argv1 existing saved st name r :
  main (Some data) argv1 existing = Completed saved st →
  results st !! name = Some r →
  has_data r = true ∧
  ∃ sp out, sp ∈ load_spells data argv1 ∧ BatchFetch.name sp = name ∧
            record_outcome sp = Some (r, out).
Proof.
  unfold main.
  destruct (process_all _ _ _ _) as [st0|] eqn:Hloop; [|done].
  intros [= <- <-]. cbn [results]. intros Hr.
  destruct (process_all_results _ _ _ _ _ name r Hloop Hr)
    as [Hempty | (sp & out & Hin & Hname & Hout & Hdata)].
  - simpl in Hempty. by rewrite lookup_empty in Hempty.
  - split; [done|]. by exists sp, out.
Qed.

(** Every infobox that a completed run adds has an infobox or an icon and
    is the result of a record of the batch; and for a name whose records
    all failed, or which is not in the batch, the entry of
    [infoboxes.json] is left as it was. *)
Theorem saved_infoboxes data argv1 existing saved st :
  main (Some data) argv1 existing = Completed saved st →
  (∀ name r, results st !! name = Some r →
     saved !! name = Some r ∧ has_data r = true ∧
     ∃ sp out, sp ∈ load_spells data argv1 ∧ BatchFetch.name sp = name ∧
               record_outcome sp = Some (r, out)) ∧
  (∀ name,
     (∀ sp, sp ∈ load_spells data argv1 → BatchFetch.name sp = name →
            record_failed sp) →
     saved !! name = default ∅ existing !! name).
Proof.
  intros Hmain. split.
  - intros name r Hr. split; [|by eapply main_results].
    unfold main in Hmain.
    destruct (process_all _ _ _ _) as [st0|]; [|done].
    injection Hmain as <- <-. by apply lookup_union_Some_l.
  - intros name Hfailed. unfold main in Hmain.
    destruct (process_all _ _ _ _) as [st0|] eqn:Hloop; [|done].
    injection Hmain as <- <-. unfold save_infoboxes.
    rewrite lookup_union_r; [done|].
    by rewrite (process_all_failed _ _ _ _ _ name Hloop Hfailed).
Qed.

(** The result of a record takes its URL and its infobox from the English
    wiki.  Its icon is the icon of the English wiki when there is one,
    unless the spell is in [PREFER_RU]; for a spell of [PREFER_RU] it is
    the icon of the Russian wiki when there is one. *)
Theorem icon_choice sp at_url r out :
  build_url (clean_spell_name (name sp)) (en_url sp) = Some at_url →
  record_outcome sp = Some (r, out) →
  (url r, infobox_html r) =
    match fextralife at_url with
    | Infobox final_url html _ => (final_url, html)
    | _ => (at_url, "")
    end ∧
  (∀ final_url html src,
     fextralife at_url = Infobox final_url html (Some src) → src ≠ "" →
     name sp ∉ PREFER_RU → icon r = Some src) ∧
  (∀ u src,
     ru_url sp = JStr u → u ≠ "" → fandom u = RuPage (Some src) → src ≠ "" →
     name sp ∈ PREFER_RU → icon r = Some src).
Proof.
  intros Hurl. unfold record_outcome. rewrite Hurl. simpl.
  unfold fetch_infobox, with_ru_icon, fetch_ru_icon, some_nonempty.
  destruct (fextralife at_url) as [| |f h [src|]] eqn:Hpage;
    destruct (ru_url sp) as [|[]|n|u] eqn:Hru; simpl;
    repeat match goal with
    | |- context [String.eqb ?s ""] => destruct (String.eqb_spec s ""); simpl
    | |- context [Z.eqb ?n 0] => destruct (Z.eqb n 0); simpl
    | |- context [fandom ?u] => destruct (fandom u) as [|[?|]] eqn:?; simpl
    | |- context [bool_decide ?P] => destruct (bool_decide_reflect P); simpl
    end;
    intros ?; simplify_eq/=; repeat split; intros; simplify_eq/=;
    congruence.
Qed.

End FetchMore.

(** ** Spell names and the school filter *)

Lemma string_length_app (a b : string) :
  String.length (a +:+ b) = String.length a + String.length b.
Proof. induction a as [|c a IH]; simpl; [done | by rewrite IH]. Qed.

Lemma substring_all (s : string) : substring 0 (String.length s) s = s.
Proof. induction s as [|c s IH]; simpl; [done | by rewrite IH]. Qed.

Lemma substring_app_l (a b : string) :
  substring 0 (String.length a) (a +:+ b) = a.
Proof.
  induction a as [|c a IH]; simpl; [by destruct b | by rewrite IH].
Qed.

Lemma substring_app_r (a b : string) :
  substring (String.length a) (String.length b) (a +:+ b) = b.
Proof. induction a as [|c a IH]; simpl; [apply substring_all | done]. Qed.

Lemma substring_split (n : nat) (s : string) :
  n ≤ String.length s →
  s = substring 0 n s +:+ substring n (String.length s - n) s.
Proof.
  revert n. induction s as [|c s IH]; intros [|n] Hn; simpl in *; try lia.
  - done.
  - by rewrite substring_all.
  - change (String c s = String c (substring 0 n s
                                 +:+ substring n (String.length s - n) s)).
    f_equal. apply IH. lia.
Qed.

(** [s.endswith(suffix)] holds exactly for the strings that are some
    prefix followed by the suffix. *)
Lemma ends_with_app suffix s :
  BatchFetch.ends_with suffix s = true ↔ ∃ p, s = p +:+ suffix.
Proof.
  unfold BatchFetch.ends_with. rewrite andb_true_iff, bool_decide_eq_true.
  rewrite String.eqb_eq. split.
  - intros [Hlen Hsub].
    exists (substring 0 (String.length s - String.length suffix) s).
    pose proof (substring_split (String.length s - String.length suffix) s)
      as Hsplit.
    replace (String.length s - (String.length s - String.length suffix))
      with (String.length suffix) in Hsplit by lia.
    rewrite Hsub in Hsplit. apply Hsplit. lia.
  - intros [p ->]. rewrite string_length_app. split; [lia|].
    replace (String.length p + String.length suffix - String.length suffix)
      with (String.length p) by lia.
    apply substring_app_r.
Qed.

(** [clean_spell_name] removes one " (Original Sin 2)" from the end of a
    name, and returns every other name as it is. *)
Theorem clean_spell_name_suffix :
  (∀ p, BatchFetch.clean_spell_name (p +:+ BatchFetch.SUFFIX) = p) ∧
  (∀ s, (∀ p, s ≠ p +:+ BatchFetch.SUFFIX) →
        BatchFetch.clean_spell_name s = s).
Proof.
  unfold BatchFetch.clean_spell_name. split.
  - intros p.
    rewrite (proj2 (ends_with_app BatchFetch.SUFFIX (p +:+ BatchFetch.SUFFIX)))
      by by exists p.
    rewrite string_length_app.
    replace (String.length p + String.length BatchFetch.SUFFIX
             - String.length BatchFetch.SUFFIX) with (String.length p) by lia.
    apply substring_app_l.
  - intros s Hs. destruct (BatchFetch.ends_with _ s) eqn:Hends; [|done].
    apply ends_with_app in Hends as [p ->]. by destruct (Hs p).
Qed.

Section Filter.
Import BatchFetch.
Context `{Web}.

(** The list of [load_spells]: one element for every record of every
    selected school. *)
Lemma load_spells_elem data target_school sp :
  sp ∈ load_spells data target_school ↔
  ∃ s sd spd,
    schools data !! s = Some sd ∧ sd_spells sd !! name sp = Some spd ∧
    (some_nonempty target_school = true → target_school = Some s) ∧
    en_url sp = py_get spd "en_url" ∧ ru_url sp = py_get spd "ru_url".
Proof.
  unfold load_spells. rewrite list_elem_of_bind. split.
  - intros ([s sd] & Hin & Hs). apply elem_of_map_to_list in Hs.
    destruct (some_nonempty target_school) eqn:Hfilter; simpl in Hin.
    + case_bool_decide as Hne; simpl in Hin; [by apply elem_of_nil in Hin|].
      apply list_elem_of_bind in Hin as ([k spd] & Hsp & Hk).
      apply elem_of_map_to_list in Hk. apply list_elem_of_singleton in Hsp as ->.
      exists s, sd, spd.
      repeat split; try done;
        intros _; by destruct (decide (Some s = target_school)).
    + apply list_elem_of_bind in Hin as ([k spd] & Hsp & Hk).
      apply elem_of_map_to_list in Hk. apply list_elem_of_singleton in Hsp as ->.
      exists s, sd, spd. by repeat split.
  - intros (s & sd & spd & Hs & Hk & Hfilter & Hen & Hru).
    exists (s, sd). split; [|by apply elem_of_map_to_list].
    assert (some_nonempty target_school
            && bool_decide (Some s ≠ target_school) = false) as ->.
    { destruct (some_nonempty target_school); [|done].
      rewrite Hfilter by done. simpl. by apply bool_decide_eq_false_2; intros []. }
    apply list_elem_of_bind. exists (name sp, spd).
    split; [|by apply elem_of_map_to_list].
    apply list_elem_of_singleton. destruct sp; simpl in *. by subst.
Qed.

(** With a school filter, a run fetches the records of that school only;
    when the filter names no school of the catalog, nothing is fetched,
    the infobox file keeps its content and the exit status is 0.  An empty
    filter selects every school. *)
Theorem school_filter data t existing saved st :
  main (Some data) (Some t) existing = Completed saved st →
  t ≠ "" →
  (∀ name r, results st !! name = Some r →
     ∃ sd, schools data !! t = Some sd ∧ is_Some (sd_spells sd !! name)) ∧
  (schools data !! t = None →
     saved = default ∅ existing ∧ exit_code (Completed saved st) = 0%Z).
Proof.
  intros Hmain Ht.
  assert (some_nonempty (Some t) = true) as Hfilter.
  { simpl. apply negb_true_iff, String.eqb_neq. done. }
  split.
  - intros name r Hr.
    destruct (main_results _ _ _ _ _ _ _ Hmain Hr)
      as (_ & sp & out & Hin & Hname & _).
    apply load_spells_elem in Hin as (s & sd & spd & Hs & Hk & Hsel & _).
    specialize (Hsel Hfilter) as [= <-]. exists sd. split; [done|].
    rewrite <- Hname. by eexists.
  - intros Hnone.
    assert (load_spells data (Some t) = []) as Hempty.
    { destruct (load_spells data (Some t)) as [|sp l] eqn:Hl; [done|].
      assert (sp ∈ load_spells data (Some t)) as Hin
        by (rewrite Hl; apply list_elem_of_here).
      apply load_spells_elem in Hin as (s & sd & spd & Hs & _ & Hsel & _).
      specialize (Hsel Hfilter) as [= <-]. congruence. }
    unfold main in Hmain. rewrite Hempty in Hmain. simpl in Hmain.
    injection Hmain as <- <-. split; [|done].
    unfold save_infoboxes. simpl. apply map_empty_union.
Qed.

End Filter.

Lemma saved_infoboxes_witness :
  (∀ name r,
     BatchFetch.results (MoreFetchSamples.fireball_run None) !! name = Some r →
     MoreFetchSamples.fireball_saved !! name = Some r ∧ has_data r = true ∧
     ∃ sp out,
       sp ∈ BatchFetch.load_spells FetchSamples.fireball_catalog None ∧
       BatchFetch.name sp = name ∧
       @record_outcome FetchSamples.english_wiki_down sp = Some (r, out)) ∧
  (∀ name,
     (∀ sp, sp ∈ BatchFetch.load_spells FetchSamples.fireball_catalog None →
            BatchFetch.name sp = name →
            @record_failed FetchSamples.english_wiki_down sp) →
     MoreFetchSamples.fireball_saved !! name
     = default ∅ (None : option (gmap string BatchFetch.infobox)) !! name).
Proof.
  apply (@saved_infoboxes FetchSamples.english_wiki_down
           FetchSamples.fireball_catalog None None).
  compute_done.
Defined.

Lemma icon_choice_witness :
  (BatchFetch.url
     {| BatchFetch.url := MoreFetchSamples.fireball_url;
        BatchFetch.infobox_html := "<div id=infobox></div>";
        BatchFetch.icon := Some MoreFetchSamples.fextralife_icon |},
   BatchFetch.infobox_html
     {| BatchFetch.url := MoreFetchSamples.fireball_url;
        BatchFetch.infobox_html := "<div id=infobox></div>";
        BatchFetch.icon := Some MoreFetchSamples.fextralife_icon |}) =
    (MoreFetchSamples.fireball_url, "<div id=infobox></div>") ∧
  (∀ final_url html src,
     @BatchFetch.fextralife MoreFetchSamples.both_wikis_up
       MoreFetchSamples.fireball_url
     = BatchFetch.Infobox final_url html (Some src) → src ≠ "" →
     "Fireball" ∉ BatchFetch.PREFER_RU →
     Some MoreFetchSamples.fextralife_icon = Some src) ∧
  (∀ u src,
     BatchFetch.ru_url MoreFetchSamples.fireball_ref = JStr u → u ≠ "" →
     @BatchFetch.fandom MoreFetchSamples.both_wikis_up u
     = BatchFetch.RuPage (Some src) → src ≠ "" →
     "Fireball" ∈ BatchFetch.PREFER_RU →
     Some MoreFetchSamples.fextralife_icon = Some src).
Proof.
  apply (@icon_choice MoreFetchSamples.both_wikis_up
           MoreFetchSamples.fireball_ref MoreFetchSamples.fireball_url
           {| BatchFetch.url := MoreFetchSamples.fireball_url;
              BatchFetch.infobox_html := "<div id=infobox></div>";
              BatchFetch.icon := Some MoreFetchSamples.fextralife_icon |}
           [BatchFetch.RuIcon "Огненный_шар"]);
    compute_done.
Defined.

Lemma school_filter_witness :
  (∀ name r,
     BatchFetch.results
       (MoreFetchSamples.fireball_run (Some "Пирокинетика")) !! name = Some r →
     ∃ sd, schools FetchSamples.fireball_catalog !! "Пирокинетика" = Some sd ∧
           is_Some (sd_spells sd !! name)) ∧
  (schools FetchSamples.fireball_catalog !! "Пирокинетика" = None →
     MoreFetchSamples.fireball_saved
     = default ∅ (None : option (gmap string BatchFetch.infobox)) ∧
     BatchFetch.exit_code
       (BatchFetch.Completed MoreFetchSamples.fireball_saved
          (MoreFetchSamples.fireball_run (Some "Пирокинетика"))) = 0%Z).
Proof.
  apply (@school_filter FetchSamples.english_wiki_down
           FetchSamples.fireball_catalog "Пирокинетика" None);
    compute_done.
Defined.

(** ** The identifiers of earlier runs *)

Section ExistingMappings.
Import Mappings.

Lemma catalog_records_entry data en sp :
  (en, sp) ∈ catalog_records data ↔
  ∃ s, entry (schools data) s en = Some sp.
Proof.
  unfold catalog_records, entry. rewrite list_elem_of_bind. split.
  - intros ([s sd] & Hin & Hs). apply elem_of_map_to_list in Hin, Hs.
    exists s. by rewrite Hs.
  - intros [s Hs]. destruct (schools data !! s) as [sd|] eqn:Hsd; [|done].
    exists (s, sd). split; by apply elem_of_map_to_list.
Qed.

Lemma add_mapping_lookup mapping kv ru :
  add_mapping mapping kv !! ru =
  if decide (py_get kv.2 "ru_name" = JStr ru ∧ ru ≠ "")
  then Some kv.1 else mapping !! ru.
Proof.
  unfold add_mapping, Scrape.nonempty.
  destruct (py_get kv.2 "ru_name") as [| | |r];
    try (by rewrite decide_False by (by intros [? _])).
  destruct (String.eqb_spec r "") as [->|Hr]; simpl.
  - rewrite decide_False; [done|]. by intros [[= <-] ?].
  - destruct (decide (r = ru)) as [->|Hne].
    + by rewrite lookup_insert_eq, decide_True.
    + rewrite lookup_insert_ne by done.
      rewrite decide_False; [done|]. by intros [[= ?] _].
Qed.

(** A name of the mapping was put there by a record. *)
Lemma mappings_sound records mapping ru en :
  foldl add_mapping mapping records !! ru = Some en →
  mapping !! ru = Some en ∨
  ∃ sp, (en, sp) ∈ records ∧ py_get sp "ru_name" = JStr ru ∧ ru ≠ "".
Proof.
  revert mapping. induction records as [|[k sp] records IH]; intros mapping.
  - by left.
  - simpl. intros Hl. apply IH in Hl as [Hl | (sp' & Hin & ?)].
    + rewrite add_mapping_lookup in Hl. simpl in Hl.
      case_decide as Hkv.
      * injection Hl as ->. right. exists sp. split; [left | done].
      * by left.
    + right. exists sp'. split; [by right | done].
Qed.

(** Every non-empty Russian name of a record is in the mapping. *)
Lemma mappings_complete records mapping ru en sp :
  (en, sp) ∈ records → py_get sp "ru_name" = JStr ru → ru ≠ "" →
  is_Some (foldl add_mapping mapping records !! ru).
Proof.
  intros Hin Hru Hne.
  assert (∀ records mapping,
    is_Some (mapping !! ru) →
    is_Some (foldl add_mapping mapping records !! ru)) as Hkeep.
  { clear. intros records. induction records as [|kv records IH]; [done|].
    intros mapping Hm. simpl. apply IH. rewrite add_mapping_lookup.
    by case_decide. }
  revert mapping. induction records as [|kv records IH]; intros mapping.
  - by apply elem_of_nil in Hin.
  - simpl. apply elem_of_cons in Hin as [<- | Hin]; [|by apply IH].
    apply Hkeep. rewrite add_mapping_lookup, decide_True; by eauto.
Qed.

(** When one key only has the Russian name, the mapping gives that key. *)
Lemma mappings_only_key records mapping ru en :
  only_key records ru en → ru ≠ "" →
  mapping !! ru = Some en ∨
    (∃ sp, (en, sp) ∈ records ∧ py_get sp "ru_name" = JStr ru) →
  foldl add_mapping mapping records !! ru = Some en.
Proof.
  unfold only_key. intros Honly Hne. revert mapping.
  induction Honly as [|kv records Hkv _ IH]; intros mapping.
  - intros [Hm | (sp & Hin & _)]; [done | by apply elem_of_nil in Hin].
  - intros Hsome. simpl. apply IH. rewrite add_mapping_lookup.
    case_decide as Hthis.
    + left. f_equal. apply Hkv, Hthis.
    + destruct Hsome as [Hm | (sp & Hin & Hsp)]; [by left|].
      apply elem_of_cons in Hin as [<- | Hin].
      * destruct Hthis. by split.
      * right. by exists sp.
Qed.

(** [load_existing_mappings] maps a Russian name to a key of the catalog
    under which a record with that name is stored, and leaves out only the
    names that no record has; an empty name is no name. *)
Theorem existing_mappings data records ru :
  visits data records →
  (∀ en, load_existing_mappings (Some records) !! ru = Some en →
     ∃ s sp, entry (schools data) s en = Some sp ∧
             py_get sp "ru_name" = JStr ru ∧ ru ≠ "") ∧
  (load_existing_mappings (Some records) !! ru = None →
     ∀ s en sp, entry (schools data) s en = Some sp →
                py_get sp "ru_name" = JStr ru → ru = "").
Proof.
  intros [Hsub Hsup]. simpl. split.
  - intros en Hl.
    apply mappings_sound in Hl as [Hl | (sp & Hin & Hru & Hne)].
    + by rewrite lookup_empty in Hl.
    + apply Hsub, catalog_records_entry in Hin as [s Hs]. by exists s, sp.
  - intros Hl s en sp Hs Hru. destruct (decide (ru = "")) as [|Hne]; [done|].
    assert ((en, sp) ∈ records) as Hin.
    { apply Hsup, catalog_records_entry. by exists s. }
    destruct (mappings_complete records ∅ ru en sp Hin Hru Hne) as [? Hsome].
    congruence.
Qed.

Context `{Scrape.Env}.

(** A skill that the catalog of the earlier run stores under one key keeps
    that key when it is scraped again, whatever its page now gives as the
    English name. *)
Theorem rescrape_keeps_identifier data records s en sp ru page_en :
  visits data records →
  Scrape.EXISTING_MAPPINGS = load_existing_mappings (Some records) →
  entry (schools data) s en = Some sp →
  py_get sp "ru_name" = JStr ru → ru ≠ "" → en ≠ "" →
  only_key records ru en →
  Scrape.resolve_en_name ru page_en = en.
Proof.
  intros [_ Hsup] Hmap Hs Hru Hne Hen Honly.
  unfold Scrape.resolve_en_name. rewrite Hmap. simpl.
  rewrite (mappings_only_key records ∅ ru en Honly Hne).
  - assert (Scrape.nonempty en = true) as Hn.
    { unfold Scrape.nonempty. by rewrite (proj2 (String.eqb_neq en "") Hen). }
    simpl. rewrite Hn. by rewrite Hn.
  - right. exists sp. split; [|done].
    apply Hsup, catalog_records_entry. by exists s.
Qed.

End ExistingMappings.

Lemma existing_mappings_witness :
  (∀ en,
     Mappings.load_existing_mappings (Some MappingSamples.earlier_records)
       !! "Огненный шар" = Some en →
     ∃ s sp, entry (schools MappingSamples.earlier_catalog) s en = Some sp ∧
             py_get sp "ru_name" = JStr "Огненный шар" ∧ "Огненный шар" ≠ "") ∧
  (Mappings.load_existing_mappings (Some MappingSamples.earlier_records)
     !! "Огненный шар" = None →
   ∀ s en sp, entry (schools MappingSamples.earlier_catalog) s en = Some sp →
              py_get sp "ru_name" = JStr "Огненный шар" → "Огненный шар" = "").
Proof.
  apply (existing_mappings MappingSamples.earlier_catalog
           MappingSamples.earlier_records "Огненный шар").
  compute_done.
Defined.

Lemma rescrape_keeps_identifier_witness :
  @Scrape.resolve_en_name MappingSamples.second_run_env
    "Огненный шар" (Some "Fire Ball") = "Fireball".
Proof.
  apply (@rescrape_keeps_identifier MappingSamples.second_run_env
           MappingSamples.earlier_catalog MappingSamples.earlier_records
           ScrapeSamples.PYRO "Fireball" MappingSamples.stored_fireball);
    compute_done.
Defined.

(** ** Item identifiers *)

Section ItemIds.
Import CreatePreset.

Ltac by_cases_on c :=
  destruct c as [[] [] [] [] [] [] [] []]; vm_compute; intros; congruence.

Lemma lower_char_id_char c : is_alnum c = true → id_char (lower_char c) = true.
Proof. by_cases_on c. Qed.

Lemma lower_char_alnum c : is_alnum (lower_char c) = is_alnum c.
Proof. by_cases_on c. Qed.

Lemma id_char_lower c : id_char c = true → lower_char c = c.
Proof. by_cases_on c. Qed.

Lemma id_char_alnum c : id_char c = true → c ≠ underscore → is_alnum c = true.
Proof. by_cases_on c. Qed.

Lemma upper_alnum c : is_upper c = true → is_alnum c = true.
Proof. by_cases_on c. Qed.

Lemma alnum_not_underscore c : is_alnum c = true → c ≠ underscore.
Proof. by intros Hc ->. Qed.

Lemma eqb_underscore c : Ascii.eqb c underscore = true ↔ c = underscore.
Proof. apply Ascii.eqb_eq. Qed.

Lemma no_double_cons c s :
  no_double (c :: s) ↔
  (c = underscore → head s ≠ Some underscore) ∧ no_double s.
Proof.
  unfold no_double. split.
  - intros Hcs. split.
    + intros -> Hs. apply (Hcs 0); [done|]. by destruct s.
    + intros i. apply (Hcs (S i)).
  - intros [Hc Hs] [|i]; simpl.
    + intros [= ->]. destruct s; [done|]. by apply Hc.
    + apply Hs.
Qed.

Lemma no_double_nil : no_double [].
Proof. by intros i. Qed.

Lemma lower_char_not_upper c : is_upper (lower_char c) = false.
Proof. by_cases_on c. Qed.

Lemma alnum_id_char c : is_alnum c = true → is_upper c = false → id_char c = true.
Proof. by_cases_on c. Qed.

(** [lower], one step. *)
Lemma lower_cons c1 rest :
  lower (c1 :: rest) =
  match rest with
  | [] => [lower_char c1]
  | c2 :: rest2 =>
      if is_dotted_I c1 c2
      then "i"%char :: COMBINING_DOT ++ lower rest2
      else
        match rest2 with
        | [] => lower_char c1 :: lower rest
        | c3 :: rest3 =>
            if is_kelvin_sign c1 c2 c3 then "k"%char :: lower rest3
            else lower_char c1 :: lower rest
        end
  end.
Proof. by destruct rest as [|c2 [|c3 rest3]]. Qed.

Lemma is_dotted_I_true c1 c2 :
  is_dotted_I c1 c2 = true ↔ [c1; c2] = DOTTED_I.
Proof.
  unfold is_dotted_I, DOTTED_I. rewrite andb_true_iff, !Ascii.eqb_eq.
  split; [by intros [-> ->] | by intros [= -> ->]].
Qed.

Lemma is_kelvin_sign_true c1 c2 c3 :
  is_kelvin_sign c1 c2 c3 = true ↔ [c1; c2; c3] = KELVIN_SIGN.
Proof.
  unfold is_kelvin_sign, KELVIN_SIGN. rewrite !andb_true_iff, !Ascii.eqb_eq.
  split; [by intros [[-> ->] ->] | by intros [= -> -> ->]].
Qed.

(** The cases of [lower]: at the head of the name U+0130, U+212A, or
    another byte. *)
Lemma lower_cases (P : list ascii → list ascii → Prop) :
  P [] [] →
  (∀ rest, P rest (lower rest) →
     P (DOTTED_I ++ rest) ("i"%char :: COMBINING_DOT ++ lower rest)) →
  (∀ rest, P rest (lower rest) →
     P (KELVIN_SIGN ++ rest) ("k"%char :: lower rest)) →
  (∀ c rest,
     (∀ b, c :: rest ≠ DOTTED_I ++ b) → (∀ b, c :: rest ≠ KELVIN_SIGN ++ b) →
     P rest (lower rest) → P (c :: rest) (lower_char c :: lower rest)) →
  ∀ s, P s (lower s).
Proof.
  intros Hnil Hdotted Hkelvin Hother s.
  remember (length s) as n eqn:Hn. revert s Hn.
  induction n as [n IH] using lt_wf_ind. intros s ->.
  destruct s as [|c1 rest]; [done|]. rewrite lower_cons.
  destruct rest as [|c2 rest2].
  - apply (Hother c1 []); [by intros b [=] | by intros b [=] | done].
  - destruct (is_dotted_I c1 c2) eqn:Hd.
    + apply is_dotted_I_true in Hd as [= -> ->].
      apply (Hdotted rest2), (IH (length rest2)); [simpl; lia | done].
    + assert (∀ b, c1 :: c2 :: rest2 ≠ DOTTED_I ++ b) as Hnd.
      { intros b [= -> -> _]. by rewrite (proj2 (is_dotted_I_true _ _)) in Hd. }
      destruct rest2 as [|c3 rest3].
      * apply Hother; [done | by intros b [=] |].
        apply (IH 1); [simpl; lia | done].
      * destruct (is_kelvin_sign c1 c2 c3) eqn:Hk.
        -- apply is_kelvin_sign_true in Hk as [= -> -> ->].
           apply (Hkelvin rest3), (IH (length rest3)); [simpl; lia | done].
        -- apply Hother; [done | |].
           ++ intros b [= -> -> -> _].
              by rewrite (proj2 (is_kelvin_sign_true _ _ _)) in Hk.
           ++ apply (IH (S (S (length rest3)))); [simpl; lia | done].
Qed.

Lemma lower_not_upper s : Forall (λ c, is_upper c = false) (lower s).
Proof.
  apply (lower_cases (λ _ l, Forall (λ c, is_upper c = false) l)).
  - done.
  - intros rest IH. by repeat (apply Forall_cons; split; [done|]).
  - intros rest IH. by apply Forall_cons.
  - intros c rest _ _ IH. apply Forall_cons.
    split; [apply lower_char_not_upper | done].
Qed.

(** [lower] makes a letter or a digit from a letter or a digit, from
    U+0130 and from U+212A, and from nothing else. *)
Lemma lower_no_alnum s :
  Forall (λ c, is_alnum c = false) (lower s) ↔
  Forall (λ c, is_alnum c = false) s ∧
  (∀ a b, s ≠ a ++ DOTTED_I ++ b) ∧ (∀ a b, s ≠ a ++ KELVIN_SIGN ++ b).
Proof.
  apply (lower_cases (λ s l,
    Forall (λ c, is_alnum c = false) l ↔
    Forall (λ c, is_alnum c = false) s ∧
    (∀ a b, s ≠ a ++ DOTTED_I ++ b) ∧ (∀ a b, s ≠ a ++ KELVIN_SIGN ++ b))).
  - split; [|done]. intros _. split; [done|].
    split; intros [|??] ?; done.
  - intros rest _. split.
    + by intros [[=] _]%Forall_cons.
    + intros (_ & Hd & _). by destruct (Hd [] rest).
  - intros rest _. split.
    + by intros [[=] _]%Forall_cons.
    + intros (_ & _ & Hk). by destruct (Hk [] rest).
  - intros c rest Hd Hk IH.
    rewrite !Forall_cons, lower_char_alnum, IH. split.
    + intros (Hc & Hrest & Hd' & Hk'). split; [done|]. split.
      * intros [|x a] b Heq; [by destruct (Hd b)|].
        injection Heq as _ Heq. by destruct (Hd' a b).
      * intros [|x a] b Heq; [by destruct (Hk b)|].
        injection Heq as _ Heq. by destruct (Hk' a b).
    + intros ([Hc Hrest] & Hd' & Hk'). split; [done|]. split; [done|]. split.
      * intros a b ->. by destruct (Hd' (c :: a) b).
      * intros a b ->. by destruct (Hk' (c :: a) b).
Qed.

(** The substitution leaves letters, digits and single underscores. *)
Lemma sub_runs_chars in_run s :
  Forall (λ c, id_char c = true) (sub_runs in_run (lower s)).
Proof.
  pose proof (lower_not_upper s) as Hlow. revert in_run.
  induction Hlow as [|c l Hc _ IH]; intros in_run; simpl; [done|].
  destruct (is_alnum c) eqn:Halnum.
  - apply Forall_cons. split; [by apply alnum_id_char | apply IH].
  - destruct in_run; [apply IH|]. apply Forall_cons. split; [done | apply IH].
Qed.

Lemma sub_runs_shape in_run s :
  (in_run = true → head (sub_runs in_run s) ≠ Some underscore) ∧
  no_double (sub_runs in_run s).
Proof.
  revert in_run. induction s as [|c s IH]; intros in_run; simpl.
  - split; [done | apply no_double_nil].
  - destruct (is_alnum c) eqn:Hc.
    + split.
      * intros _ [= ->]. done.
      * apply no_double_cons. split; [|apply IH].
        intros ->. done.
    + destruct in_run; [apply IH|]. split; [done|].
      apply no_double_cons. split; [|apply IH]. intros _. by apply IH.
Qed.

Lemma sub_runs_keeps in_run s c :
  c ∈ s → is_alnum c = true → c ∈ sub_runs in_run s.
Proof.
  revert in_run. induction s as [|a s IH]; intros in_run Hin Hc.
  - by apply elem_of_nil in Hin.
  - simpl. apply elem_of_cons in Hin as [<- | Hin].
    + rewrite Hc. by left.
    + destruct (is_alnum a); [right; by apply IH|].
      destruct in_run; [by apply IH | right; by apply IH].
Qed.

Lemma sub_runs_none in_run s :
  Forall (λ c, is_alnum c = false) s →
  sub_runs in_run s = if in_run then [] else if s is [] then [] else [underscore].
Proof.
  intros Hs. revert in_run. induction Hs as [|c s Hc _ IH]; intros in_run.
  - by destruct in_run.
  - simpl. rewrite Hc, (IH true). by destruct in_run.
Qed.

(** What [strip] removes. *)
Lemma lstrip_split s :
  ∃ k, s = k ++ lstrip s ∧ Forall (λ c, c = underscore) k ∧
       head (lstrip s) ≠ Some underscore.
Proof.
  induction s as [|c s (k & Hk & Hall & Hhead)]; simpl.
  - by exists [].
  - destruct (Ascii.eqb c underscore) eqn:Hc.
    + apply eqb_underscore in Hc as ->. exists (underscore :: k).
      split; [by rewrite Hk at 1|]. split; [by apply Forall_cons | done].
    + exists []. split; [done|]. split; [done|]. simpl.
      intros [= ->]. done.
Qed.

Lemma rstrip_split s :
  ∃ k, s = rstrip s ++ k ∧ Forall (λ c, c = underscore) k ∧
       last (rstrip s) ≠ Some underscore ∧
       (head s ≠ Some underscore → head (rstrip s) ≠ Some underscore).
Proof.
  induction s as [|c s (k & Hk & Hall & Hlast & _)]; simpl.
  - by exists [].
  - destruct (rstrip s) as [|a r] eqn:Hr.
    + destruct (Ascii.eqb c underscore) eqn:Hc.
      * apply eqb_underscore in Hc as ->. exists (underscore :: s).
        simpl in Hk. subst k.
        split; [done|]. split; [by apply Forall_cons | done].
      * exists s. simpl in Hk. subst k. split; [done|].
        split; [done|]. split; [|done]. simpl. intros [= ->]. done.
    + exists k. rewrite Hk at 1. split; [done|]. split; [done|]. split; done.
Qed.

Lemma no_double_app_l s k : no_double (s ++ k) → no_double s.
Proof.
  intros Hsk i Hi Hi'. apply (Hsk i).
  - by apply lookup_app_l_Some.
  - by apply lookup_app_l_Some.
Qed.

Lemma no_double_app_r k s : no_double (k ++ s) → no_double s.
Proof.
  induction k as [|c k IH]; [done|]. simpl. intros Hks.
  apply IH. by apply no_double_cons in Hks as [_ ?].
Qed.

Lemma strip_canonical s :
  Forall (λ c, id_char c = true) s → no_double s → canonical (strip s).
Proof.
  intros Hchars Hdouble. unfold strip.
  destruct (lstrip_split s) as (k & Hk & _ & Hhead).
  destruct (rstrip_split (lstrip s)) as (k' & Hk' & _ & Hlast & Hhead').
  rewrite Hk in Hchars, Hdouble.
  apply Forall_app in Hchars as [_ Hchars]. apply no_double_app_r in Hdouble.
  rewrite Hk' in Hchars, Hdouble.
  apply Forall_app in Hchars as [Hchars _]. apply no_double_app_l in Hdouble.
  split; [done|]. split; [by apply Hhead'|]. done.
Qed.

Lemma strip_keeps s c : c ∈ s → c ≠ underscore → c ∈ strip s.
Proof.
  intros Hin Hc. unfold strip.
  destruct (lstrip_split s) as (k & Hk & Hall & _).
  destruct (rstrip_split (lstrip s)) as (k' & Hk' & Hall' & _).
  rewrite Hk in Hin. apply elem_of_app in Hin as [Hin | Hin].
  { by destruct (Hc (proj1 (Forall_forall _ _) Hall c Hin)). }
  rewrite Hk' in Hin. apply elem_of_app in Hin as [Hin | Hin]; [done|].
  by destruct (Hc (proj1 (Forall_forall _ _) Hall' c Hin)).
Qed.

(** The three steps leave a canonical string as it is. *)
Lemma canonical_lower s :
  Forall (λ c, id_char c = true) s → lower s = s.
Proof.
  apply (lower_cases (λ s l, Forall (λ c, id_char c = true) s → l = s)).
  - done.
  - intros rest _ [[=] _]%Forall_cons.
  - intros rest _ [[=] _]%Forall_cons.
  - intros c rest _ _ IH [Hc Hrest]%Forall_cons.
    by rewrite IH, id_char_lower.
Qed.

Lemma canonical_sub_runs in_run s :
  Forall (λ c, id_char c = true) s → no_double s →
  (in_run = true → head s ≠ Some underscore) →
  sub_runs in_run s = s.
Proof.
  intros Hchars. revert in_run.
  induction Hchars as [|c s Hc _ IH]; intros in_run Hdouble Hhead; [done|].
  apply no_double_cons in Hdouble as [Hnext Hdouble]. simpl.
  destruct (decide (c = underscore)) as [->|Hne].
  - change (is_alnum underscore) with false. cbn match.
    destruct in_run; [by destruct Hhead|].
    f_equal. apply IH; [done|]. intros _. by apply Hnext.
  - rewrite (id_char_alnum c Hc Hne). f_equal. by apply IH.
Qed.

Lemma canonical_lstrip s : head s ≠ Some underscore → lstrip s = s.
Proof.
  destruct s as [|c s]; [done|]. simpl. intros Hc.
  destruct (Ascii.eqb c underscore) eqn:Hcu; [|done].
  apply eqb_underscore in Hcu as ->. done.
Qed.

Lemma canonical_rstrip s : last s ≠ Some underscore → rstrip s = s.
Proof.
  induction s as [|c s IH]; [done|]. simpl. destruct s as [|a s].
  - simpl. intros Hc. destruct (Ascii.eqb c underscore) eqn:Hcu; [|done].
    apply eqb_underscore in Hcu as ->. done.
  - intros Hlast. rewrite IH by done. done.
Qed.

Lemma canonical_fixed s :
  canonical s → strip (sub_runs false (lower s)) = s.
Proof.
  intros (Hchars & Hhead & Hlast & Hdouble).
  rewrite canonical_lower by done.
  rewrite canonical_sub_runs by done.
  unfold strip. rewrite canonical_lstrip by done. by apply canonical_rstrip.
Qed.

(** The keys of [NAME_MAP] start with a capital letter. *)
Lemma NAME_MAP_Some name v :
  NAME_MAP !! name = Some v →
  ∃ c rest, name = String c rest ∧ is_upper c = true ∧
            v ≠ "" ∧ NAME_MAP !! v = None ∧
            ∃ c' rest', v = String c' rest' ∧ is_upper c' = true.
Proof.
  intros Hl. apply elem_of_list_to_map_2 in Hl.
  repeat (apply elem_of_cons in Hl as [[= -> ->] | Hl];
          [eexists _, _; split; [done|]; split; [compute_done|];
           split; [done|]; split; [compute_done|];
           eexists _, _; split; [done | compute_done]
          |]).
  by apply elem_of_nil in Hl.
Qed.

Lemma NAME_MAP_id_chars s :
  Forall (λ c, id_char c = true) (list_ascii_of_string s) →
  NAME_MAP !! s = None.
Proof.
  intros Hchars. destruct (NAME_MAP !! s) as [v|] eqn:Hl; [|done].
  apply NAME_MAP_Some in Hl as (c & rest & -> & Hc & _).
  simpl in Hchars. apply Forall_cons in Hchars as [Hid _].
  revert Hc Hid. by_cases_on c.
Qed.

Lemma NAME_MAP_no_alnum s :
  Forall (λ c, is_alnum c = false) (list_ascii_of_string s) →
  NAME_MAP !! s = None.
Proof.
  intros Hchars. destruct (NAME_MAP !! s) as [v|] eqn:Hl; [|done].
  apply NAME_MAP_Some in Hl as (c & rest & -> & Hc & _).
  simpl in Hchars. apply Forall_cons in Hchars as [Hid _].
  revert Hc Hid. by_cases_on c.
Qed.

Lemma name_to_id_shape name :
  canonical (strip (sub_runs false (lower (list_ascii_of_string name)))).
Proof.
  apply strip_canonical; [apply sub_runs_chars | apply sub_runs_shape].
Qed.

(** An identifier is made of words of lower-case letters and digits
    joined by one underscore: it has no other character, no underscore at
    either end and no two underscores in a row. *)
Theorem name_to_id_canonical name :
  canonical (list_ascii_of_string (name_to_id name)).
Proof.
  unfold name_to_id. rewrite list_ascii_of_string_of_list_ascii.
  apply name_to_id_shape.
Qed.

(** An identifier is its own identifier. *)
Theorem name_to_id_idempotent name :
  name_to_id (name_to_id name) = name_to_id name.
Proof.
  pose proof (name_to_id_shape (default name (NAME_MAP !! name))) as Hcan.
  unfold name_to_id at 1. fold (name_to_id name).
  assert (list_ascii_of_string (name_to_id name)
          = strip (sub_runs false
                     (lower (list_ascii_of_string
                               (default name (NAME_MAP !! name))))))
    as Hid by apply list_ascii_of_string_of_list_ascii.
  rewrite NAME_MAP_id_chars by (rewrite Hid; apply Hcan). simpl.
  rewrite Hid, canonical_fixed by done. rewrite <- Hid.
  apply string_of_list_ascii_of_string.
Qed.

(** The identifier is empty exactly when [lower] leaves no letter and no
    digit. *)
Lemma strip_sub_runs_nil s :
  strip (sub_runs false s) = [] ↔ Forall (λ c, is_alnum c = false) s.
Proof.
  split.
  - intros Hnil. apply Forall_forall. intros c Hin.
    destruct (is_alnum c) eqn:Hc; [|done].
    assert (c ∈ strip (sub_runs false s)) as Hout.
    { apply strip_keeps; [by apply sub_runs_keeps|].
      by apply alnum_not_underscore. }
    rewrite Hnil in Hout. by apply elem_of_nil in Hout.
  - intros Hs. rewrite sub_runs_none by done. by destruct s.
Qed.

(** The identifier is empty exactly for the names, given by their UTF-8
    bytes, without a letter A-Z or a-z, without a digit, without U+0130
    and without U+212A, as are the names written in Cyrillic. *)
Theorem name_to_id_empty name :
  name_to_id name = "" ↔
  Forall (λ c, is_alnum c = false) (list_ascii_of_string name) ∧
  (∀ a b, list_ascii_of_string name ≠ a ++ DOTTED_I ++ b) ∧
  (∀ a b, list_ascii_of_string name ≠ a ++ KELVIN_SIGN ++ b).
Proof.
  assert (∀ l, string_of_list_ascii l = "" ↔ l = []) as Hempty.
  { intros l. split; [|by intros ->]. intros Hl.
    apply (f_equal list_ascii_of_string) in Hl.
    by rewrite list_ascii_of_string_of_list_ascii in Hl. }
  unfold name_to_id. rewrite Hempty, strip_sub_runs_nil.
  destruct (NAME_MAP !! name) as [v|] eqn:Hl; simpl.
  - apply NAME_MAP_Some in Hl
      as (c & rest & -> & Hc & _ & _ & c' & rest' & -> & Hc').
    split.
    + intros [[Hv _]%Forall_cons _]%lower_no_alnum.
      by rewrite (upper_alnum c' Hc') in Hv.
    + intros [[Hn _]%Forall_cons _]. by rewrite (upper_alnum c Hc) in Hn.
  - apply lower_no_alnum.
Qed.

End ItemIds.

(** ** The preset *)

Section Preset.
Import CreatePreset.
Context `{Lower}.

Lemma build_from_None records :
  foldl (λ acc kv, acc ≫= λ m, add_skill m kv) None records = None.
Proof. by induction records. Qed.

(** The values of the map are identifiers of English names of records. *)
Lemma build_values records m0 m k v :
  foldl (λ acc kv, acc ≫= λ m, add_skill m kv) (Some m0) records = Some m →
  m !! k = Some v →
  m0 !! k = Some v ∨
  ∃ kv en, kv ∈ records ∧
           py_get_default kv.2 "en_name" (JStr kv.1) = JStr en ∧
           v = name_to_id en.
Proof.
  revert m0. induction records as [|kv records IH]; intros m0.
  - intros [= <-]. by left.
  - simpl. unfold add_skill at 2.
    destruct (py_get_default kv.2 "en_name" (JStr kv.1)) as [| | |en] eqn:Hen;
      try (by rewrite build_from_None).
    intros Hm Hk. destruct (IH _ Hm Hk) as [Hk0 | (kv' & en' & Hin & ?)].
    + apply lookup_insert_Some in Hk0 as [[_ <-] | [_ Hk0]].
      { right. exists kv, en. split; [left | done]. }
      apply lookup_insert_Some in Hk0 as [[_ <-] | [_ Hk0]].
      { right. exists kv, en. split; [left | done]. }
      by left.
    + right. exists kv', en'. split; [by right | done].
Qed.

Lemma build_None records m0 :
  foldl (λ acc kv, acc ≫= λ m, add_skill m kv) (Some m0) records = None ↔
  Exists (λ kv, ∀ en, py_get_default kv.2 "en_name" (JStr kv.1) ≠ JStr en)
         records.
Proof.
  revert m0. induction records as [|kv records IH]; intros m0.
  - split; [done | by intros ?%Exists_nil].
  - simpl. rewrite Exists_cons. unfold add_skill at 2.
    destruct (py_get_default kv.2 "en_name" (JStr kv.1)) as [| | |en] eqn:Hen;
      try (rewrite build_from_None; split; [by intros _; left | done]).
    simpl. rewrite IH. split; [by right|].
    intros [Hkv | Hrest]; [by destruct (Hkv en) | done].
Qed.

(** What [find_skill] finds is a value of the map. *)
Lemma find_skill_found m skill :
  found (find_skill m skill) = true →
  ∃ k, m !! k = Some (default "" (find_skill m skill)) ∧
       default "" (find_skill m skill) ≠ "".
Proof.
  assert (∀ k, found (m !! k) = true →
    ∃ k', m !! k' = Some (default "" (m !! k)) ∧ default "" (m !! k) ≠ "")
    as Hget.
  { intros k. destruct (m !! k) as [v|] eqn:Hk; [|done]. simpl.
    intros Hv%negb_true_iff%String.eqb_neq. by exists k. }
  unfold find_skill.
  destruct (found (m !! skill)) eqn:H1.
  { rewrite H1. intros _. by apply Hget. }
  destruct (found (m !! str_lower skill)) eqn:H2.
  { intros _. by apply Hget. }
  destruct (found (ALT_NAMES !! skill)); [apply Hget | by rewrite H2].
Qed.

(** The loop over the skills of a tier. *)
Lemma convert_skills m skills tier_items missing_skills :
  ∃ items missing,
    foldl (convert_skill m) (tier_items, missing_skills) skills
    = (tier_items ++ items, missing_skills ++ missing) ∧
    Forall2 (λ skill item,
               (item ≠ "" ∧ ∃ k, m !! k = Some item) ∨
               (skill ∈ missing ∧ item = name_to_id skill)) skills items.
Proof.
  revert tier_items missing_skills.
  induction skills as [|skill skills IH]; intros tier_items missing_skills.
  - exists [], []. by rewrite !app_nil_r.
  - simpl. unfold convert_skill at 2. simpl.
    destruct (found (find_skill m skill)) eqn:Hfound.
    + destruct (IH (tier_items ++ [default "" (find_skill m skill)])
                  missing_skills) as (items & missing & -> & Hall).
      exists (default "" (find_skill m skill) :: items), missing.
      split; [by rewrite <- app_assoc|]. constructor; [|done].
      left. destruct (find_skill_found m skill Hfound) as (k & Hk & Hne).
      split; [done | by exists k].
    + destruct (IH (tier_items ++ [name_to_id skill])
                  (missing_skills ++ [skill])) as (items & missing & -> & Hall).
      exists (name_to_id skill :: items), (skill :: missing).
      split; [by rewrite <- !app_assoc|]. constructor.
      * right. split; [left | done].
      * eapply Forall2_impl; [done|]. simpl.
        intros s i [? | [Hin ->]]; [by left|]. right. split; [by right | done].
Qed.

(** The loop over the tiers. *)
Lemma convert_tiers m preset output_tiers missing_skills :
  ∃ out missing,
    foldl (convert_tier m) (output_tiers, missing_skills) preset
    = (output_tiers ++ out, missing_skills ++ missing) ∧
    Forall2 (λ t o,
      out_name o = tier_name t ∧ out_color o = tier_color t ∧
      Forall2 (λ skill item,
                 (item ≠ "" ∧ ∃ k, m !! k = Some item) ∨
                 (skill ∈ missing ∧ item = name_to_id skill))
              (tier_skills t) (out_items o)) preset out.
Proof.
  revert output_tiers missing_skills.
  induction preset as [|t preset IH]; intros output_tiers missing_skills.
  - exists [], []. by rewrite !app_nil_r.
  - simpl. unfold convert_tier at 2. simpl.
    destruct (convert_skills m (tier_skills t) [] missing_skills)
      as (items & missing1 & -> & Hitems). simpl.
    destruct (IH (output_tiers ++ [ {| out_name := tier_name t;
                                       out_color := tier_color t;
                                       out_items := items |} ])
                (missing_skills ++ missing1)) as (out & missing2 & -> & Hall).
    exists ({| out_name := tier_name t; out_color := tier_color t;
               out_items := items |} :: out), (missing1 ++ missing2).
    split; [by rewrite <- !app_assoc|]. constructor.
    + simpl. split; [done|]. split; [done|].
      eapply Forall2_impl; [done|]. simpl.
      intros s i [? | [Hin ->]]; [by left|]. right.
      split; [|done]. apply elem_of_app. by left.
    + eapply Forall2_impl; [done|]. simpl.
      intros t' o (? & ? & Hitems'). split; [done|]. split; [done|].
      eapply Forall2_impl; [done|]. simpl.
      intros s i [? | [Hin ->]]; [by left|]. right.
      split; [|done]. apply elem_of_app. by right.
Qed.

(** The written preset has the tiers of [PRESET_DATA], with their names
    and colours, and one item for every skill, in the same order: the
    identifier of the English name of a record of the catalog, or, for a
    skill reported as missing, the identifier of the name of the skill. *)
Theorem preset_items records preset out missing :
  main (Some records) preset = Some (out, missing) →
  Forall2 (λ t o,
    out_name o = tier_name t ∧ out_color o = tier_color t ∧
    Forall2 (λ skill item,
      (item ≠ "" ∧
       ∃ kv en, kv ∈ records ∧
                py_get_default kv.2 "en_name" (JStr kv.1) = JStr en ∧
                item = name_to_id en) ∨
      (skill ∈ missing ∧ item = name_to_id skill))
      (tier_skills t) (out_items o)) preset out.
Proof.
  unfold main. simpl.
  destruct (build_skill_name_to_id_map records) as [m|] eqn:Hm; [|done].
  simpl. destruct (convert_tiers m preset [] [])
    as (out' & missing' & -> & Hall).
  intros [= <- <-]. eapply Forall2_impl; [done|]. simpl.
  intros t o (? & ? & Hitems). split; [done|]. split; [done|].
  eapply Forall2_impl; [done|]. simpl.
  intros s i [[Hne [k Hk]] | ?]; [|by right]. left. split; [done|].
  destruct (build_values _ _ _ _ _ Hm Hk) as [Hempty | ?]; [|done].
  by rewrite lookup_empty in Hempty.
Qed.

(** The script fails exactly when [spells.json] cannot be opened or holds
    a record whose English name is not a string; the preset plays no part
    in it. *)
Theorem preset_fails file preset :
  main file preset = None ↔
  file = None ∨
  ∃ records, file = Some records ∧
    Exists (λ kv, ∀ en, py_get_default kv.2 "en_name" (JStr kv.1) ≠ JStr en)
           records.
Proof.
  unfold main. destruct file as [records|]; simpl; [|by split; [left|]].
  unfold build_skill_name_to_id_map.
  destruct (foldl _ _ records) as [m|] eqn:Hm; simpl.
  - split; [done|]. intros [? | (r & [= <-] & Hex)]; [done|].
    apply (build_None records ∅) in Hex. congruence.
  - split; [|done]. intros _. right. exists records. split; [done|].
    by apply (build_None records ∅).
Qed.

End Preset.

Lemma preset_items_witness :
  Forall2 (λ t o,
    CreatePreset.out_name o = CreatePreset.tier_name t ∧
    CreatePreset.out_color o = CreatePreset.tier_color t ∧
    Forall2 (λ skill item,
      (item ≠ "" ∧
       ∃ kv en, kv ∈ PresetSamples.some_records ∧
                py_get_default kv.2 "en_name" (JStr kv.1) = JStr en ∧
                item = CreatePreset.name_to_id en) ∨
      (skill ∈ ["Tornado"] ∧ item = CreatePreset.name_to_id skill))
      (CreatePreset.tier_skills t) (CreatePreset.out_items o))
    PresetSamples.two_tiers PresetSamples.written_tiers.
Proof.
  apply (@preset_items PresetSamples.sample_lower
           PresetSamples.some_records PresetSamples.two_tiers
           PresetSamples.written_tiers ["Tornado"]).
  compute_done.
Defined.
